(** * BlackRoad Terraform module registry: a shallow embedding

    The development follows [terraform_modules.py]: Python strings and
    their methods, the dataclasses, the [modules] table of the SQLite
    store, and the public operations of [TerraformRegistry]
    ([register_module], [generate_tf], [validate_hcl], [get_module],
    [export_plan], [delete_module]) together with
    [TerraformModule.bump_version]. *)

From Stdlib Require Import List Ascii String ZArith Lia Bool Arith.
From Stdlib Require Import DecimalString DecimalZ DecimalPos.
Import ListNotations.

Local Open Scope string_scope.
Local Open Scope list_scope.
Local Open Scope nat_scope.

(** ** Python [str]

    A Python string is a sequence of code points; the model keeps the code
    points below 256, which is where [ascii] lives. The character classes
    ([str.isspace], line boundaries, the [\w] and [\s] of [re]) are
    Python's, restricted to that range. String literals of the source are
    written [lit "..."]; the box-drawing characters that decorate two
    header lines of [export_plan] appear as their UTF-8 bytes. *)

Definition str := list ascii.

Definition lit (x : string) : str := list_ascii_of_string x.

(** The double quote, written by its code. *)
Definition dquote : ascii := ascii_of_nat 34.

(** A text between double quotes. *)
Definition quote_ (s : str) : str := dquote :: s ++ [dquote].

(** The line feed, as a string. *)
Definition newline : str := [ascii_of_nat 10].

Fixpoint str_eqb (a b : str) : bool :=
  match a, b with
  | [], [] => true
  | x :: a', y :: b' => Ascii.eqb x y && str_eqb a' b'
  | _, _ => false
  end.

Definition code (c : ascii) : nat := nat_of_ascii c.

(** [str.isspace] on one character: TAB, LF, VT, FF, CR, FS, GS, RS, US,
    SPACE, NEL and NBSP. Also the [\s] of [re]. *)
Definition is_space (c : ascii) : bool :=
  let n := code c in
  ((9 <=? n) && (n <=? 13)) || ((28 <=? n) && (n <=? 32))
  || (n =? 133) || (n =? 160).

(** The line boundaries of [str.splitlines] other than CR: LF, VT, FF, FS,
    GS, RS and NEL. *)
Definition is_linebreak (c : ascii) : bool :=
  let n := code c in
  ((10 <=? n) && (n <=? 12)) || ((28 <=? n) && (n <=? 30)) || (n =? 133).

Definition is_digit (c : ascii) : bool :=
  let n := code c in (48 <=? n) && (n <=? 57).

(** The [\w] of [re] on a [str] pattern: alphanumeric or underscore. Below
    128 these are the ASCII letters and digits; from 128 to 255 they are
    the Latin-1 letters and the numeric signs (superscripts, fractions). *)
Definition is_word (c : ascii) : bool :=
  let n := code c in
  is_digit c
  || ((65 <=? n) && (n <=? 90)) || ((97 <=? n) && (n <=? 122)) || (n =? 95)
  || (n =? 170) || (n =? 178) || (n =? 179) || (n =? 181) || (n =? 185)
  || (n =? 186) || ((188 <=? n) && (n <=? 190))
  || ((192 <=? n) && (n <=? 214)) || ((216 <=? n) && (n <=? 246))
  || (248 <=? n).

(** [s.startswith(p)] *)
Fixpoint startswith (s p : str) {struct p} : bool :=
  match p with
  | [] => true
  | a :: p' =>
      match s with
      | [] => false
      | b :: s' => Ascii.eqb a b && startswith s' p'
      end
  end.

(** [s.replace(old, new)]: the occurrences of [old] are found from the left
    and do not overlap. [replace_from k] has [k] characters of a matched
    occurrence still to drop. With an empty [old], Python inserts [new]
    before every character and at the end. *)
Fixpoint replace_from (skip : nat) (s old new : str) : str :=
  match s with
  | [] => []
  | c :: s' =>
      match skip with
      | S k => replace_from k s' old new
      | O =>
          if startswith s old
          then new ++ replace_from (List.length old - 1) s' old new
          else c :: replace_from 0 s' old new
      end
  end.

Definition replace (s old new : str) : str :=
  match old with
  | [] => new ++ flat_map (fun c => c :: new) s
  | _ :: _ => replace_from 0 s old new
  end.

(** [s.count(sub)]: the number of non-overlapping occurrences. *)
Fixpoint count_from (skip : nat) (s sub : str) : nat :=
  match s with
  | [] => 0
  | _ :: s' =>
      match skip with
      | S k => count_from k s' sub
      | O =>
          if startswith s sub
          then S (count_from (List.length sub - 1) s' sub)
          else count_from 0 s' sub
      end
  end.

Definition count (s sub : str) : nat :=
  match sub with
  | [] => S (List.length s)
  | _ :: _ => count_from 0 s sub
  end.

(** [s.lstrip()], [s.rstrip()] and [s.strip()] *)
Fixpoint lstrip (s : str) : str :=
  match s with
  | [] => []
  | c :: s' => if is_space c then lstrip s' else s
  end.

Definition rstrip (s : str) : str := rev (lstrip (rev s)).

Definition strip (s : str) : str := rstrip (lstrip s).

(** [s.split()]: the maximal runs of characters that are not whitespace.
    [cur] holds the current run, reversed. *)
Fixpoint split_from (cur : str) (s : str) : list str :=
  match s with
  | [] => match cur with [] => [] | _ :: _ => [rev cur] end
  | c :: s' =>
      if is_space c
      then match cur with
           | [] => split_from [] s'
           | _ :: _ => rev cur :: split_from [] s'
           end
      else split_from (c :: cur) s'
  end.

Definition split (s : str) : list str := split_from [] s.

(** [s.split(sep)] for a separator of one character: every separator ends
    a field, so there is always one field more than separators. *)
Fixpoint split_on_from (sep : ascii) (cur : str) (s : str) : list str :=
  match s with
  | [] => [rev cur]
  | c :: s' =>
      if Ascii.eqb c sep
      then rev cur :: split_on_from sep [] s'
      else split_on_from sep (c :: cur) s'
  end.

Definition split_on (sep : ascii) (s : str) : list str :=
  split_on_from sep [] s.

(** [s.splitlines()]: CR LF counts as one boundary, and a final boundary
    opens no empty last line. *)
Fixpoint splitlines_from (cur : str) (s : str) : list str :=
  match s with
  | [] => match cur with [] => [] | _ :: _ => [rev cur] end
  | c :: s' =>
      if code c =? 13
      then match s' with
           | d :: s'' =>
               if code d =? 10
               then rev cur :: splitlines_from [] s''
               else rev cur :: splitlines_from [] s'
           | [] => [rev cur]
           end
      else if is_linebreak c
      then rev cur :: splitlines_from [] s'
      else splitlines_from (c :: cur) s'
  end.

Definition splitlines (s : str) : list str := splitlines_from [] s.

(** [sep.join(parts)] *)
Fixpoint join (sep : str) (parts : list str) : str :=
  match parts with
  | [] => []
  | [p] => p
  | p :: rest => p ++ sep ++ join sep rest
  end.

(** [sub in s] *)
Fixpoint contains_b (s sub : str) : bool :=
  startswith s sub
  || match s with
     | [] => false
     | _ :: s' => contains_b s' sub
     end.

(** The whitespace that [int(s)] strips around a numeral. *)
Definition int_space (c : ascii) : bool :=
  let n := code c in
  ((9 <=? n) && (n <=? 13)) || (n =? 32) || (n =? 133) || (n =? 160).

Fixpoint lstrip_with (p : ascii -> bool) (s : str) : str :=
  match s with
  | [] => []
  | c :: s' => if p c then lstrip_with p s' else s
  end.

Definition strip_with (p : ascii -> bool) (s : str) : str :=
  rev (lstrip_with p (rev (lstrip_with p s))).

(** [str(n)] for an [int]: the decimal numeral, with a minus sign when
    negative. *)
Definition str_of_Z (z : Z) : str := lit (NilZero.string_of_int (Z.to_int z)).

Definition str_of_nat (n : nat) : str := str_of_Z (Z.of_nat n).

(** The digits of a numeral as a decimal number of the standard library. *)
Definition uint_of_digits (s : str) : option Decimal.uint :=
  NilEmpty.uint_of_string (string_of_list_ascii s).

(** The digit part of an [int] literal: digits, with single underscores
    allowed between two digits. The result has the underscores removed. *)
Fixpoint int_digits (after_digit : bool) (s : str) : option str :=
  match s with
  | [] => if after_digit then Some [] else None
  | c :: s' =>
      if is_digit c
      then option_map (cons c) (int_digits true s')
      else if (code c =? 95) && after_digit
      then int_digits false s'
      else None
  end.

Definition int_magnitude (s : str) : option Z :=
  match int_digits false s with
  | Some ds => option_map Z.of_uint (uint_of_digits ds)
  | None => None
  end.

(** [int(s)], base ten: surrounding whitespace, an optional sign, digits.
    [None] stands for [ValueError]. *)
Definition py_int (s : str) : option Z :=
  match strip_with int_space s with
  | c :: r =>
      if code c =? 45 then option_map Z.opp (int_magnitude r)
      else if code c =? 43 then int_magnitude r
      else int_magnitude (c :: r)
  | [] => None
  end.

(** ** Python values

    The values a variable's [default] and a caller's mapping hold:
    [None], booleans, integers and strings, which is what every built-in
    module of the registry uses. Floats and nested lists and maps are
    outside the model. *)
Inductive pyval : Type :=
| PNone
| PBool (b : bool)
| PInt (z : Z)
| PStr (s : str).

(** [str(val)] *)
Definition py_str (v : pyval) : str :=
  match v with
  | PNone => lit "None"
  | PBool true => lit "True"
  | PBool false => lit "False"
  | PInt z => str_of_Z z
  | PStr s => s
  end.

(** [val is None] *)
Definition is_None (v : pyval) : bool :=
  match v with PNone => true | _ => false end.

(** ** Python [dict]

    A dictionary keeps its keys in insertion order, and [generate_tf]
    iterates over one, so a dictionary is the list of its items in that
    order. Assigning to a key that is present keeps its place. *)
Definition dict (V : Type) := list (str * V).

Fixpoint dict_get {V} (d : dict V) (k : str) : option V :=
  match d with
  | [] => None
  | (k', v) :: d' => if str_eqb k' k then Some v else dict_get d' k
  end.

(** [k in d] *)
Definition dict_mem {V} (d : dict V) (k : str) : bool :=
  match dict_get d k with Some _ => true | None => false end.

(** [d[k] = v] *)
Fixpoint dict_set {V} (d : dict V) (k : str) (v : V) : dict V :=
  match d with
  | [] => [(k, v)]
  | (k', v') :: d' =>
      if str_eqb k' k then (k', v) :: d' else (k', v') :: dict_set d' k v
  end.

(** [d.update(other)] *)
Definition dict_update {V} (d other : dict V) : dict V :=
  fold_left (fun acc kv => dict_set acc (fst kv) (snd kv)) other d.

Definition dict_keys {V} (d : dict V) : list str := map fst d.

(** A list of items is a dictionary when no key occurs twice. *)
Definition dict_wf {V} (d : dict V) : Prop := NoDup (dict_keys d).

(** ** The dataclasses *)

Record TerraformVariable : Type := mkVariable {
  var_name : str;
  var_type : str;
  var_description : str;
  var_default : pyval;
  var_required : bool;
  var_sensitive : bool
}.

Record TerraformOutput : Type := mkOutput {
  out_name : str;
  out_description : str;
  out_value_expression : str;
  out_sensitive : bool
}.

Record TerraformExample : Type := mkExample {
  ex_title : str;
  ex_description : str;
  ex_hcl_code : str
}.

Record TerraformModule : Type := mkModule {
  mod_id : str;
  mod_name : str;
  mod_provider : str;
  mod_resource_type : str;
  mod_version : str;
  mod_description : str;
  mod_hcl_template : str;
  mod_variables : list TerraformVariable;
  mod_outputs : list TerraformOutput;
  mod_examples : list TerraformExample;
  mod_tags : list str;
  mod_created_at : str;
  mod_download_count : Z
}.

Record ValidationResult : Type := mkValidation {
  valid : bool;
  errors : list str;
  warnings : list str
}.

Definition set_version (m : TerraformModule) (v : str) : TerraformModule :=
  mkModule (mod_id m) (mod_name m) (mod_provider m) (mod_resource_type m) v
    (mod_description m) (mod_hcl_template m) (mod_variables m)
    (mod_outputs m) (mod_examples m) (mod_tags m) (mod_created_at m)
    (mod_download_count m).

(** [major, minor, patch = map(int, self.version.split("."))]: exactly
    three fields, each accepted by [int]. [None] is the [ValueError]. *)
Definition parse_version (v : str) : option (Z * Z * Z) :=
  match split_on "." v with
  | [a; b; c] =>
      match py_int a, py_int b, py_int c with
      | Some major, Some minor, Some patch => Some (major, minor, patch)
      | _, _, _ => None
      end
  | _ => None
  end.

(** [f"{major}.{minor}.{patch}"] *)
Definition format_version (major minor patch : Z) : str :=
  str_of_Z major ++ lit "." ++ str_of_Z minor ++ lit "." ++ str_of_Z patch.

(** [TerraformModule.bump_version]: the returned string and the module as
    the call leaves it. *)
Definition bump_version (m : TerraformModule) (part : str)
  : option (str * TerraformModule) :=
  match parse_version (mod_version m) with
  | None => None
  | Some (major, minor, patch) =>
      let '(major, minor, patch) :=
        if str_eqb part (lit "major") then ((major + 1)%Z, 0%Z, 0%Z)
        else if str_eqb part (lit "minor") then (major, (minor + 1)%Z, 0%Z)
        else (major, minor, (patch + 1)%Z) in
      let v := format_version major minor patch in
      Some (v, set_version m v)
  end.

(** ** [json.dumps] and [json.loads]

    The serialized columns hold arrays whose items are strings or flat
    records of scalars; the printer and the reader below are those of the
    standard [json] module on documents of that shape. A document the
    reader does not cover (floats, nesting, code points from 256 on) is
    reported as an error. *)

Notation "'let?' p ':=' a 'in' b" :=
  (match a with Some p => b | None => None end)
  (at level 10, p pattern, a at level 100, b at level 200).

Inductive jitem : Type :=
| JScalar (v : pyval)
| JRecord (r : dict pyval).

Definition hex_digit (n : nat) : ascii :=
  nth n (lit "0123456789abcdef") "0"%char.

(** One character inside a JSON string, [ensure_ascii] being on: the short
    escapes, [\u00xx] for what is not printable ASCII, the character itself
    otherwise. *)
Definition escape_char (c : ascii) : str :=
  let n := code c in
  if n =? 34 then ["\"%char; dquote]
  else if n =? 92 then lit "\\"
  else if n =? 10 then lit "\n"
  else if n =? 13 then lit "\r"
  else if n =? 9 then lit "\t"
  else if n =? 8 then lit "\b"
  else if n =? 12 then lit "\f"
  else if (n <? 32) || (126 <? n)
  then lit "\u00" ++ [hex_digit (n / 16); hex_digit (n mod 16)]
  else [c].

Definition dumps_str (s : str) : str :=
  dquote :: flat_map escape_char s ++ [dquote].

Definition dumps_scalar (v : pyval) : str :=
  match v with
  | PNone => lit "null"
  | PBool true => lit "true"
  | PBool false => lit "false"
  | PInt z => str_of_Z z
  | PStr s => dumps_str s
  end.

Definition dumps_pair (kv : str * pyval) : str :=
  dumps_str (fst kv) ++ lit ": " ++ dumps_scalar (snd kv).

Definition dumps_record (r : dict pyval) : str :=
  lit "{" ++ join (lit ", ") (map dumps_pair r) ++ lit "}".

Definition dumps_item (i : jitem) : str :=
  match i with
  | JScalar v => dumps_scalar v
  | JRecord r => dumps_record r
  end.

(** [json.dumps] of a list *)
Definition json_dumps (l : list jitem) : str :=
  lit "[" ++ join (lit ", ") (map dumps_item l) ++ lit "]".

(** JSON whitespace: space, TAB, LF, CR. *)
Definition json_ws (c : ascii) : bool :=
  let n := code c in (n =? 32) || (n =? 9) || (n =? 10) || (n =? 13).

Fixpoint skip_ws (s : str) : str :=
  match s with
  | [] => []
  | c :: s' => if json_ws c then skip_ws s' else s
  end.

Definition hex_val (c : ascii) : option nat :=
  let n := code c in
  if is_digit c then Some (n - 48)
  else if (97 <=? n) && (n <=? 102) then Some (n - 87)
  else if (65 <=? n) && (n <=? 70) then Some (n - 55)
  else None.

Definition hex4 (a b c d : ascii) : option nat :=
  let? x := hex_val a in
  let? y := hex_val b in
  let? z := hex_val c in
  let? w := hex_val d in
  Some (((x * 16 + y) * 16 + z) * 16 + w).

(** The character a backslash escape other than [\u] stands for. *)
Definition unescape (e : ascii) : option ascii :=
  let n := code e in
  if n =? 34 then Some dquote
  else if n =? 92 then Some "\"%char
  else if n =? 47 then Some "/"%char
  else if n =? 98 then Some (ascii_of_nat 8)
  else if n =? 102 then Some (ascii_of_nat 12)
  else if n =? 110 then Some (ascii_of_nat 10)
  else if n =? 114 then Some (ascii_of_nat 13)
  else if n =? 116 then Some (ascii_of_nat 9)
  else None.

Definition cons_fst (c : ascii) (r : option (str * str)) : option (str * str) :=
  let? (s, rest) := r in Some (c :: s, rest).

(** The body of a JSON string, read after its opening quote: the decoded
    string and what follows the closing quote. A raw control character is
    an error. *)
Fixpoint scanstring (s : str) : option (str * str) :=
  match s with
  | [] => None
  | c :: s1 =>
      if code c =? 34 then Some ([], s1)
      else if code c =? 92 then
        match s1 with
        | [] => None
        | e :: s2 =>
            if code e =? 117 then
              match s2 with
              | h1 :: h2 :: h3 :: h4 :: s3 =>
                  match hex4 h1 h2 h3 h4 with
                  | Some n =>
                      if n <? 256
                      then cons_fst (ascii_of_nat n) (scanstring s3)
                      else None
                  | None => None
                  end
              | _ => None
              end
            else
              match unescape e with
              | Some ch => cons_fst ch (scanstring s2)
              | None => None
              end
        end
      else if code c <? 32 then None
      else cons_fst c (scanstring s1)
  end.

Fixpoint span_digits (s : str) : str * str :=
  match s with
  | [] => ([], [])
  | c :: s' =>
      if is_digit c
      then let '(ds, r) := span_digits s' in (c :: ds, r)
      else ([], s)
  end.

(** What follows an integer must not make it a float. *)
Definition starts_fraction (s : str) : bool :=
  match s with
  | [] => false
  | c :: _ => (code c =? 46) || (code c =? 101) || (code c =? 69)
  end.

(** An integer: an optional minus, then [0] or a numeral without a leading
    zero. *)
Definition parse_number (s : str) : option (Z * str) :=
  let '(neg, t) :=
    match s with
    | c :: t => if code c =? 45 then (true, t) else (false, s)
    | [] => (false, s)
    end in
  let '(ds, r) :=
    match t with
    | d :: t' => if code d =? 48 then ([d], t') else span_digits t
    | [] => ([], [])
    end in
  match ds with
  | [] => None
  | _ :: _ =>
      if starts_fraction r then None
      else
        let? u := uint_of_digits ds in
        Some (if neg then Z.opp (Z.of_uint u) else Z.of_uint u, r)
  end.

Definition expect (word : str) (s : str) : option str :=
  if startswith s word then Some (skipn (List.length word) s) else None.

Definition parse_scalar (s : str) : option (pyval * str) :=
  match s with
  | [] => None
  | c :: s' =>
      if code c =? 34 then
        let? (x, r) := scanstring s' in Some (PStr x, r)
      else if code c =? 110 then
        let? r := expect (lit "null") s in Some (PNone, r)
      else if code c =? 116 then
        let? r := expect (lit "true") s in Some (PBool true, r)
      else if code c =? 102 then
        let? r := expect (lit "false") s in Some (PBool false, r)
      else
        let? (z, r) := parse_number s in Some (PInt z, r)
  end.

(** The members of an object, read at the opening quote of a key, up to
    and including the closing brace. *)
Fixpoint parse_pairs (fuel : nat) (s : str) : option (list (str * pyval) * str) :=
  match fuel with
  | O => None
  | S fuel' =>
      match s with
      | [] => None
      | q :: s1 =>
          if code q =? 34 then
            let? (k, s2) := scanstring s1 in
            match skip_ws s2 with
            | [] => None
            | c :: s3 =>
                if code c =? 58 then
                  let? (v, s4) := parse_scalar (skip_ws s3) in
                  match skip_ws s4 with
                  | [] => None
                  | e :: s5 =>
                      if code e =? 125 then Some ([(k, v)], s5)
                      else if code e =? 44 then
                        let? (ps, r) := parse_pairs fuel' (skip_ws s5) in
                        Some ((k, v) :: ps, r)
                      else None
                  end
                else None
            end
          else None
      end
  end.

(** [dict(pairs)]: a repeated key keeps its first place and its last
    value. *)
Definition dict_of_pairs {V} (ps : list (str * V)) : dict V :=
  dict_update [] ps.

Definition parse_item (fuel : nat) (s : str) : option (jitem * str) :=
  match s with
  | [] => None
  | c :: s1 =>
      if code c =? 123 then
        match skip_ws s1 with
        | [] => None
        | d :: s2 =>
            if code d =? 125 then Some (JRecord [], s2)
            else
              let? (ps, r) := parse_pairs fuel (d :: s2) in
              Some (JRecord (dict_of_pairs ps), r)
        end
      else
        let? (v, r) := parse_scalar s in Some (JScalar v, r)
  end.

(** The items of an array, read at the first item, up to and including the
    closing bracket. *)
Fixpoint parse_items (fuel : nat) (s : str) : option (list jitem * str) :=
  match fuel with
  | O => None
  | S fuel' =>
      let? (i, s1) := parse_item fuel' s in
      match skip_ws s1 with
      | [] => None
      | e :: s2 =>
          if code e =? 93 then Some ([i], s2)
          else if code e =? 44 then
            let? (more, r) := parse_items fuel' (skip_ws s2) in
            Some (i :: more, r)
          else None
      end
  end.

(** [json.loads] of a document that is an array; nothing but whitespace
    may follow it. Every step of the reader consumes a character, so the
    length of the text is fuel enough. *)
Definition json_loads (s : str) : option (list jitem) :=
  match skip_ws s with
  | [] => None
  | c :: s1 =>
      if code c =? 91 then
        match skip_ws s1 with
        | [] => None
        | d :: s2 =>
            let? (l, r) :=
              (if code d =? 93 then Some ([], s2)
               else parse_items (S (List.length s)) (d :: s2)) in
            match skip_ws r with
            | [] => Some l
            | _ :: _ => None
            end
        end
      else None
  end.

(** *** [dataclasses.asdict] and the constructor called by keyword

    The fields of a record are read back by name. A key that names no
    field, or a required field that is absent, is Python's [TypeError]; the
    model also refuses a value that is not of the field's declared type. *)

Definition known_keys (fields : list string) (r : dict pyval) : bool :=
  forallb (fun k => existsb (fun f => str_eqb k (lit f)) fields) (dict_keys r).

Definition field_str (r : dict pyval) (k : string) (dflt : option str)
  : option str :=
  match dict_get r (lit k) with
  | Some (PStr s) => Some s
  | Some _ => None
  | None => dflt
  end.

Definition field_bool (r : dict pyval) (k : string) (dflt : option bool)
  : option bool :=
  match dict_get r (lit k) with
  | Some (PBool b) => Some b
  | Some _ => None
  | None => dflt
  end.

Definition field_any (r : dict pyval) (k : string) (dflt : pyval) : pyval :=
  match dict_get r (lit k) with
  | Some v => v
  | None => dflt
  end.

Definition asdict_variable (v : TerraformVariable) : dict pyval :=
  [ (lit "name", PStr (var_name v));
    (lit "type", PStr (var_type v));
    (lit "description", PStr (var_description v));
    (lit "default", var_default v);
    (lit "required", PBool (var_required v));
    (lit "sensitive", PBool (var_sensitive v)) ].

Definition variable_of_dict (r : dict pyval) : option TerraformVariable :=
  if known_keys ["name"; "type"; "description"; "default"; "required";
                 "sensitive"] r
  then
    let? name := field_str r "name" None in
    let? type := field_str r "type" None in
    let? description := field_str r "description" (Some []) in
    let? required := field_bool r "required" (Some true) in
    let? sensitive := field_bool r "sensitive" (Some false) in
    Some (mkVariable name type description (field_any r "default" PNone)
            required sensitive)
  else None.

Definition asdict_output (o : TerraformOutput) : dict pyval :=
  [ (lit "name", PStr (out_name o));
    (lit "description", PStr (out_description o));
    (lit "value_expression", PStr (out_value_expression o));
    (lit "sensitive", PBool (out_sensitive o)) ].

Definition output_of_dict (r : dict pyval) : option TerraformOutput :=
  if known_keys ["name"; "description"; "value_expression"; "sensitive"] r
  then
    let? name := field_str r "name" None in
    let? description := field_str r "description" (Some []) in
    let? value_expression := field_str r "value_expression" (Some []) in
    let? sensitive := field_bool r "sensitive" (Some false) in
    Some (mkOutput name description value_expression sensitive)
  else None.

Definition asdict_example (e : TerraformExample) : dict pyval :=
  [ (lit "title", PStr (ex_title e));
    (lit "description", PStr (ex_description e));
    (lit "hcl_code", PStr (ex_hcl_code e)) ].

Definition example_of_dict (r : dict pyval) : option TerraformExample :=
  if known_keys ["title"; "description"; "hcl_code"] r
  then
    let? title := field_str r "title" None in
    let? description := field_str r "description" (Some []) in
    let? hcl_code := field_str r "hcl_code" (Some []) in
    Some (mkExample title description hcl_code)
  else None.

(** [[f(x) for x in l]] where [f] may raise. *)
Fixpoint traverse {A B} (f : A -> option B) (l : list A) : option (list B) :=
  match l with
  | [] => Some []
  | x :: l' =>
      let? y := f x in
      let? ys := traverse f l' in
      Some (y :: ys)
  end.

Definition record_of_item (i : jitem) : option (dict pyval) :=
  match i with JRecord r => Some r | JScalar _ => None end.

Definition string_of_item (i : jitem) : option str :=
  match i with JScalar (PStr s) => Some s | _ => None end.

(** ** The store

    One row of the table [modules]; the four collection columns hold JSON
    text. The table is the list of its rows in insertion order. *)
Record Row : Type := mkRow {
  row_id : str;
  row_name : str;
  row_provider : str;
  row_resource_type : str;
  row_version : str;
  row_description : str;
  row_hcl_template : str;
  row_variables : str;
  row_outputs : str;
  row_examples : str;
  row_tags : str;
  row_created_at : str;
  row_download_count : Z
}.

Definition DB := list Row.

Inductive error : Type :=
| KeyError (ref : str)
    (* "Module not found: '<ref>'" *)
| ValueError_UnknownProvider (provider : str)
| ValueError_InvalidTemplate (vr : ValidationResult)
| ValueError_MissingVariables (missing : list str)
    (* "Missing required variables: [...]", the list being [missing] *)
| IntegrityError
    (* the UNIQUE index on [name] *)
| RowError.
    (* a stored column that does not read back *)

Inductive result (A : Type) : Type :=
| Ok (a : A)
| Raise (e : error).
Arguments Ok {A} a.
Arguments Raise {A} e.

(** [x or "[]"] on a text column *)
Definition or_empty_array (x : str) : str :=
  match x with [] => lit "[]" | _ :: _ => x end.

(** The inner [load(key, cls)] of [_row_to_module]. *)
Definition load {A} (column : str) (cls : dict pyval -> option A)
  : option (list A) :=
  let? raw := json_loads (or_empty_array column) in
  traverse (fun i => let? r := record_of_item i in cls r) raw.

Definition _row_to_module (row : Row) : result TerraformModule :=
  match load (row_variables row) variable_of_dict,
        load (row_outputs row) output_of_dict,
        load (row_examples row) example_of_dict,
        (let? raw := json_loads (or_empty_array (row_tags row)) in
         traverse string_of_item raw) with
  | Some variables, Some outputs, Some examples, Some tags =>
      Ok (mkModule (row_id row) (row_name row) (row_provider row)
            (row_resource_type row) (row_version row) (row_description row)
            (row_hcl_template row) variables outputs examples tags
            (row_created_at row) (row_download_count row))
  | _, _, _, _ => Raise RowError
  end.

(** The thirteen values [_save] binds to its statement. *)
Definition row_of_module (m : TerraformModule) : Row :=
  mkRow (mod_id m) (mod_name m) (mod_provider m) (mod_resource_type m)
    (mod_version m) (mod_description m) (mod_hcl_template m)
    (json_dumps (map (fun v => JRecord (asdict_variable v)) (mod_variables m)))
    (json_dumps (map (fun o => JRecord (asdict_output o)) (mod_outputs m)))
    (json_dumps (map (fun e => JRecord (asdict_example e)) (mod_examples m)))
    (json_dumps (map (fun t => JScalar (PStr t)) (mod_tags m)))
    (mod_created_at m) (mod_download_count m).

(** [ON CONFLICT(id) DO UPDATE SET ...]: every column but [id] and
    [created_at] is taken from the new row. *)
Definition upsert_row (old new : Row) : Row :=
  mkRow (row_id old) (row_name new) (row_provider new)
    (row_resource_type new) (row_version new) (row_description new)
    (row_hcl_template new) (row_variables new) (row_outputs new)
    (row_examples new) (row_tags new) (row_created_at old)
    (row_download_count new).

(** [_save]: insert, or update the row of the same [id]; a [name] held by
    a row of another [id] violates the UNIQUE index and leaves the table
    as it was. *)
Definition _save (db : DB) (m : TerraformModule) : result DB :=
  let new := row_of_module m in
  if existsb (fun r => str_eqb (row_name r) (row_name new)
                       && negb (str_eqb (row_id r) (row_id new))) db
  then Raise IntegrityError
  else if existsb (fun r => str_eqb (row_id r) (row_id new)) db
  then Ok (map (fun r => if str_eqb (row_id r) (row_id new)
                         then upsert_row r new else r) db)
  else Ok (db ++ [new]).

(** [SELECT * FROM modules WHERE id = ? OR name = ?] followed by
    [fetchone]: the first matching row, the rows being visited in
    insertion order. *)
Definition select_module (db : DB) (ref : str) : option Row :=
  find (fun r => str_eqb (row_id r) ref || str_eqb (row_name r) ref) db.

Definition get_module (db : DB) (module_id_or_name : str)
  : result TerraformModule :=
  match select_module db module_id_or_name with
  | None => Raise (KeyError module_id_or_name)
  | Some row => _row_to_module row
  end.

(** [delete_module]: the answer and the table afterwards. An error of
    [get_module] other than [KeyError] is not caught. *)
Definition delete_module (db : DB) (module_id_or_name : str)
  : result bool * DB :=
  match get_module db module_id_or_name with
  | Raise (KeyError _) => (Ok false, db)
  | Raise e => (Raise e, db)
  | Ok m =>
      (Ok true, filter (fun r => negb (str_eqb (row_id r) (mod_id m))) db)
  end.

(** ** The regular expressions

    Each pattern of the source is a sequence of pieces none of which can
    give back what it has taken (a greedy class is always followed by a
    character outside the class), so matching at a position is the
    left-to-right scan written here. *)

Fixpoint span (p : ascii -> bool) (s : str) : str * str :=
  match s with
  | [] => ([], [])
  | c :: s' =>
      if p c then let '(a, r) := span p s' in (c :: a, r) else ([], s)
  end.

Definition is_char (n : nat) (c : ascii) : bool := code c =? n.

(** A quoted label ["..."] whose characters satisfy [p], at least one of
    them: the label and what follows the closing quote. *)
Definition quoted (p : ascii -> bool) (s : str) : option (str * str) :=
  match s with
  | [] => None
  | q :: s1 =>
      if is_char 34 q then
        match span p s1 with
        | ((_ :: _) as label, q' :: r) =>
            if is_char 34 q' then Some (label, r) else None
        | _ => None
        end
      else None
  end.

(** [\s+]: at least one whitespace character. *)
Definition spaces1 (s : str) : option str :=
  match s with
  | [] => None
  | c :: _ => if is_space c then Some (lstrip s) else None
  end.

Definition is_word_or_dash (c : ascii) : bool := is_word c || is_char 45 c.

(** [(resource|data|module|locals|provider|terraform)\s+"[\w-]+"\s*] at the
    start of [s]; the word boundary is checked by the caller. *)
Definition block_at (s : str) : bool :=
  existsb
    (fun kw =>
       startswith s (lit kw)
       && match spaces1 (skipn (String.length kw) s) with
          | Some r =>
              match quoted is_word_or_dash r with
              | Some _ => true
              | None => false
              end
          | None => false
          end)
    ["resource"; "data"; "module"; "locals"; "provider"; "terraform"].

(** [block_pattern.search]; [prev_word] tells whether the character before
    [s] is a word character, in which case there is no [\b] here. *)
Fixpoint block_search (prev_word : bool) (s : str) : bool :=
  (negb prev_word && block_at s)
  || match s with
     | [] => false
     | c :: s' => block_search (is_word c) s'
     end.

(** [\$\{(?!var\.|local\.|module\.|data\.|each\.|path\.|terraform\.)[^}]+\}]
    at the start of [s]: the matched text and what follows it. *)
Definition bad_ref_at (s : str) : option (str * str) :=
  if startswith s (lit "${") then
    let r := skipn 2 s in
    if existsb (fun ns => startswith r (lit ns))
         ["var."; "local."; "module."; "data."; "each."; "path.";
          "terraform."]
    then None
    else
      match span (fun c => negb (is_char 125 c)) r with
      | ((_ :: _) as body, c :: r') =>
          Some (lit "${" ++ body ++ [c], r')
      | _ => None
      end
  else None.

(** [re.findall] and [finditer]: matches from the left, the scan resuming
    where a match ended. [skip] counts the characters of the last match
    still to pass. *)
Fixpoint scan_matches {A} (at_ : str -> option (A * str)) (skip : nat)
  (s : str) : list A :=
  match s with
  | [] => []
  | _ :: s' =>
      match skip with
      | S k => scan_matches at_ k s'
      | O =>
          match at_ s with
          | Some (m, rest) =>
              m :: scan_matches at_ (List.length s - List.length rest - 1) s'
          | None => scan_matches at_ 0 s'
          end
      end
  end.

(** The pattern [resource_re] of [export_plan] at the start of [s]: the
    word resource, whitespace, a quoted label of word characters,
    whitespace, a quoted label of word characters and dashes, optional
    whitespace, an opening brace, and the characters up to the next
    closing brace. The result is the three groups and what follows the
    match. *)
Definition resource_at (s : str) : option ((str * str * str) * str) :=
  if startswith s (lit "resource") then
    let? s1 := spaces1 (skipn 8 s) in
    let? (rtype, s2) := quoted is_word s1 in
    let? s3 := spaces1 s2 in
    let? (rname, s4) := quoted is_word_or_dash s3 in
    match lstrip s4 with
    | [] => None
    | c :: s5 =>
        if is_char 123 c then
          match span (fun c => negb (is_char 125 c)) s5 with
          | (rbody, _ :: rest) => Some ((rtype, rname, rbody), rest)
          | (_, []) => None
          end
        else None
    end
  else None.

(** [list(resource_re.finditer(rendered))] *)
Definition resource_matches (rendered : str) : list (str * str * str) :=
  scan_matches resource_at 0 rendered.

(** ** [TerraformRegistry] *)

Definition PROVIDERS : list str :=
  map lit ["aws"; "gcp"; "azure"; "kubernetes"; "helm"; "null"].

Definition missing_labels_error (rl : str) : str :=
  lit "resource block missing labels: '" ++ rl ++ lit "'".

(** The stripped lines that start with [resource]. *)
Definition resource_lines (hcl_string : str) : list str :=
  map strip
    (filter (fun l => startswith (strip l) (lit "resource"))
       (splitlines hcl_string)).

Definition validate_hcl (hcl_string : str) : ValidationResult :=
  let errors : list str := [] in
  let warnings : list str := [] in
  let errors :=
    if count hcl_string (lit "{") =? count hcl_string (lit "}") then errors
    else errors ++ [lit "Unbalanced curly braces { }"] in
  let errors :=
    if count hcl_string (lit "[") =? count hcl_string (lit "]") then errors
    else errors ++ [lit "Unbalanced square brackets [ ]"] in
  let errors :=
    if count hcl_string (lit "(") =? count hcl_string (lit ")") then errors
    else errors ++ [lit "Unbalanced parentheses ( )"] in
  let warnings :=
    if block_search false hcl_string then warnings
    else warnings ++
         [lit "No resource/data/module block found — is this intentional?"] in
  let errors :=
    errors ++
    flat_map
      (fun rl =>
         if List.length (split rl) <? 3
         then [missing_labels_error rl] else [])
      (resource_lines hcl_string) in
  let warnings :=
    warnings ++
    map (fun br =>
           lit "Suspicious interpolation (not var/local/module/data): " ++ br)
      (scan_matches bad_ref_at 0 hcl_string) in
  let warnings :=
    if contains_b hcl_string (lit "$${")
    then warnings ++
         [lit "Found $${} — use $${ only for literal dollar sign escape"]
    else warnings in
  let errors :=
    match strip hcl_string with
    | [] => errors ++ [lit "HCL string is empty"]
    | _ :: _ => errors
    end in
  mkValidation (List.length errors =? 0) errors warnings.

(** [register_module]. [new_id] is the string [uuid.uuid4()] gives and
    [now] the time stamp the dataclass takes for [created_at]; absent
    [examples] and [tags] are the empty list. The result comes with the
    table as the call leaves it. *)
Definition register_module (db : DB) (new_id now : str)
  (name provider resource_type hcl_template : str)
  (variables : list TerraformVariable) (outputs : list TerraformOutput)
  (description : str) (examples : list TerraformExample) (tags : list str)
  (version : str) : result TerraformModule * DB :=
  if negb (existsb (str_eqb provider) PROVIDERS)
  then (Raise (ValueError_UnknownProvider provider), db)
  else
    let vr := validate_hcl hcl_template in
    if negb (valid vr) then (Raise (ValueError_InvalidTemplate vr), db)
    else
      let m := mkModule new_id name provider resource_type version
                 description hcl_template variables outputs examples tags
                 now 0%Z in
      match _save db m with
      | Ok db' => (Ok m, db')
      | Raise e => (Raise e, db)
      end.

(** The names [generate_tf] reports as missing. *)
Definition missing_variables (m : TerraformModule) (vars : dict pyval)
  : list str :=
  map var_name
    (filter (fun v => var_required v && is_None (var_default v)
                      && negb (dict_mem vars (var_name v)))
       (mod_variables m)).

(** The defaults, in the order of the variables. *)
Definition defaults_of (variables : list TerraformVariable) : dict pyval :=
  fold_left
    (fun merged v =>
       if is_None (var_default v) then merged
       else dict_set merged (var_name v) (var_default v))
    variables [].

Definition merge_vars (m : TerraformModule) (vars : dict pyval) : dict pyval :=
  dict_update (defaults_of (mod_variables m)) vars.

(** [f"${{var.{k}}}"] *)
Definition placeholder (k : str) : str := lit "${var." ++ k ++ lit "}".

(** The loop over [merged.items()]. *)
Definition substitute (template : str) (merged : dict pyval) : str :=
  fold_left
    (fun result kv => replace result (placeholder (fst kv)) (py_str (snd kv)))
    merged template.

(** The row with its counter one higher when its [id] is the given one. *)
Definition count_up (id : str) (r : Row) : Row :=
  if str_eqb (row_id r) id
  then mkRow (row_id r) (row_name r) (row_provider r)
         (row_resource_type r) (row_version r) (row_description r)
         (row_hcl_template r) (row_variables r) (row_outputs r)
         (row_examples r) (row_tags r) (row_created_at r)
         (row_download_count r + 1)%Z
  else r.

(** [UPDATE modules SET download_count = download_count + 1 WHERE id = ?] *)
Definition increment_download_count (db : DB) (id : str) : DB :=
  map (count_up id) db.

Definition generate_tf (db : DB) (module_id_or_name : str) (vars : dict pyval)
  : result str * DB :=
  match get_module db module_id_or_name with
  | Raise e => (Raise e, db)
  | Ok m =>
      match missing_variables m vars with
      | (_ :: _) as missing => (Raise (ValueError_MissingVariables missing), db)
      | [] =>
          let merged := merge_vars m vars in
          let result := substitute (mod_hcl_template m) merged in
          (Ok result, increment_download_count db (mod_id m))
      end
  end.

(** The lines [export_plan] emits for one matched block. *)
Definition plan_block (m : str * str * str) : list str :=
  let '(rtype, rname, rbody) := m in
  [lit "  + resource " ++ [dquote] ++ rtype ++ [dquote] ++ lit " "
     ++ [dquote] ++ rname ++ [dquote] ++ lit " {"]
  ++ map (fun attr_line => lit "      " ++ strip attr_line)
       (splitlines (strip rbody))
  ++ [lit "  }"; []].

Definition plan_summary (n : nat) : str :=
  lit "Plan: " ++ str_of_nat n ++ lit " to add, 0 to change, 0 to destroy.".

Definition no_blocks_notice : str :=
  lit "# (no resource blocks detected in rendered template)".

Definition rendered_label : str :=
  lit "# ── Rendered HCL ───────────────────────────────────────".

(** The last four lines of a plan: the rendered text under its label. *)
Definition plan_tail (rendered : str) : list str :=
  [[]; rendered_label; []; rendered].

(** [export_plan]; [ts] is the formatted current time. *)
Definition plan_lines (m : TerraformModule) (ts rendered : str) : list str :=
  let lines :=
    [ lit "# Terraform Plan Export";
      lit "# Module  : " ++ mod_name m ++ lit " v" ++ mod_version m;
      lit "# Provider : " ++ mod_provider m;
      lit "# Generated: " ++ ts;
      lit "#";
      lit "# This plan shows what Terraform would create/modify.";
      lit "# Review carefully before applying.";
      [];
      lit "# ── Resource: " ++ mod_resource_type m
        ++ lit " ──────────────────────────────";
      [] ] in
  let matches := resource_matches rendered in
  let lines :=
    match matches with
    | _ :: _ =>
        lines ++ [lit "Changes to be applied:"; []]
        ++ flat_map plan_block matches
        ++ [plan_summary (List.length matches)]
    | [] => lines ++ [no_blocks_notice; []; rendered]
    end in
  lines ++ plan_tail rendered.

Definition export_plan (db : DB) (ts : str) (module_id_or_name : str)
  (vars : dict pyval) : result str * DB :=
  match get_module db module_id_or_name with
  | Raise e => (Raise e, db)
  | Ok m =>
      match generate_tf db module_id_or_name vars with
      | (Raise e, db') => (Raise e, db')
      | (Ok rendered, db') =>
          (Ok (join newline (plan_lines m ts rendered)), db')
      end
  end.

(** ** What the claims speak of *)

(** [sub] occurs in [s]. *)
Definition occurs (sub s : str) : Prop := exists a b, s = a ++ sub ++ b.

(** Replacing every occurrence of [old], from the left and without
    overlap, as a relation between the text before and after: either [old]
    does not occur, or its first occurrence is replaced and the rest of the
    text is treated the same way. *)
Inductive replaced_all (old new : str) : str -> str -> Prop :=
| replaced_none s :
    ~ occurs old s -> replaced_all old new s s
| replaced_first a b b' :
    ~ occurs old (a ++ removelast old) ->
    replaced_all old new b b' ->
    replaced_all old new (a ++ old ++ b) (a ++ new ++ b').

(** Rendering a table of values: for every entry in turn, every
    occurrence of its placeholder is replaced by the string form of its
    value. *)
Inductive rendered : dict pyval -> str -> str -> Prop :=
| rendered_nil t : rendered [] t t
| rendered_cons k v table t t1 t2 :
    replaced_all (placeholder k) (py_str v) t t1 ->
    rendered table t1 t2 ->
    rendered ((k, v) :: table) t t2.

(** The default declared for [k], if any: the one of the last variable of
    that name that has one. *)
Definition has_default_for (k : str) (v : TerraformVariable) : bool :=
  str_eqb (var_name v) k && negb (is_None (var_default v)).

Definition default_for (variables : list TerraformVariable) (k : str)
  : option pyval :=
  option_map var_default (find (has_default_for k) (rev variables)).

(** A variable is missing when it is required, has no default and is not
    supplied. *)
Definition is_missing (vars : dict pyval) (v : TerraformVariable) : Prop :=
  var_required v = true /\ var_default v = PNone
  /\ dict_get vars (var_name v) = None.

(** Within one module, variable names are unique. *)
Definition unique_names (m : TerraformModule) : Prop :=
  NoDup (map var_name (mod_variables m)).

(** The mapping without the key [k]. *)
Definition dict_del {V} (d : dict V) (k : str) : dict V :=
  filter (fun kv => negb (str_eqb (fst kv) k)) d.

(** A name that contains neither a dollar sign nor a closing brace. *)
Definition plain_name (k : str) : Prop :=
  ~ In "$"%char k /\ ~ In "}"%char k.

(** The module with its download counter one higher. *)
Definition downloaded (m : TerraformModule) : TerraformModule :=
  mkModule (mod_id m) (mod_name m) (mod_provider m) (mod_resource_type m)
    (mod_version m) (mod_description m) (mod_hcl_template m)
    (mod_variables m) (mod_outputs m) (mod_examples m) (mod_tags m)
    (mod_created_at m) (mod_download_count m + 1)%Z.

(** A row matches a reference by its identity or by its name. *)
Definition matches_ref (ref : str) (r : Row) : Prop :=
  row_id r = ref \/ row_name r = ref.

(** The first whitespace-separated token of a line. *)
Definition first_token (l : str) : option str := hd_error (split l).

(** The errors the validator reports about labels. *)
Definition label_errors (text : str) : list str :=
  flat_map
    (fun rl =>
       if List.length (split rl) <? 3 then [missing_labels_error rl] else [])
    (resource_lines text).

(** The three balance checks of the validator pass. *)
Definition balanced (text : str) : Prop :=
  count text (lit "{") = count text (lit "}")
  /\ count text (lit "[") = count text (lit "]")
  /\ count text (lit "(") = count text (lit ")").

(** The digits of a decimal number, most significant first. *)
Definition digits_of_uint (d : Decimal.uint) : str :=
  lit (NilEmpty.string_of_uint d).

(** What may follow an integer in a JSON text for it to be read as that
    integer: neither a digit nor the start of a fraction or exponent. *)
Definition ends_number (rest : str) : bool :=
  match rest with
  | [] => true
  | c :: _ => negb (is_digit c) && negb (starts_fraction rest)
  end.

(** The number of members of an item, and the condition under which an
    item is read back as it was written: the keys of a record are
    distinct. *)
Definition item_size (i : jitem) : nat :=
  match i with
  | JScalar _ => 0
  | JRecord r => List.length r
  end.

Definition item_wf (i : jitem) : Prop :=
  match i with
  | JScalar _ => True
  | JRecord r => dict_wf r
  end.

(** ** Sample data, after the fixtures of the test suite *)

Definition SIMPLE_HCL : str :=
  lit "resource " ++ quote_ (lit "aws_instance") ++ lit " "
  ++ quote_ (lit "${var.name}") ++ lit " {" ++ newline
  ++ lit "  ami           = " ++ quote_ (lit "${var.ami_id}") ++ newline
  ++ lit "  instance_type = " ++ quote_ (lit "${var.instance_type}") ++ newline
  ++ lit "}".

Definition sample_vars : list TerraformVariable :=
  [ mkVariable (lit "name") (lit "string") (lit "Instance name") PNone true false;
    mkVariable (lit "ami_id") (lit "string") (lit "AMI ID") PNone true false;
    mkVariable (lit "instance_type") (lit "string") (lit "Type")
      (PStr (lit "t3.micro")) false false ].

Definition sample_outputs : list TerraformOutput :=
  [ mkOutput (lit "instance_id") (lit "EC2 Instance ID")
      (lit "aws_instance.main.id") false ].

(** A registry holding the one module [gen_test]. *)
Definition sample_db : DB :=
  snd (register_module [] (lit "0b4c1e9a-0000-4000-8000-000000000001")
         (lit "2024-01-01T00:00:00+00:00") (lit "gen_test") (lit "aws")
         (lit "aws_instance") SIMPLE_HCL sample_vars sample_outputs []
         [] [] (lit "1.0.0")).

Definition sample_values : dict pyval :=
  [ (lit "name", PStr (lit "my-server")); (lit "ami_id", PStr (lit "ami-123")) ].

Definition sample_module : TerraformModule :=
  mkModule (lit "0b4c1e9a-0000-4000-8000-000000000001") (lit "gen_test")
    (lit "aws") (lit "aws_instance") (lit "1.0.0") [] SIMPLE_HCL sample_vars
    sample_outputs [] [] (lit "2024-01-01T00:00:00+00:00") 0%Z.

Definition tagged_values : dict pyval :=
  sample_values ++ [(lit "owner", PStr (lit "ops"))].

(** A module with an optional variable that has no default. *)
Definition OPTIONAL_HCL : str :=
  lit "resource " ++ quote_ (lit "null_resource") ++ lit " "
  ++ quote_ (lit "${var.name}") ++ lit " { tag = "
  ++ quote_ (lit "${var.suffix}") ++ lit " }".

Definition optional_vars : list TerraformVariable :=
  [ mkVariable (lit "name") (lit "string") [] PNone true false;
    mkVariable (lit "suffix") (lit "string") [] PNone false false ].

Definition optional_module : TerraformModule :=
  mkModule (lit "0b4c1e9a-0000-4000-8000-000000000002") (lit "opt_test")
    (lit "null") (lit "null_resource") (lit "1.0.0") [] OPTIONAL_HCL
    optional_vars [] [] [] (lit "2024-01-01T00:00:00+00:00") 0%Z.

Definition optional_db : DB :=
  snd (register_module [] (lit "0b4c1e9a-0000-4000-8000-000000000002")
         (lit "2024-01-01T00:00:00+00:00") (lit "opt_test") (lit "null")
         (lit "null_resource") OPTIONAL_HCL optional_vars [] [] [] []
         (lit "1.0.0")).

(** A module one of whose variable names contains a closing brace, so
    that the placeholder of [a] is the beginning of its placeholder. *)
Definition BRACE_HCL : str := lit "locals { x = ${var.a}b} ".

Definition brace_vars : list TerraformVariable :=
  [ mkVariable (lit "a") (lit "string") [] PNone true false;
    mkVariable (lit "a}b") (lit "string") [] PNone false false ].

Definition brace_module : TerraformModule :=
  mkModule (lit "0b4c1e9a-0000-4000-8000-000000000003") (lit "brace_test")
    (lit "null") (lit "locals") (lit "1.0.0") [] BRACE_HCL
    brace_vars [] [] [] (lit "2024-01-01T00:00:00+00:00") 0%Z.

Definition brace_db : DB :=
  snd (register_module [] (lit "0b4c1e9a-0000-4000-8000-000000000003")
         (lit "2024-01-01T00:00:00+00:00") (lit "brace_test") (lit "null")
         (lit "locals") BRACE_HCL brace_vars [] [] [] [] (lit "1.0.0")).

(** A template with a complete block and a second block header that lacks
    its name label. *)
Definition ORPHAN_HCL : str :=
  lit "resource " ++ quote_ (lit "null_resource") ++ lit " "
  ++ quote_ (lit "x") ++ lit " {}" ++ newline
  ++ lit "resource " ++ quote_ (lit "orphan").

Definition NULL_HCL : str :=
  lit "resource " ++ quote_ (lit "null_resource") ++ lit " "
  ++ quote_ (lit "x") ++ lit " {}".

(** A template with an attribute whose name starts with [resource]. *)
Definition ATTRIBUTE_HCL : str :=
  lit "resource " ++ quote_ (lit "azurerm_storage_account") ++ lit " "
  ++ quote_ (lit "sa") ++ lit " {" ++ newline
  ++ lit "  resource_group_name=" ++ quote_ (lit "rg") ++ newline
  ++ lit "}".

(** A registry in which the name of the second module is the identity of
    the first. *)
Definition first_id : str := lit "0b4c1e9a-0000-4000-8000-00000000000a".

Definition second_id : str := lit "0b4c1e9a-0000-4000-8000-00000000000b".

Definition shadow_db : DB :=
  let db1 :=
    snd (register_module [] first_id (lit "2024-01-01T00:00:00+00:00")
           (lit "first") (lit "null") (lit "null_resource") NULL_HCL [] []
           [] [] [] (lit "1.0.0")) in
  snd (register_module db1 second_id (lit "2024-01-02T00:00:00+00:00")
         first_id (lit "null") (lit "null_resource") NULL_HCL [] []
         [] [] [] (lit "1.0.0")).

Definition first_module : TerraformModule :=
  mkModule first_id (lit "first") (lit "null") (lit "null_resource")
    (lit "1.0.0") [] NULL_HCL [] [] [] []
    (lit "2024-01-01T00:00:00+00:00") 0%Z.

Definition second_module : TerraformModule :=
  mkModule second_id first_id (lit "null") (lit "null_resource")
    (lit "1.0.0") [] NULL_HCL [] [] [] []
    (lit "2024-01-02T00:00:00+00:00") 0%Z.

Definition version_123 : TerraformModule :=
  mkModule (lit "id") (lit "test") (lit "aws") (lit "res") (lit "1.2.3")
    [] [] [] [] [] [] [] 0%Z.

From Stdlib Require Import Permutation Sorted.

(** ** More of the registry *)

(** What the storage layer guarantees of the table: the primary key [id]
    and the unique index on [name] hold, and every row is one that
    [_save] wrote. *)
Definition store_ok (db : DB) : Prop :=
  NoDup (map row_id db) /\ NoDup (map row_name db)
  /\ Forall (fun r => exists m, r = row_of_module m) db.

(** The table after [n] calls of [generate_tf] with the same arguments. *)
Fixpoint renders (n : nat) (db : DB) (ref : str) (vars : dict pyval) : DB :=
  match n with
  | O => db
  | S n' => renders n' (snd (generate_tf db ref vars)) ref vars
  end.

(** The module with its download counter [n] higher. *)
Definition downloaded_n (n : nat) (m : TerraformModule) : TerraformModule :=
  mkModule (mod_id m) (mod_name m) (mod_provider m) (mod_resource_type m)
    (mod_version m) (mod_description m) (mod_hcl_template m)
    (mod_variables m) (mod_outputs m) (mod_examples m) (mod_tags m)
    (mod_created_at m) (mod_download_count m + Z.of_nat n)%Z.

(** A text of whitespace only. *)
Definition blank (text : str) : Prop :=
  Forall (fun c => is_space c = true) text.

(** The name spaces [validate_hcl] accepts at the start of an
    interpolation. *)
Definition known_namespaces : list string :=
  ["var."; "local."; "module."; "data."; "each."; "path."; "terraform."].

(** A run of whitespace that is not empty. *)
Definition blank1 (ws : str) : Prop := ws <> [] /\ blank ws.

(** ** The queries that read many rows

    SQLite compares texts byte by byte in their UTF-8 encoding, which
    orders them as their code points do. A statement that sorts leaves
    the order of rows with equal keys open; the model keeps such rows in
    table order, which is what SQLite's sorter does, and no property
    below depends on it. *)

(** [a <= b] in the BINARY collation. *)
Fixpoint str_leb (a b : str) : bool :=
  match a, b with
  | [], _ => true
  | _ :: _, [] => false
  | x :: a', y :: b' =>
      if code x <? code y then true
      else if code y <? code x then false
      else str_leb a' b'
  end.

Fixpoint insert_by {A} (before : A -> A -> bool) (x : A) (l : list A)
  : list A :=
  match l with
  | [] => [x]
  | y :: l' => if before x y then x :: l else y :: insert_by before x l'
  end.

(** [ORDER BY]: a stable sort. *)
Definition sort_by {A} (before : A -> A -> bool) (l : list A) : list A :=
  fold_right (insert_by before) [] l.

(** [ORDER BY download_count DESC, name ASC] *)
Definition listed_before (r1 r2 : Row) : bool :=
  (row_download_count r2 <? row_download_count r1)%Z
  || ((row_download_count r1 =? row_download_count r2)%Z
      && str_leb (row_name r1) (row_name r2)).

(** [ORDER BY download_count DESC] *)
Definition by_downloads (r1 r2 : Row) : bool :=
  (row_download_count r2 <=? row_download_count r1)%Z.

(** [if provider_filter: query += " AND provider = ?"]: a filter that is
    [None] or the empty string selects every row. *)
Definition passes (filter_ : option str) (column : str) : bool :=
  match filter_ with
  | Some ((_ :: _) as wanted) => str_eqb column wanted
  | _ => true
  end.

(** [[self._row_to_module(r) for r in rows]] *)
Fixpoint rows_to_modules (rows : list Row) : result (list TerraformModule) :=
  match rows with
  | [] => Ok []
  | r :: rows' =>
      match _row_to_module r with
      | Raise e => Raise e
      | Ok m =>
          match rows_to_modules rows' with
          | Raise e => Raise e
          | Ok ms => Ok (m :: ms)
          end
      end
  end.

Definition list_modules (db : DB)
  (provider_filter resource_type_filter : option str)
  : result (list TerraformModule) :=
  let rows :=
    filter (fun r => passes provider_filter (row_provider r)
                     && passes resource_type_filter (row_resource_type r))
      db in
  rows_to_modules (sort_by listed_before rows).

(** *** [search] *)

(** [str.lower] on one code point below 256: the letters A to Z and the
    accented capitals from 192 to 222, the multiplication sign apart. *)
Definition py_lower_char (c : ascii) : ascii :=
  let n := code c in
  if ((65 <=? n) && (n <=? 90))
     || ((192 <=? n) && (n <=? 222) && negb (n =? 215))
  then ascii_of_nat (n + 32) else c.

Definition py_lower (s : str) : str := map py_lower_char s.

(** SQLite's [lower()] and the case folding of its LIKE: the letters A to
    Z only. *)
Definition sql_lower_char (c : ascii) : ascii :=
  let n := code c in
  if (65 <=? n) && (n <=? 90) then ascii_of_nat (n + 32) else c.

Definition sql_lower (s : str) : str := map sql_lower_char s.

(** LIKE reads its two operands as C strings: up to the first NUL. *)
Fixpoint c_str (s : str) : str :=
  match s with
  | [] => []
  | c :: s' => if is_char 0 c then [] else c :: c_str s'
  end.

(** The matcher of LIKE: the percent sign stands for any run of
    characters, the underscore for any one character, and any other
    character for itself, case folded. *)
Fixpoint like_from (p : str) : str -> bool :=
  match p with
  | [] => fun s => match s with [] => true | _ :: _ => false end
  | c :: p' =>
      if is_char 37 c then
        fix star (s : str) : bool :=
          like_from p' s
          || match s with [] => false | _ :: s' => star s' end
      else if is_char 95 c then
        fun s => match s with [] => false | _ :: s' => like_from p' s' end
      else
        fun s =>
          match s with
          | [] => false
          | d :: s' =>
              Ascii.eqb (sql_lower_char c) (sql_lower_char d)
              && like_from p' s'
          end
  end.

(** [text LIKE pattern] *)
Definition like (text pattern : str) : bool :=
  like_from (c_str pattern) (c_str text).

(** The length of a text in UTF-8 bytes. *)
Definition utf8_length (s : str) : nat :=
  list_sum (map (fun c => if code c <? 128 then 1 else 2) s).

(** SQLite refuses a LIKE pattern of more bytes than this. *)
Definition MAX_LIKE_PATTERN_LENGTH : nat := 50 * 1000.

(** [f"%{query.lower()}%"] *)
Definition search_pattern (query : str) : str :=
  lit "%" ++ py_lower query ++ lit "%".

(** The five columns [search] looks into. *)
Definition searched_columns (r : Row) : list str :=
  [row_name r; row_description r; row_provider r; row_resource_type r;
   row_tags r].

(** The WHERE clause of [search] on one row. *)
Definition search_hit (q : str) (r : Row) : bool :=
  existsb (fun column => like (sql_lower column) q) (searched_columns r).

Inductive search_outcome : Type :=
| Found (ms : list TerraformModule)
| PatternTooComplex
    (* sqlite3.OperationalError: LIKE or GLOB pattern too complex *)
| Unreadable (e : error).

Definition search (db : DB) (query : str) : search_outcome :=
  let q := search_pattern query in
  match db with
  | [] => Found []
  | _ :: _ =>
      if MAX_LIKE_PATTERN_LENGTH <? utf8_length q then PatternTooComplex
      else
        match rows_to_modules (sort_by by_downloads (filter (search_hit q) db))
        with
        | Ok ms => Found ms
        | Raise e => Unreadable e
        end
  end.

(** A query without the two wildcards of LIKE and without NUL. *)
Definition plain_query (query : str) : Prop :=
  Forall (fun c => is_char 37 c = false /\ is_char 95 c = false
                   /\ is_char 0 c = false) query.

(** *** [get_stats] *)

(** One entry of [most_downloaded]. *)
Record TopEntry : Type := mkTopEntry {
  top_name : str;
  top_provider : str;
  top_downloads : Z
}.

Record Stats : Type := mkStats {
  total_modules : Z;
  by_provider : dict Z;
  most_downloaded : list TopEntry
}.

(** The texts of a list, each once, in order of first appearance. *)
Fixpoint distinct (l : list str) : list str :=
  match l with
  | [] => []
  | x :: l' => x :: filter (fun y => negb (str_eqb y x)) (distinct l')
  end.

(** [COUNT] of the rows of one provider. *)
Definition provider_count (db : DB) (p : str) : Z :=
  Z.of_nat (List.length (filter (fun r => str_eqb (row_provider r) p) db)).

(** [SELECT provider, COUNT(...) AS cnt FROM modules GROUP BY provider
    ORDER BY cnt DESC]: the groups come in the order of the provider
    index and are then sorted by size. *)
Definition provider_groups (db : DB) : list (str * Z) :=
  sort_by (fun g1 g2 => (snd g2 <=? snd g1)%Z)
    (map (fun p => (p, provider_count db p))
       (sort_by str_leb (distinct (map row_provider db)))).

Definition top_entry (r : Row) : TopEntry :=
  mkTopEntry (row_name r) (row_provider r) (row_download_count r).

Definition get_stats (db : DB) : Stats :=
  let total := Z.of_nat (List.length db) in
  let by_provider := provider_groups db in
  let top := firstn 5 (sort_by by_downloads db) in
  mkStats total (dict_of_pairs by_provider) (map top_entry top).

(** *** [generate_docs]

    The marks of the tables (a dash, a check, a cross, a lock) appear as
    their UTF-8 bytes. *)

Definition backticked (s : str) : str := lit "`" ++ s ++ lit "`".

Definition docs_variable_row (v : TerraformVariable) : str :=
  let default :=
    if is_None (var_default v) then lit "—"
    else backticked (py_str (var_default v)) in
  let req := if var_required v then lit "✅" else lit "❌" in
  let sens := if var_sensitive v then lit "🔒" else lit "—" in
  lit "| " ++ backticked (var_name v) ++ lit " | "
    ++ backticked (var_type v) ++ lit " | " ++ req ++ lit " | " ++ sens
    ++ lit " | " ++ default ++ lit " | " ++ var_description v ++ lit " |".

Definition docs_output_row (o : TerraformOutput) : str :=
  let sens := if out_sensitive o then lit "🔒" else lit "—" in
  lit "| " ++ backticked (out_name o) ++ lit " | " ++ sens ++ lit " | "
    ++ out_description o ++ lit " |".

Definition docs_example (ex : TerraformExample) : list str :=
  [lit "### " ++ ex_title ex; []; ex_description ex; []; lit "```hcl";
   ex_hcl_code ex; lit "```"; []].

Definition docs_lines (m : TerraformModule) : list str :=
  let lines :=
    [ lit "# " ++ mod_name m;
      [];
      lit "> **Provider:** " ++ backticked (mod_provider m)
        ++ lit " | **Resource:** " ++ backticked (mod_resource_type m)
        ++ lit " | **Version:** " ++ backticked (mod_version m);
      [];
      mod_description m;
      [];
      lit "## Variables";
      [];
      lit "| Name | Type | Required | Sensitive | Default | Description |";
      lit "| ---- | ---- | :------: | :-------: | ------- | ----------- |" ] in
  let lines := lines ++ map docs_variable_row (mod_variables m) in
  let lines :=
    lines ++ [ []; lit "## Outputs"; [];
               lit "| Name | Sensitive | Description |";
               lit "| ---- | :-------: | ----------- |" ] in
  let lines := lines ++ map docs_output_row (mod_outputs m) in
  let lines :=
    lines ++ [ []; lit "## HCL Template"; []; lit "```hcl";
               mod_hcl_template m; lit "```"; [] ] in
  let lines :=
    match mod_examples m with
    | [] => lines
    | _ :: _ =>
        (lines ++ [lit "## Examples"; []])
        ++ flat_map docs_example (mod_examples m)
    end in
  let lines :=
    match mod_tags m with
    | [] => lines
    | _ :: _ =>
        lines ++ [ lit "## Tags"; [];
                   join (lit ", ") (map backticked (mod_tags m)); [] ]
    end in
  lines ++ [ lit "## Metadata"; [];
             lit "- **ID:** " ++ backticked (mod_id m);
             lit "- **Created:** " ++ mod_created_at m;
             lit "- **Downloads:** " ++ str_of_Z (mod_download_count m) ].

Definition generate_docs (db : DB) (module_id_or_name : str) : result str :=
  match get_module db module_id_or_name with
  | Raise e => Raise e
  | Ok m => Ok (join newline (docs_lines m))
  end.

(** ** The variables of the command line *)

(** [kv.split(sep, 1)]: at most one cut, at the first separator. *)
Definition split_once (sep : ascii) (kv : str) : list str :=
  match span (fun c => negb (Ascii.eqb c sep)) kv with
  | (k, _ :: v) => [k; v]
  | (k, []) => [k]
  end.

(** [dict(kv.split("=", 1) for kv in var)]: every element must have two
    parts; [None] stands for the [ValueError] of [dict]. The values are
    texts, whatever they spell. *)
Fixpoint cli_vars_from (acc : dict pyval) (var : list str)
  : option (dict pyval) :=
  match var with
  | [] => Some acc
  | kv :: var' =>
      match split_once "=" kv with
      | [k; v] => cli_vars_from (dict_set acc k (PStr v)) var'
      | _ => None
      end
  end.

Definition cli_vars (var : list str) : option (dict pyval) :=
  cli_vars_from [] var.

(** ** Seeding

    One entry of the table of built-in modules: the keyword arguments of
    a call of [register_module]. *)
Record ModuleData : Type := mkModuleData {
  data_name : str;
  data_provider : str;
  data_resource_type : str;
  data_version : str;
  data_description : str;
  data_hcl_template : str;
  data_variables : list TerraformVariable;
  data_outputs : list TerraformOutput;
  data_examples : list TerraformExample;
  data_tags : list str
}.

(** The loop of [_seed_builtin_modules]: every entry is registered, and
    an entry whose registration raises is passed over. [fresh n] is the
    identifier and the time drawn by the call for the entry of index [n]. *)
Fixpoint seed_from (db : DB) (fresh : nat -> str * str) (n : nat)
  (modules_data : list ModuleData) : DB :=
  match modules_data with
  | [] => db
  | d :: rest =>
      let db' :=
        snd (register_module db (fst (fresh n)) (snd (fresh n))
               (data_name d) (data_provider d) (data_resource_type d)
               (data_hcl_template d) (data_variables d) (data_outputs d)
               (data_description d) (data_examples d) (data_tags d)
               (data_version d)) in
      seed_from db' fresh (S n) rest
  end.

(** [_seed_builtin_modules], the table of built-in modules being
    [modules_data]: a store that holds a row is left alone. *)
Definition _seed_builtin_modules (db : DB) (fresh : nat -> str * str)
  (modules_data : list ModuleData) : DB :=
  match db with
  | _ :: _ => db
  | [] => seed_from db fresh 0 modules_data
  end.

(** The row was written for this entry. *)
Definition seeded_from (r : Row) (d : ModuleData) : Prop :=
  row_name r = data_name d /\ row_provider r = data_provider d
  /\ row_resource_type r = data_resource_type d
  /\ row_hcl_template r = data_hcl_template d
  /\ row_version r = data_version d.
(** * Properties *)

(** ** Strings *)

Lemma str_eqb_eq (a b : str) : str_eqb a b = true <-> a = b.
Proof.
  revert b; induction a as [|x a IH]; intros [|y b]; simpl;
    try (split; [discriminate | discriminate]); try tauto.
  rewrite andb_true_iff, Ascii.eqb_eq, IH.
  split; [intros [-> ->]; reflexivity | intros H; inversion H; auto].
Qed.

Lemma str_eqb_refl (a : str) : str_eqb a a = true.
Proof. apply str_eqb_eq; reflexivity. Qed.

Lemma str_eqb_neq (a b : str) : str_eqb a b = false <-> a <> b.
Proof.
  rewrite <- str_eqb_eq. destruct (str_eqb a b); split; congruence.
Qed.

Lemma str_eqb_sym (a b : str) : str_eqb a b = str_eqb b a.
Proof.
  destruct (str_eqb a b) eqn:E.
  - apply str_eqb_eq in E; subst; symmetry; apply str_eqb_refl.
  - symmetry; apply str_eqb_neq; apply str_eqb_neq in E; congruence.
Qed.

Lemma startswith_iff (s p : str) :
  startswith s p = true <-> exists r, s = p ++ r.
Proof.
  revert s; induction p as [|a p IH]; intros s; simpl.
  - split; [exists s; reflexivity | reflexivity].
  - destruct s as [|b s].
    + split; [discriminate | intros [r H]; discriminate].
    + rewrite andb_true_iff, Ascii.eqb_eq, IH. split.
      * intros [-> [r ->]]; exists r; reflexivity.
      * intros [r H]; inversion H; subst; split; [reflexivity | exists r; reflexivity].
Qed.

Lemma startswith_app (p r : str) : startswith (p ++ r) p = true.
Proof. apply startswith_iff; exists r; reflexivity. Qed.

Lemma startswith_false (s p : str) :
  startswith s p = false <-> forall r, s <> p ++ r.
Proof.
  split.
  - intros H r E. assert (startswith s p = true) by (apply startswith_iff; eauto).
    congruence.
  - intros H. destruct (startswith s p) eqn:E; [|reflexivity].
    apply startswith_iff in E. destruct E as [r E]. elim (H r E).
Qed.

(** An occurrence is a prefix of some suffix. *)
Lemma occurs_nil_iff (sub : str) : occurs sub [] <-> sub = [].
Proof.
  split.
  - intros (a & b & H). symmetry in H. apply app_eq_nil in H as [_ H].
    apply app_eq_nil in H as [H _]. exact H.
  - intros ->. exists [], []. reflexivity.
Qed.

Lemma occurs_cons_iff (sub : str) (c : ascii) (s : str) :
  occurs sub (c :: s) <-> startswith (c :: s) sub = true \/ occurs sub s.
Proof.
  split.
  - intros (a & b & H). destruct a as [|x a].
    + left. apply startswith_iff. exists b. exact H.
    + right. inversion H; subst. exists a, b. reflexivity.
  - intros [H | (a & b & H)].
    + apply startswith_iff in H as [r H]. exists [], r. exact H.
    + exists (c :: a), b. simpl. congruence.
Qed.

Lemma contains_b_iff (s sub : str) : contains_b s sub = true <-> occurs sub s.
Proof.
  induction s as [|c s IH].
  - simpl. rewrite orb_false_r, occurs_nil_iff.
    destruct sub; simpl; split; congruence.
  - rewrite occurs_cons_iff, <- IH. simpl contains_b.
    rewrite orb_true_iff. reflexivity.
Qed.

Lemma occurs_length (sub s : str) : occurs sub s -> List.length sub <= List.length s.
Proof. intros (a & b & ->). rewrite !length_app. lia. Qed.

Lemma occurs_app_l (sub a b : str) : occurs sub a -> occurs sub (a ++ b).
Proof.
  intros (x & y & ->). exists x, (y ++ b). now rewrite <- !app_assoc.
Qed.

Lemma occurs_app_r (sub a b : str) : occurs sub b -> occurs sub (a ++ b).
Proof.
  intros (x & y & ->). exists (a ++ x), y. now rewrite <- !app_assoc.
Qed.

(** ** [str.replace] *)

Lemma replace_from_skip (k : nat) (s old new : str) :
  replace_from k s old new = replace_from 0 (skipn k s) old new.
Proof.
  revert k; induction s as [|c s IH]; intros k.
  - destruct k; reflexivity.
  - destruct k as [|k]; [reflexivity|]. simpl. apply IH.
Qed.

Lemma replace_from_nonempty (s old new : str) :
  old <> [] -> replace s old new = replace_from 0 s old new.
Proof. destruct old; [congruence | reflexivity]. Qed.

Lemma replace_from_match (old b new : str) :
  old <> [] ->
  replace_from 0 (old ++ b) old new = new ++ replace_from 0 b old new.
Proof.
  intros Hne. destruct old as [|c old]; [congruence|].
  change ((c :: old) ++ b) with (c :: (old ++ b)).
  cbn [replace_from]. fold (app (c :: old) b).
  change (c :: old ++ b) with ((c :: old) ++ b).
  rewrite startswith_app. f_equal.
  rewrite replace_from_skip. simpl List.length.
  replace (S (List.length old) - 1) with (List.length old) by lia.
  rewrite skipn_app, skipn_all, Nat.sub_diag. reflexivity.
Qed.

Lemma replace_from_nomatch (c : ascii) (s old new : str) :
  startswith (c :: s) old = false ->
  replace_from 0 (c :: s) old new = c :: replace_from 0 s old new.
Proof. intros H. cbn [replace_from]. rewrite H. reflexivity. Qed.

Lemma removelast_prefix (old b : str) :
  old <> [] -> exists r, old ++ b = removelast old ++ r.
Proof.
  intros H. destruct (exists_last H) as (l & x & ->).
  rewrite removelast_last. exists (x :: b). now rewrite <- app_assoc.
Qed.

Lemma replaced_all_cons (old new : str) (c : ascii) (s r : str) :
  old <> [] ->
  startswith (c :: s) old = false ->
  replaced_all old new s r ->
  replaced_all old new (c :: s) (c :: r).
Proof.
  intros Hne Hs H. destruct H as [s Hno | a b b' Hfirst Hrest].
  - apply replaced_none. rewrite occurs_cons_iff. intros [E | E]; congruence.
  - apply (replaced_first old new (c :: a) b b'); [|exact Hrest].
    simpl. rewrite occurs_cons_iff. intros [E | E]; [|contradiction].
    apply startswith_iff in E as [r E].
    destruct (removelast_prefix old b Hne) as [r' E'].
    rewrite startswith_false in Hs. apply (Hs (r ++ r')).
    rewrite E'. rewrite (app_assoc old r r'), <- E.
    simpl. now rewrite <- app_assoc.
Qed.

Lemma replace_from_spec (old new : str) :
  old <> [] ->
  forall n s, List.length s <= n ->
  replaced_all old new s (replace_from 0 s old new).
Proof.
  intros Hne n; induction n as [|n IH]; intros s Hlen.
  - destruct s; [|simpl in Hlen; lia]. simpl. apply replaced_none.
    rewrite occurs_nil_iff. exact Hne.
  - destruct s as [|c s].
    + simpl. apply replaced_none. rewrite occurs_nil_iff. exact Hne.
    + destruct (startswith (c :: s) old) eqn:E.
      * apply startswith_iff in E as [b E]. rewrite E.
        rewrite replace_from_match by exact Hne.
        apply (replaced_first old new [] b).
        -- simpl. intros H. apply occurs_length in H.
           destruct (exists_last Hne) as (l & x & ->).
           rewrite removelast_last, length_app in H. simpl in H. lia.
        -- apply IH. assert (List.length (c :: s) = List.length (old ++ b)) by congruence.
           rewrite length_app in H. simpl in H, Hlen.
           destruct old; [congruence|]. simpl in H. lia.
      * rewrite replace_from_nomatch by exact E.
        apply replaced_all_cons; [exact Hne | exact E |].
        apply IH. simpl in Hlen. lia.
Qed.

(** [replace] does what its description says. *)
Lemma replace_spec (s old new : str) :
  old <> [] -> replaced_all old new s (replace s old new).
Proof.
  intros Hne. rewrite replace_from_nonempty by exact Hne.
  apply (replace_from_spec old new Hne (List.length s)). lia.
Qed.

Lemma placeholder_nonempty (k : str) : placeholder k <> [].
Proof. unfold placeholder. simpl. discriminate. Qed.

Lemma substitute_rendered (table : dict pyval) (t : str) :
  rendered table t (substitute t table).
Proof.
  revert t; induction table as [|[k v] table IH]; intros t.
  - apply rendered_nil.
  - apply (rendered_cons k v table t (replace t (placeholder k) (py_str v))).
    + apply replace_spec, placeholder_nonempty.
    + apply IH.
Qed.

(** The description of a replacement determines its result. *)
Lemma prefix_of_longer (x y u w : str) :
  x ++ y = u ++ w -> List.length x <= List.length u -> exists z, u = x ++ z.
Proof.
  intros E Hl. apply app_eq_app in E as [l [[E1 E2] | [E1 E2]]].
  - assert (l = []) as ->.
    { destruct l; [reflexivity|]. subst x. rewrite length_app in Hl.
      simpl in Hl. lia. }
    exists []. now rewrite app_nil_r in *.
  - exists l. exact E1.
Qed.

Lemma first_occurrence_earlier (old a b a' l rest : str) :
  old <> [] -> l <> [] ->
  old ++ rest = l ++ old ++ b ->
  occurs old (a' ++ l ++ removelast old).
Proof.
  intros Hne Hl E.
  destruct (exists_last Hne) as (o & x & Eo).
  assert (Hp : exists z, l ++ removelast old = old ++ z).
  { apply (prefix_of_longer old rest (l ++ removelast old) (x :: b)).
    - rewrite E, <- app_assoc. f_equal.
      rewrite Eo at 1. rewrite Eo, removelast_last, <- app_assoc. reflexivity.
    - rewrite Eo, removelast_last, !length_app. simpl.
      destruct l; [congruence | simpl; lia]. }
  destruct Hp as [z Hz]. exists a', z. now rewrite Hz.
Qed.

Lemma first_occurrence_unique (old a b a' b' : str) :
  old <> [] ->
  a ++ old ++ b = a' ++ old ++ b' ->
  ~ occurs old (a ++ removelast old) ->
  ~ occurs old (a' ++ removelast old) ->
  a = a' /\ b = b'.
Proof.
  intros Hne E Ha Ha'.
  assert (Haa : a = a').
  { apply app_eq_app in E as [l [[E1 E2] | [E1 E2]]].
    - destruct l as [|c l]; [now rewrite app_nil_r in E1|].
      exfalso. apply Ha. rewrite E1, <- app_assoc.
      apply (first_occurrence_earlier old a b a' (c :: l) b' Hne);
        [discriminate | exact E2].
    - destruct l as [|c l]; [now rewrite app_nil_r in E1|].
      exfalso. apply Ha'. rewrite E1, <- app_assoc.
      apply (first_occurrence_earlier old a' b' a (c :: l) b Hne);
        [discriminate | exact E2]. }
  subst a'. split; [reflexivity|].
  apply app_inv_head in E. now apply app_inv_head in E.
Qed.

Lemma replaced_all_functional (old new s r1 r2 : str) :
  old <> [] ->
  replaced_all old new s r1 -> replaced_all old new s r2 -> r1 = r2.
Proof.
  intros Hne H1. revert r2.
  induction H1 as [s Hno | a b b' Hfirst Hrest IH]; intros r2 H2.
  - inversion H2 as [s' Hno' | a2 b2 b2' Hfirst2 Hrest2]; subst; [reflexivity|].
    elim Hno. exists a2, b2. reflexivity.
  - inversion H2 as [s' Hno' | a2 b2 b2' Hfirst2 Hrest2 Es]; subst.
    + elim Hno'. exists a, b. reflexivity.
    + symmetry in Es.
      destruct (first_occurrence_unique old a b a2 b2 Hne Es Hfirst Hfirst2)
        as [-> ->].
      f_equal. f_equal. now apply IH.
Qed.

Lemma rendered_functional (table : dict pyval) (t r1 r2 : str) :
  rendered table t r1 -> rendered table t r2 -> r1 = r2.
Proof.
  intros H1. revert r2.
  induction H1 as [t | k v table t t1 t2 Hstep Hrest IH]; intros r2 H2.
  - inversion H2; reflexivity.
  - inversion H2 as [| k' v' table' t' t1' t2' Hstep' Hrest']; subst.
    apply IH.
    rewrite (replaced_all_functional _ _ _ _ _ (placeholder_nonempty k)
               Hstep Hstep').
    exact Hrest'.
Qed.

(** ** Dictionaries *)

Section Dict.
Context {V : Type}.
Implicit Types (d : dict V) (k : str) (v : V).

Lemma dict_get_none_iff d k : dict_get d k = None <-> ~ In k (dict_keys d).
Proof.
  induction d as [|[k' v'] d IH]; simpl.
  - tauto.
  - destruct (str_eqb k' k) eqn:E.
    + apply str_eqb_eq in E. split; [discriminate | intros H; elim H; auto].
    + apply str_eqb_neq in E. rewrite IH. tauto.
Qed.

Lemma dict_get_in d k v : dict_get d k = Some v -> In (k, v) d.
Proof.
  induction d as [|[k' v'] d IH]; simpl; [discriminate|].
  destruct (str_eqb k' k) eqn:E.
  - apply str_eqb_eq in E. intros H; inversion H; subst; auto.
  - auto.
Qed.

Lemma dict_in_get d k v : dict_wf d -> In (k, v) d -> dict_get d k = Some v.
Proof.
  unfold dict_wf. induction d as [|[k' v'] d IH]; simpl; [tauto|].
  intros Hnd [H | H].
  - inversion H; subst. now rewrite str_eqb_refl.
  - inversion Hnd; subst. destruct (str_eqb k' k) eqn:E.
    + apply str_eqb_eq in E; subst. elim H2.
      change k with (fst (k, v)). now apply in_map.
    + auto.
Qed.

Lemma dict_mem_false d k : dict_mem d k = false <-> dict_get d k = None.
Proof. unfold dict_mem. destruct (dict_get d k); split; congruence. Qed.

Lemma dict_get_set_same d k v : dict_get (dict_set d k v) k = Some v.
Proof.
  induction d as [|[k' v'] d IH]; simpl.
  - now rewrite str_eqb_refl.
  - destruct (str_eqb k' k) eqn:E; simpl; rewrite E; auto.
Qed.

Lemma dict_get_set_other d k k' v :
  k <> k' -> dict_get (dict_set d k v) k' = dict_get d k'.
Proof.
  intros Hne. induction d as [|[k1 v1] d IH]; simpl.
  - apply str_eqb_neq in Hne. now rewrite Hne.
  - destruct (str_eqb k1 k) eqn:E; simpl.
    + apply str_eqb_eq in E; subst. apply str_eqb_neq in Hne. now rewrite Hne.
    + destruct (str_eqb k1 k'); auto.
Qed.

Lemma dict_keys_set d k v :
  dict_keys (dict_set d k v)
  = if dict_mem d k then dict_keys d else dict_keys d ++ [k].
Proof.
  unfold dict_mem. induction d as [|[k1 v1] d IH]; simpl; [reflexivity|].
  destruct (str_eqb k1 k) eqn:E; simpl; [reflexivity|].
  rewrite IH. destruct (dict_get d k); reflexivity.
Qed.

Lemma dict_wf_set d k v : dict_wf d -> dict_wf (dict_set d k v).
Proof.
  unfold dict_wf. rewrite dict_keys_set. unfold dict_mem.
  destruct (dict_get d k) eqn:E; [auto|].
  intros H. apply dict_get_none_iff in E.
  apply NoDup_app; [exact H | repeat constructor; simpl; tauto |].
  intros x Hx [<- | []]. contradiction.
Qed.

Lemma dict_wf_update d other : dict_wf d -> dict_wf (dict_update d other).
Proof.
  unfold dict_update. revert d.
  induction other as [|[k v] o IH]; intros d H; simpl; [exact H|].
  apply IH, dict_wf_set, H.
Qed.

Lemma dict_get_update d other k :
  dict_wf other ->
  dict_get (dict_update d other) k
  = match dict_get other k with
    | Some x => Some x
    | None => dict_get d k
    end.
Proof.
  unfold dict_update, dict_wf. revert d.
  induction other as [|[k1 v1] o IH]; intros d Hnd; simpl; [reflexivity|].
  inversion Hnd; subst. rewrite IH by assumption.
  destruct (str_eqb k1 k) eqn:E.
  - apply str_eqb_eq in E; subst.
    apply dict_get_none_iff in H1. rewrite H1. apply dict_get_set_same.
  - apply str_eqb_neq in E. now rewrite dict_get_set_other.
Qed.
End Dict.

(** ** The merged value table *)

Lemma default_for_cons (v : TerraformVariable) (vs : list TerraformVariable) (k : str) :
  default_for (v :: vs) k
  = match default_for vs k with
    | Some d => Some d
    | None => if has_default_for k v then Some (var_default v) else None
    end.
Proof.
  unfold default_for. simpl rev.
  induction (rev vs) as [|x xs IH]; simpl.
  - destruct (has_default_for k v); reflexivity.
  - destruct (has_default_for k x); [reflexivity | exact IH].
Qed.

Lemma defaults_fold_get (vs : list TerraformVariable) (acc : dict pyval) (k : str) :
  dict_get
    (fold_left
       (fun merged v =>
          if is_None (var_default v) then merged
          else dict_set merged (var_name v) (var_default v)) vs acc) k
  = match default_for vs k with
    | Some d => Some d
    | None => dict_get acc k
    end.
Proof.
  revert acc; induction vs as [|v vs IH]; intros acc; [reflexivity|].
  simpl fold_left. rewrite IH, default_for_cons.
  destruct (default_for vs k); [reflexivity|].
  unfold has_default_for. destruct (is_None (var_default v)); simpl.
  - now rewrite andb_false_r.
  - rewrite andb_true_r. destruct (str_eqb (var_name v) k) eqn:E.
    + apply str_eqb_eq in E; subst. apply dict_get_set_same.
    + apply str_eqb_neq in E. now apply dict_get_set_other.
Qed.

Lemma defaults_of_get (vs : list TerraformVariable) (k : str) :
  dict_get (defaults_of vs) k = default_for vs k.
Proof.
  unfold defaults_of. rewrite defaults_fold_get.
  destruct (default_for vs k); reflexivity.
Qed.

Lemma defaults_fold_wf (vs : list TerraformVariable) (acc : dict pyval) :
  dict_wf acc ->
  dict_wf
    (fold_left
       (fun merged v =>
          if is_None (var_default v) then merged
          else dict_set merged (var_name v) (var_default v)) vs acc).
Proof.
  revert acc; induction vs as [|v vs IH]; intros acc H; [exact H|].
  simpl. apply IH. destruct (is_None (var_default v)); [exact H|].
  now apply dict_wf_set.
Qed.

Lemma merge_vars_wf (m : TerraformModule) (vars : dict pyval) :
  dict_wf (merge_vars m vars).
Proof.
  unfold merge_vars. apply dict_wf_update. unfold defaults_of.
  apply defaults_fold_wf. constructor.
Qed.

Lemma merge_vars_get (m : TerraformModule) (vars : dict pyval) (k : str) :
  dict_wf vars ->
  dict_get (merge_vars m vars) k
  = match dict_get vars k with
    | Some x => Some x
    | None => default_for (mod_variables m) k
    end.
Proof.
  intros H. unfold merge_vars. rewrite dict_get_update by exact H.
  now rewrite defaults_of_get.
Qed.

Lemma is_None_false (v : pyval) : is_None v = false <-> v <> PNone.
Proof. destruct v; simpl; split; congruence. Qed.

Lemma is_None_true (v : pyval) : is_None v = true <-> v = PNone.
Proof. destruct v; simpl; split; congruence. Qed.

Lemma default_for_none (vs : list TerraformVariable) (k : str) :
  (forall v, In v vs -> var_name v = k -> var_default v = PNone) ->
  default_for vs k = None.
Proof.
  induction vs as [|v vs IH]; intros H; [reflexivity|].
  rewrite default_for_cons, IH by (intros; apply H; simpl; auto).
  unfold has_default_for. destruct (str_eqb (var_name v) k) eqn:E; [|reflexivity].
  apply str_eqb_eq in E. rewrite (H v (or_introl eq_refl) E). reflexivity.
Qed.

Lemma default_for_unique (vs : list TerraformVariable) (v : TerraformVariable) :
  NoDup (map var_name vs) -> In v vs -> var_default v <> PNone ->
  default_for vs (var_name v) = Some (var_default v).
Proof.
  induction vs as [|x vs IH]; intros Hnd Hin Hd; [destruct Hin|].
  simpl in Hnd. inversion Hnd; subst. rewrite default_for_cons.
  destruct Hin as [-> | Hin].
  - rewrite default_for_none.
    + unfold has_default_for. rewrite str_eqb_refl.
      apply is_None_false in Hd. now rewrite Hd.
    + intros y Hy E. elim H1. rewrite <- E. now apply in_map.
  - now rewrite IH.
Qed.

Lemma default_for_undeclared (vs : list TerraformVariable) (k : str) :
  (forall v, In v vs -> var_name v <> k) -> default_for vs k = None.
Proof.
  intros H. apply default_for_none. intros v Hv E. elim (H v Hv E).
Qed.

(** ** [generate_tf] *)

Lemma missing_variables_in (m : TerraformModule) (vars : dict pyval) (n : str) :
  In n (missing_variables m vars)
  <-> exists v, In v (mod_variables m) /\ var_name v = n /\ is_missing vars v.
Proof.
  unfold missing_variables, is_missing. rewrite in_map_iff. split.
  - intros (v & Hn & Hf). apply filter_In in Hf as [Hin Hf].
    apply andb_true_iff in Hf as [Hf H3]. apply andb_true_iff in Hf as [H1 H2].
    exists v. repeat split; auto.
    + now apply is_None_true.
    + apply negb_true_iff in H3. now apply dict_mem_false.
  - intros (v & Hin & Hn & H1 & H2 & H3). exists v. split; [exact Hn|].
    apply filter_In. split; [exact Hin|].
    rewrite H1, H2. simpl. apply negb_true_iff. now apply dict_mem_false.
Qed.

Lemma missing_variables_nil (m : TerraformModule) (vars : dict pyval) :
  missing_variables m vars = []
  <-> forall v, In v (mod_variables m) -> ~ is_missing vars v.
Proof.
  split.
  - intros H v Hv Hm.
    assert (In (var_name v) (missing_variables m vars))
      by (apply missing_variables_in; eauto).
    rewrite H in H0. destruct H0.
  - intros H. destruct (missing_variables m vars) as [|n l] eqn:E; [reflexivity|].
    assert (In n (missing_variables m vars)) by (rewrite E; simpl; auto).
    apply missing_variables_in in H0 as (v & Hv & _ & Hm). elim (H v Hv Hm).
Qed.

Lemma generate_tf_ok (db : DB) (ref : str) (vars : dict pyval) (m : TerraformModule) :
  get_module db ref = Ok m ->
  missing_variables m vars = [] ->
  generate_tf db ref vars
  = (Ok (substitute (mod_hcl_template m) (merge_vars m vars)),
     increment_download_count db (mod_id m)).
Proof. intros Hg Hm. unfold generate_tf. now rewrite Hg, Hm. Qed.

Lemma generate_tf_missing (db : DB) (ref : str) (vars : dict pyval) (m : TerraformModule) :
  get_module db ref = Ok m ->
  missing_variables m vars <> [] ->
  generate_tf db ref vars
  = (Raise (ValueError_MissingVariables (missing_variables m vars)), db).
Proof.
  intros Hg Hm. unfold generate_tf. rewrite Hg.
  destruct (missing_variables m vars); [congruence | reflexivity].
Qed.

(** ** The store *)

Lemma find_map_same {A} (p : A -> bool) (f : A -> A) (l : list A) :
  (forall x, p (f x) = p x) ->
  find p (map f l) = option_map f (find p l).
Proof.
  intros H. induction l as [|x l IH]; simpl; [reflexivity|].
  rewrite H. destruct (p x); [reflexivity | exact IH].
Qed.

Lemma select_module_increment (db : DB) (id ref : str) :
  select_module (increment_download_count db id) ref
  = option_map (count_up id) (select_module db ref).
Proof.
  unfold select_module, increment_download_count.
  apply find_map_same.
  intros r. unfold count_up. destruct (str_eqb (row_id r) id); reflexivity.
Qed.

Lemma _row_to_module_id (r : Row) (m : TerraformModule) :
  _row_to_module r = Ok m -> mod_id m = row_id r /\ mod_name m = row_name r.
Proof.
  unfold _row_to_module.
  destruct (load (row_variables r) variable_of_dict); [|discriminate].
  destruct (load (row_outputs r) output_of_dict); [|discriminate].
  destruct (load (row_examples r) example_of_dict); [|discriminate].
  destruct (match json_loads (or_empty_array (row_tags r)) with
            | Some raw => traverse string_of_item raw | None => None end);
    [|discriminate].
  intros H; inversion H; subst; simpl; auto.
Qed.

Lemma _row_to_module_count_up (r : Row) (m : TerraformModule) :
  _row_to_module r = Ok m ->
  _row_to_module (count_up (mod_id m) r) = Ok (downloaded m).
Proof.
  intros H. destruct (_row_to_module_id r m H) as [Hid _].
  unfold count_up. rewrite Hid, str_eqb_refl.
  revert H. unfold _row_to_module. simpl.
  destruct (load (row_variables r) variable_of_dict); [|discriminate].
  destruct (load (row_outputs r) output_of_dict); [|discriminate].
  destruct (load (row_examples r) example_of_dict); [|discriminate].
  destruct (match json_loads (or_empty_array (row_tags r)) with
            | Some raw => traverse string_of_item raw | None => None end);
    [|discriminate].
  intros H; inversion H; subst; reflexivity.
Qed.

Lemma get_module_after_render (db : DB) (ref : str) (m : TerraformModule) :
  get_module db ref = Ok m ->
  get_module (increment_download_count db (mod_id m)) ref = Ok (downloaded m).
Proof.
  unfold get_module. rewrite select_module_increment.
  destruct (select_module db ref) as [r|]; [|discriminate].
  simpl. apply _row_to_module_count_up.
Qed.

Lemma get_module_found (db : DB) (ref : str) (m : TerraformModule) :
  get_module db ref = Ok m ->
  exists r, select_module db ref = Some r /\ _row_to_module r = Ok m.
Proof.
  unfold get_module. destruct (select_module db ref) as [r|]; [|discriminate].
  intros H. exists r. auto.
Qed.

(** ** The claims on [generate_tf] *)


(** C2. [generate_tf] fails exactly when some variable is missing; the
    failure names every missing variable and leaves the store as it was;
    a successful render raises the stored download count of the module by
    one. *)
Theorem generate_tf_fails_iff_missing
  (db : DB) (ref : str) (vars : dict pyval) (m : TerraformModule) :
  get_module db ref = Ok m ->
  ((exists e, fst (generate_tf db ref vars) = Raise e)
   <-> exists v, In v (mod_variables m) /\ is_missing vars v)
  /\ (forall e, fst (generate_tf db ref vars) = Raise e ->
        generate_tf db ref vars
        = (Raise (ValueError_MissingVariables (missing_variables m vars)), db))
  /\ (forall n, In n (missing_variables m vars)
        <-> exists v, In v (mod_variables m) /\ var_name v = n
                      /\ is_missing vars v)
  /\ (forall out, fst (generate_tf db ref vars) = Ok out ->
        snd (generate_tf db ref vars)
        = increment_download_count db (mod_id m)
        /\ get_module (snd (generate_tf db ref vars)) ref = Ok (downloaded m)
        /\ mod_download_count (downloaded m) = (mod_download_count m + 1)%Z).
Proof.
  intros Hget.
  destruct (missing_variables m vars) as [|n l] eqn:E.
  - pose proof (generate_tf_ok db ref vars m Hget E) as Hok.
    pose proof (proj1 (missing_variables_nil m vars) E) as Hnone.
    rewrite Hok. simpl. split; [|split; [|split]].
    + split; [intros [e H]; discriminate|].
      intros (v & Hv & Hm). elim (Hnone v Hv Hm).
    + intros e H; discriminate.
    + intros k. rewrite <- missing_variables_in, E. reflexivity.
    + intros out _. split; [reflexivity|]. split; [|reflexivity].
      now apply get_module_after_render.
  - assert (Hne : missing_variables m vars <> []) by (rewrite E; discriminate).
    pose proof (generate_tf_missing db ref vars m Hget Hne) as Hf.
    rewrite Hf. simpl. split; [|split; [|split]].
    + split; [|intros _; eexists; reflexivity].
      intros _. assert (In n (missing_variables m vars)) by (rewrite E; simpl; auto).
      apply missing_variables_in in H as (v & Hv & _ & Hm). eauto.
    + intros e _. now rewrite E.
    + intros k. rewrite <- missing_variables_in, E. reflexivity.
    + intros out H; discriminate.
Qed.


Lemma generate_tf_fails_iff_missing_witness :
  get_module sample_db (lit "gen_test") = Ok sample_module
  /\ generate_tf sample_db (lit "gen_test") [(lit "name", PStr (lit "x"))]
     = (Raise (ValueError_MissingVariables [lit "ami_id"]), sample_db).
Proof.
  assert (Hget : get_module sample_db (lit "gen_test") = Ok sample_module)
    by (vm_compute; reflexivity).
  split; [exact Hget|].
  destruct (generate_tf_fails_iff_missing sample_db (lit "gen_test")
              [(lit "name", PStr (lit "x"))] sample_module Hget)
    as (_ & Hfail & _).
  rewrite (Hfail (ValueError_MissingVariables [lit "ami_id"]))
    by (vm_compute; reflexivity).
  vm_compute. reflexivity.
Defined.

(** ** Keys the module does not declare *)

Lemma dict_get_del {V} (d : dict V) (k k' : str) :
  k <> k' -> dict_get (dict_del d k) k' = dict_get d k'.
Proof.
  intros Hne. induction d as [|[k1 v1] d IH]; simpl; [reflexivity|].
  destruct (str_eqb k1 k) eqn:E; simpl.
  - apply str_eqb_eq in E; subst. apply str_eqb_neq in Hne. now rewrite Hne.
  - destruct (str_eqb k1 k'); auto.
Qed.

Lemma missing_variables_del (m : TerraformModule) (vars : dict pyval) (k : str) :
  (forall v, In v (mod_variables m) -> var_name v <> k) ->
  missing_variables m (dict_del vars k) = missing_variables m vars.
Proof.
  intros H. unfold missing_variables. f_equal. apply filter_ext_in.
  intros v Hv. unfold dict_mem. rewrite dict_get_del; [reflexivity|].
  intros E. apply (H v Hv). now symmetry.
Qed.

Lemma substitute_app (t : str) (a b : dict pyval) :
  substitute t (a ++ b) = substitute (substitute t a) b.
Proof. unfold substitute. apply fold_left_app. Qed.



(** ** Placeholders that receive no value *)

Lemma replace_from_no_start (old new a rest : str) :
  (forall a1 a2, a = a1 ++ a2 -> a2 <> [] ->
                 startswith (a2 ++ rest) old = false) ->
  replace_from 0 (a ++ rest) old new = a ++ replace_from 0 rest old new.
Proof.
  induction a as [|c a IH]; intros H; [reflexivity|].
  change ((c :: a) ++ rest) with (c :: (a ++ rest)).
  rewrite replace_from_nomatch.
  - simpl. f_equal. apply IH. intros a1 a2 E Hne.
    apply (H (c :: a1) a2); [simpl; congruence | exact Hne].
  - apply (H [] (c :: a)); [reflexivity | discriminate].
Qed.

Lemma replace_from_app_whole (old new : str) :
  old <> [] ->
  forall n a rest, List.length a <= n ->
  (forall a1 a2, a = a1 ++ a2 -> a2 <> [] ->
                 startswith (a2 ++ rest) old = true ->
                 startswith a2 old = true) ->
  replace_from 0 (a ++ rest) old new
  = replace_from 0 a old new ++ replace_from 0 rest old new.
Proof.
  intros Hne n; induction n as [|n IH]; intros a rest Hlen H.
  - destruct a; [reflexivity | simpl in Hlen; lia].
  - destruct a as [|c a]; [reflexivity|].
    destruct (startswith ((c :: a) ++ rest) old) eqn:E.
    + assert (E' : startswith (c :: a) old = true)
        by (apply (H [] (c :: a)); [reflexivity | discriminate | exact E]).
      apply startswith_iff in E' as [a' Ea]. rewrite Ea.
      rewrite <- app_assoc, !replace_from_match by exact Hne.
      rewrite <- app_assoc. f_equal. apply IH.
      * assert (List.length (c :: a) = List.length (old ++ a')) by congruence.
        rewrite length_app in H0. simpl in H0, Hlen.
        destruct old; [congruence|]. simpl in H0. lia.
      * intros a1 a2 E1 Hn2 E2. apply (H (old ++ a1) a2); [|exact Hn2|exact E2].
        rewrite Ea, E1. now rewrite app_assoc.
    + assert (E' : startswith (c :: a) old = false).
      { destruct (startswith (c :: a) old) eqn:E1; [|reflexivity].
        apply startswith_iff in E1 as [r E1]. rewrite E1 in E.
        rewrite <- app_assoc, startswith_app in E. discriminate. }
      change ((c :: a) ++ rest) with (c :: (a ++ rest)) in *.
      rewrite !replace_from_nomatch by assumption.
      simpl. f_equal. apply IH; [simpl in Hlen; lia|].
      intros a1 a2 E1 Hn2 E2.
      apply (H (c :: a1) a2); [simpl; congruence | exact Hn2 | exact E2].
Qed.

Lemma placeholder_head (k : str) :
  placeholder k = "$"%char :: lit "{var." ++ k ++ lit "}".
Proof. reflexivity. Qed.

Lemma dollar_in_placeholder_tail (k : str) :
  In "$"%char (lit "{var." ++ k ++ lit "}") -> In "$"%char k.
Proof.
  intros H. apply in_app_or in H as [H | H].
  - simpl in H. repeat (destruct H as [H | H]; [discriminate|]). destruct H.
  - apply in_app_or in H as [H | H]; [exact H|].
    simpl in H. destruct H as [H | []]. discriminate.
Qed.

(** A placeholder of a plain name has its only dollar sign in front. *)
Lemma placeholder_split_dollar (k u w : str) :
  ~ In "$"%char k -> placeholder k = u ++ "$"%char :: w -> u = [].
Proof.
  intros Hk E. destruct u as [|c u]; [reflexivity|].
  rewrite placeholder_head in E.
  change ((c :: u) ++ "$"%char :: w) with (c :: (u ++ "$"%char :: w)) in E.
  injection E as _ E.
  elim Hk. apply dollar_in_placeholder_tail.
  assert (H : In "$"%char (u ++ "$"%char :: w)) by apply in_elt.
  rewrite <- E in H. exact H.
Qed.

Lemma before_brace_unique (k x r1 r2 : str) :
  ~ In "}"%char k -> ~ In "}"%char x ->
  k ++ "}"%char :: r1 = x ++ "}"%char :: r2 -> k = x.
Proof.
  revert x; induction k as [|c k IH]; intros [|d x] Hk Hx E; simpl in *.
  - reflexivity.
  - inversion E; subst. elim Hx; auto.
  - inversion E; subst. elim Hk; auto.
  - inversion E; subst. f_equal. apply IH with (x := x); tauto.
Qed.

Lemma placeholder_prefix_unique (k x r1 r2 : str) :
  ~ In "}"%char k -> ~ In "}"%char x ->
  placeholder k ++ r1 = placeholder x ++ r2 -> k = x.
Proof.
  intros Hk Hx E. unfold placeholder in E.
  rewrite <- !app_assoc in E. apply app_inv_head in E.
  simpl in E. now apply before_brace_unique in E.
Qed.

(** Replacing the placeholder of one plain name passes over the
    placeholder of another. *)
Lemma replace_keeps_placeholder (k x new a b : str) :
  plain_name k -> plain_name x -> k <> x ->
  replace (a ++ placeholder x ++ b) (placeholder k) new
  = replace a (placeholder k) new ++ placeholder x
    ++ replace b (placeholder k) new.
Proof.
  intros [Hk1 Hk2] [Hx1 Hx2] Hne.
  pose proof (placeholder_nonempty k) as Hnon.
  rewrite !replace_from_nonempty by exact Hnon.
  assert (Hwhole :
    replace_from 0 (a ++ placeholder x ++ b) (placeholder k) new
    = replace_from 0 a (placeholder k) new
      ++ replace_from 0 (placeholder x ++ b) (placeholder k) new).
  { apply (replace_from_app_whole _ new Hnon (List.length a)); [lia|].
    intros a1 a2 E1 Hn2 E2. apply startswith_iff in E2 as [r E2].
    apply app_eq_app in E2 as [l [[E3 E4] | [E3 E4]]].
    - apply startswith_iff; eauto.
    - destruct l as [|c l].
      + rewrite app_nil_r in E3. rewrite <- E3. apply startswith_iff.
        exists []. now rewrite app_nil_r.
      + assert (c = "$"%char).
        { rewrite (placeholder_head x) in E4. simpl in E4. congruence. }
        subst c. apply placeholder_split_dollar in E3; [|exact Hk1].
        contradiction. }
  rewrite Hwhole. f_equal. apply replace_from_no_start.
  intros a1 a2 E1 Hne2. apply startswith_false. intros r E2.
  destruct a1 as [|c a1].
  - simpl in E1. subst a2. apply Hne.
    now apply (placeholder_prefix_unique k x r b).
  - destruct a2 as [|d a2]; [congruence|].
    assert (d = "$"%char).
    { rewrite (placeholder_head k) in E2. simpl in E2. congruence. }
    subst d. apply placeholder_split_dollar in E1; [|exact Hx1].
    discriminate.
Qed.

Lemma substitute_cons (t k : str) (v : pyval) (table : dict pyval) :
  substitute t ((k, v) :: table)
  = substitute (replace t (placeholder k) (py_str v)) table.
Proof. reflexivity. Qed.

Lemma substitute_keeps_placeholder (x : str) (table : dict pyval) :
  plain_name x ->
  (forall k, In k (dict_keys table) -> plain_name k /\ k <> x) ->
  forall a b,
    substitute (a ++ placeholder x ++ b) table
    = substitute a table ++ placeholder x ++ substitute b table.
Proof.
  intros Hx. induction table as [|[k v] table IH]; intros H a b; [reflexivity|].
  rewrite !substitute_cons.
  destruct (H k (or_introl eq_refl)) as [Hk Hne].
  rewrite (replace_keeps_placeholder k x (py_str v) a b Hk Hx Hne).
  apply IH. intros k' Hk'. apply H. simpl. auto.
Qed.

(** C6, as amended. In a module with unique variable names, a variable
    with no default that is not required and not supplied is never reported
    missing and gets no entry in the merged table; when the render
    succeeds and neither its name nor any name in the merged table
    contains a dollar sign or a closing brace, every occurrence of its
    placeholder in the template is in the output verbatim, between the
    renderings of what precedes and what follows it. *)
Theorem generate_tf_keeps_unvalued_placeholder
  (db : DB) (ref : str) (vars : dict pyval) (m : TerraformModule)
  (v : TerraformVariable) :
  get_module db ref = Ok m ->
  dict_wf vars ->
  unique_names m ->
  In v (mod_variables m) ->
  var_default v = PNone -> var_required v = false ->
  dict_get vars (var_name v) = None ->
  plain_name (var_name v) ->
  (forall k, In k (dict_keys (merge_vars m vars)) -> plain_name k) ->
  let merged := merge_vars m vars in
  ~ In (var_name v) (missing_variables m vars)
  /\ dict_get merged (var_name v) = None
  /\ (missing_variables m vars = [] ->
      forall a b,
        mod_hcl_template m = a ++ placeholder (var_name v) ++ b ->
        fst (generate_tf db ref vars)
        = Ok (substitute a merged ++ placeholder (var_name v)
              ++ substitute b merged)).
Proof.
  intros Hget Hwf Hu Hv Hd Hr Hs Hx Hplain merged.
  assert (Hsame : forall w, In w (mod_variables m) ->
                            var_name w = var_name v -> w = v).
  { unfold unique_names in Hu. revert Hu Hv.
    induction (mod_variables m) as [|y l IH]; intros Hnd Hin w Hw E; [destruct Hin|].
    simpl in Hnd. inversion Hnd; subst.
    destruct Hin as [-> | Hin]; destruct Hw as [-> | Hw]; auto.
    - elim H1. rewrite <- E. now apply in_map.
    - elim H1. rewrite E. now apply in_map. }
  assert (Hnone : dict_get merged (var_name v) = None).
  { unfold merged. rewrite merge_vars_get, Hs by exact Hwf.
    apply default_for_none. intros w Hw E. now rewrite (Hsame w Hw E). }
  split; [|split; [exact Hnone|]].
  - rewrite missing_variables_in. intros (w & Hw & E & H1 & _).
    rewrite (Hsame w Hw E) in H1. congruence.
  - intros Hmiss a b Ht.
    rewrite (generate_tf_ok db ref vars m Hget Hmiss). simpl. fold merged.
    rewrite Ht. f_equal. apply substitute_keeps_placeholder; [exact Hx|].
    intros k Hk. split; [now apply Hplain|].
    intros ->. apply dict_get_none_iff in Hnone. contradiction.
Qed.

Lemma generate_tf_keeps_unvalued_placeholder_witness :
  get_module optional_db (lit "opt_test") = Ok optional_module
  /\ fst (generate_tf optional_db (lit "opt_test")
            [(lit "name", PStr (lit "box"))])
     = Ok (lit "resource " ++ quote_ (lit "null_resource") ++ lit " "
           ++ quote_ (lit "box") ++ lit " { tag = "
           ++ quote_ (lit "${var.suffix}") ++ lit " }").
Proof.
  assert (Hget : get_module optional_db (lit "opt_test") = Ok optional_module)
    by (vm_compute; reflexivity).
  split; [exact Hget|].
  pose (v := mkVariable (lit "suffix") (lit "string") [] PNone false false).
  pose (vars := [(lit "name", PStr (lit "box"))] : dict pyval).
  assert (Hwf : dict_wf vars)
    by (unfold dict_wf; simpl; repeat constructor; simpl; intuition discriminate).
  assert (Hu : unique_names optional_module)
    by (unfold unique_names; simpl; repeat constructor; simpl; intuition discriminate).
  assert (Hv : In v (mod_variables optional_module)) by (simpl; auto).
  assert (Hx : plain_name (var_name v))
    by (split; simpl; intuition discriminate).
  assert (Hplain : forall k, In k (dict_keys (merge_vars optional_module vars)) ->
                             plain_name k).
  { intros k Hk. vm_compute in Hk. destruct Hk as [<- | []].
    split; simpl; intuition discriminate. }
  destruct (generate_tf_keeps_unvalued_placeholder optional_db (lit "opt_test")
              vars optional_module v Hget Hwf Hu Hv eq_refl eq_refl eq_refl
              Hx Hplain) as (_ & _ & Hkeep).
  subst v vars.
  rewrite (Hkeep eq_refl
             (lit "resource " ++ quote_ (lit "null_resource") ++ lit " "
              ++ quote_ (lit "${var.name}") ++ lit " { tag = " ++ [dquote])
             (dquote :: lit " }") eq_refl).
  vm_compute. reflexivity.
Defined.

(** C6 as stated fails: the placeholder of the optional variable [a}b]
    begins with the placeholder of [a], and the replacement made for [a]
    takes it out of the text. *)
Lemma unvalued_placeholder_counterexample :
  let v := mkVariable (lit "a}b") (lit "string") [] PNone false false in
  let vars := [(lit "a", PStr (lit "X"))] : dict pyval in
  get_module brace_db (lit "brace_test") = Ok brace_module
  /\ In v (mod_variables brace_module)
  /\ var_default v = PNone /\ var_required v = false
  /\ dict_get vars (var_name v) = None
  /\ occurs (placeholder (var_name v)) (mod_hcl_template brace_module)
  /\ fst (generate_tf brace_db (lit "brace_test") vars)
     = Ok (lit "locals { x = Xb} ")
  /\ ~ occurs (placeholder (var_name v)) (lit "locals { x = Xb} ").
Proof.
  simpl. repeat split; try (vm_compute; reflexivity); auto.
  - apply contains_b_iff. vm_compute. reflexivity.
  - rewrite <- contains_b_iff. vm_compute. discriminate.
Qed.

(** ** [validate_hcl] *)

Lemma validate_hcl_errors (text : str) :
  errors (validate_hcl text)
  = (if count text (lit "{") =? count text (lit "}") then []
     else [lit "Unbalanced curly braces { }"])
    ++ (if count text (lit "[") =? count text (lit "]") then []
        else [lit "Unbalanced square brackets [ ]"])
    ++ (if count text (lit "(") =? count text (lit ")") then []
        else [lit "Unbalanced parentheses ( )"])
    ++ label_errors text
    ++ match strip text with
       | [] => [lit "HCL string is empty"]
       | _ :: _ => []
       end.
Proof.
  unfold validate_hcl, label_errors. cbn [errors].
  destruct (count text (lit "{") =? count text (lit "}"));
    destruct (count text (lit "[") =? count text (lit "]"));
    destruct (count text (lit "(") =? count text (lit ")"));
    destruct (strip text);
    cbn [app]; rewrite <- ?app_assoc; cbn [app]; rewrite ?app_nil_r; reflexivity.
Qed.

Lemma validate_hcl_valid (text : str) :
  valid (validate_hcl text) = true <-> errors (validate_hcl text) = [].
Proof.
  change (valid (validate_hcl text))
    with (List.length (errors (validate_hcl text)) =? 0).
  destruct (errors (validate_hcl text)); simpl; split; congruence.
Qed.

Lemma label_errors_nil (text : str) :
  label_errors text = []
  <-> forall l, In l (splitlines text) ->
        startswith (strip l) (lit "resource") = true ->
        3 <= List.length (split (strip l)).
Proof.
  unfold label_errors, resource_lines.
  induction (splitlines text) as [|l ls IH].
  - cbn [filter map flat_map]. split; [intros _ l [] | auto].
  - cbn [filter]. destruct (startswith (strip l) (lit "resource")) eqn:E.
    + cbn [map flat_map].
      destruct (List.length (split (strip l)) <? 3) eqn:E3.
      * split; [discriminate|]. intros H.
        apply Nat.ltb_lt in E3. specialize (H l (or_introl eq_refl) E). lia.
      * apply Nat.ltb_ge in E3. cbn [app]. rewrite IH. split.
        -- intros H l' [<- | Hl'] Hs; auto.
        -- intros H l' Hl'. apply H. right. exact Hl'.
    + rewrite IH. split.
      * intros H l' [<- | Hl'] Hs; [congruence | auto].
      * intros H l' Hl'. apply H. right. exact Hl'.
Qed.

(** The errors about labels are those of the stripped lines that start
    with [resource] and have fewer than three fields. *)
Lemma missing_labels_error_inj (a b : str) :
  missing_labels_error a = missing_labels_error b -> a = b.
Proof.
  unfold missing_labels_error. intros H.
  apply app_inv_head in H. now apply app_inv_tail in H.
Qed.

Lemma missing_labels_error_iff (text rl : str) :
  In (missing_labels_error rl) (errors (validate_hcl text))
  <-> exists l, In l (splitlines text) /\ rl = strip l
                /\ startswith rl (lit "resource") = true
                /\ List.length (split rl) < 3.
Proof.
  rewrite validate_hcl_errors.
  assert (Hfixed : forall (c : bool) (msg : str),
             hd_error msg <> Some "r"%char ->
             In (missing_labels_error rl) (if c then [] else [msg]) -> False).
  { intros c msg Hm H. destruct c; [destruct H|].
    destruct H as [H | []]. rewrite H in Hm. apply Hm. reflexivity. }
  rewrite !in_app_iff. split.
  - intros [H | [H | [H | [H | H]]]].
    + exfalso. revert H. apply Hfixed. discriminate.
    + exfalso. revert H. apply Hfixed. discriminate.
    + exfalso. revert H. apply Hfixed. discriminate.
    + unfold label_errors, resource_lines in H.
      apply in_flat_map in H as (x & Hx & Hin).
      apply in_map_iff in Hx as (l & <- & Hl).
      apply filter_In in Hl as [Hl Hs].
      destruct (List.length (split (strip l)) <? 3) eqn:E3; [|destruct Hin].
      destruct Hin as [Hin | []]. apply missing_labels_error_inj in Hin.
      subst rl. exists l. apply Nat.ltb_lt in E3. auto.
    + exfalso. destruct (strip text); [|destruct H].
      destruct H as [H | []]. discriminate.
  - intros (l & Hl & -> & Hs & H3). right. right. right. left.
    unfold label_errors, resource_lines. apply in_flat_map.
    exists (strip l). split.
    + apply in_map, filter_In. auto.
    + apply Nat.ltb_lt in H3. rewrite H3. simpl. auto.
Qed.

Lemma validate_hcl_no_errors (text : str) :
  errors (validate_hcl text) = []
  <-> balanced text /\ strip text <> []
      /\ forall l, In l (splitlines text) ->
           startswith (strip l) (lit "resource") = true ->
           3 <= List.length (split (strip l)).
Proof.
  rewrite validate_hcl_errors, <- label_errors_nil. unfold balanced.
  destruct (Nat.eqb_spec (count text (lit "{")) (count text (lit "}"))) as [E1|E1];
    destruct (Nat.eqb_spec (count text (lit "[")) (count text (lit "]"))) as [E2|E2];
    destruct (Nat.eqb_spec (count text (lit "(")) (count text (lit ")"))) as [E3|E3];
    cbn [app]; try (split; [discriminate | intros ((? & ? & ?) & _); contradiction]).
  destruct (strip text) eqn:Es.
  - split.
    + intros H. apply app_eq_nil in H as [_ H]. discriminate.
    + intros (_ & H & _). congruence.
  - rewrite app_nil_r. split.
    + intros H. split; [repeat split; assumption|].
      split; [discriminate | exact H].
    + intros (_ & _ & H). exact H.
Qed.

(** C3, as amended. A text that passes the three balance checks, is not
    blank, contains a complete resource block, and in which every line
    that starts with [resource] has at least three fields, is valid and
    has no errors. *)
Theorem validate_hcl_accepts_wellformed (text : str) :
  balanced text ->
  strip text <> [] ->
  resource_matches text <> [] ->
  (forall l, In l (splitlines text) ->
     startswith (strip l) (lit "resource") = true ->
     3 <= List.length (split (strip l))) ->
  valid (validate_hcl text) = true /\ errors (validate_hcl text) = [].
Proof.
  intros Hb He _ Hl.
  assert (H : errors (validate_hcl text) = [])
    by (apply validate_hcl_no_errors; auto).
  split; [now apply validate_hcl_valid | exact H].
Qed.

Lemma validate_hcl_accepts_wellformed_witness :
  resource_matches NULL_HCL = [(lit "null_resource", lit "x", [])]
  /\ valid (validate_hcl NULL_HCL) = true
  /\ errors (validate_hcl NULL_HCL) = [].
Proof.
  split; [vm_compute; reflexivity|].
  apply (validate_hcl_accepts_wellformed NULL_HCL).
  - repeat split; vm_compute; reflexivity.
  - vm_compute. discriminate.
  - vm_compute. discriminate.
  - intros l Hl _. vm_compute in Hl. destruct Hl as [<- | []].
    vm_compute. lia.
Defined.

(** C3 as stated fails: a balanced text with one complete resource block
    and a second header that lacks a label is not valid. *)
Lemma validate_hcl_wellformed_counterexample :
  balanced ORPHAN_HCL
  /\ strip ORPHAN_HCL <> []
  /\ resource_matches ORPHAN_HCL = [(lit "null_resource", lit "x", [])]
  /\ valid (validate_hcl ORPHAN_HCL) = false
  /\ errors (validate_hcl ORPHAN_HCL)
     = [missing_labels_error (lit "resource " ++ quote_ (lit "orphan"))].
Proof.
  repeat split; try (vm_compute; reflexivity). vm_compute. discriminate.
Qed.

(** C4 at a line that is an attribute, not a block header: its first
    field is not the word [resource], yet the validator reports it as a
    resource block without labels and rejects the template. *)
Theorem validate_hcl_flags_attribute_line :
  let line := lit "resource_group_name=" ++ quote_ (lit "rg") in
  In (lit "  " ++ line) (splitlines ATTRIBUTE_HCL)
  /\ first_token (lit "  " ++ line) = Some line
  /\ first_token (lit "  " ++ line) <> Some (lit "resource")
  /\ errors (validate_hcl ATTRIBUTE_HCL) = [missing_labels_error line]
  /\ valid (validate_hcl ATTRIBUTE_HCL) = false.
Proof.
  repeat split; try (vm_compute; reflexivity).
  - vm_compute. auto.
  - vm_compute. discriminate.
Qed.

(** ** [export_plan] *)

Lemma join_cons (sep p : str) (rest : list str) :
  rest <> [] -> join sep (p :: rest) = p ++ sep ++ join sep rest.
Proof. destruct rest; [congruence | reflexivity]. Qed.

Lemma join_app (sep : str) (l1 l2 : list str) :
  l1 <> [] -> l2 <> [] ->
  join sep (l1 ++ l2) = join sep l1 ++ sep ++ join sep l2.
Proof.
  intros H1 H2. induction l1 as [|p l1 IH]; [congruence|].
  destruct l1 as [|q l1].
  - simpl app. rewrite join_cons by exact H2. reflexivity.
  - change ((p :: q :: l1) ++ l2) with (p :: ((q :: l1) ++ l2)).
    rewrite join_cons by discriminate.
    rewrite IH by discriminate.
    rewrite (join_cons sep p (q :: l1)) by discriminate.
    now rewrite <- !app_assoc.
Qed.

Lemma occurs_refl (s : str) : occurs s s.
Proof. exists [], []. now rewrite app_nil_r. Qed.

Lemma occurs_trans (a b c : str) : occurs a b -> occurs b c -> occurs a c.
Proof.
  intros (x & y & ->) (u & w & ->). exists (u ++ x), (y ++ w).
  now rewrite <- !app_assoc.
Qed.

Lemma occurs_join (sep : str) (l1 l2 l : list str) :
  l2 <> [] -> l = l1 ++ l2 -> occurs (join sep l2) (join sep l).
Proof.
  intros H2 ->. destruct l1 as [|p l1]; [apply occurs_refl|].
  rewrite join_app by (discriminate || exact H2).
  apply occurs_app_r, occurs_app_r, occurs_refl.
Qed.

Lemma occurs_join_prefix (sep : str) (l1 l2 : list str) :
  l1 <> [] -> occurs (join sep l1) (join sep (l1 ++ l2)).
Proof.
  intros H1. destruct l2 as [|p l2]; [rewrite app_nil_r; apply occurs_refl|].
  rewrite join_app by (discriminate || exact H1).
  apply occurs_app_l, occurs_refl.
Qed.

Lemma generate_tf_ok_inv (db db' : DB) (ref : str) (vars : dict pyval) (out : str) :
  generate_tf db ref vars = (Ok out, db') ->
  exists m, get_module db ref = Ok m.
Proof.
  unfold generate_tf. destruct (get_module db ref) as [m|e]; [eauto|].
  discriminate.
Qed.

Lemma join_plan_tail (rendered : str) :
  join newline (plan_tail rendered)
  = newline ++ rendered_label ++ newline ++ newline ++ rendered.
Proof. reflexivity. Qed.



(** ** [delete_module] *)

Lemma select_module_none (db : DB) (ref : str) :
  select_module db ref = None <-> forall r, In r db -> ~ matches_ref ref r.
Proof.
  unfold select_module, matches_ref. split.
  - intros H r Hr Hm.
    pose proof (find_none _ _ H r Hr) as Hf. simpl in Hf.
    apply orb_false_iff in Hf as [H1 H2].
    apply str_eqb_neq in H1, H2. tauto.
  - intros H. destruct (find _ db) as [r|] eqn:E; [|reflexivity].
    apply find_some in E as [Hr Hm]. exfalso. apply (H r Hr).
    apply orb_true_iff in Hm as [Hm | Hm]; apply str_eqb_eq in Hm; auto.
Qed.

Lemma get_module_not_found (db : DB) (ref : str) :
  select_module db ref = None -> get_module db ref = Raise (KeyError ref).
Proof. intros H. unfold get_module. now rewrite H. Qed.

(** C9, as amended. Deleting by a reference that matches no stored
    module answers [false] and leaves the store as it was. Deleting by a
    reference that resolves to a module answers [true] and removes the
    record of that module and no other; a later [get_module] by the same
    reference fails with [KeyError] provided no other stored record
    matches the reference. *)
Theorem delete_module_removes_record (db : DB) (ref : str) :
  (select_module db ref = None -> delete_module db ref = (Ok false, db))
  /\ (forall m, get_module db ref = Ok m ->
        fst (delete_module db ref) = Ok true
        /\ (forall r, In r (snd (delete_module db ref))
                      <-> In r db /\ row_id r <> mod_id m)
        /\ ((forall r, In r db -> matches_ref ref r -> row_id r = mod_id m) ->
            get_module (snd (delete_module db ref)) ref = Raise (KeyError ref))).
Proof.
  split.
  - intros H. unfold delete_module. now rewrite (get_module_not_found db ref H).
  - intros m Hget. unfold delete_module. rewrite Hget. simpl.
    split; [reflexivity|]. split.
    + intros r. rewrite filter_In, negb_true_iff, str_eqb_neq. reflexivity.
    + intros Hone. apply get_module_not_found, select_module_none.
      intros r Hr Hm. apply filter_In in Hr as [Hr Hid].
      apply negb_true_iff, str_eqb_neq in Hid. apply Hid. now apply Hone.
Qed.

Lemma delete_module_removes_record_witness :
  get_module sample_db (lit "gen_test") = Ok sample_module
  /\ delete_module sample_db (lit "gen_test") = (Ok true, [])
  /\ get_module [] (lit "gen_test") = Raise (KeyError (lit "gen_test")).
Proof.
  assert (Hget : get_module sample_db (lit "gen_test") = Ok sample_module)
    by (vm_compute; reflexivity).
  assert (Hdel : delete_module sample_db (lit "gen_test") = (Ok true, []))
    by (vm_compute; reflexivity).
  split; [exact Hget|]. split; [exact Hdel|].
  destruct (delete_module_removes_record sample_db (lit "gen_test")) as [_ H].
  destruct (H sample_module Hget) as (_ & _ & Hgone).
  rewrite Hdel in Hgone. apply Hgone.
  intros r Hr _. vm_compute in Hr. destruct Hr as [<- | []]. reflexivity.
Defined.

(** C9 as stated fails: when the name of one module is the identity of
    another, deleting by that reference removes one record and the
    reference still resolves to the other. *)
Lemma delete_module_counterexample :
  get_module shadow_db first_id = Ok first_module
  /\ fst (delete_module shadow_db first_id) = Ok true
  /\ get_module (snd (delete_module shadow_db first_id)) first_id
     = Ok second_module.
Proof. repeat split; vm_compute; reflexivity. Qed.

(** ** [bump_version] *)



(** ** Decimal numerals *)

Lemma lit_string_of_list (s : str) : lit (string_of_list_ascii s) = s.
Proof. apply list_ascii_of_string_of_list_ascii. Qed.

Lemma uint_of_digits_of_uint (d : Decimal.uint) :
  uint_of_digits (digits_of_uint d) = Some d.
Proof.
  unfold uint_of_digits, digits_of_uint, lit.
  rewrite string_of_list_ascii_of_string. apply NilEmpty.usu.
Qed.

Lemma digits_of_uint_digits (d : Decimal.uint) :
  Forall (fun c => is_digit c = true) (digits_of_uint d).
Proof.
  induction d; simpl; constructor; (reflexivity || assumption).
Qed.

Lemma digits_of_uint_nonnil (d : Decimal.uint) :
  d <> Decimal.Nil -> digits_of_uint d <> [].
Proof. unfold digits_of_uint, lit. destruct d; simpl; congruence. Qed.

Lemma str_of_Z_pos (p : positive) :
  str_of_Z (Zpos p) = digits_of_uint (Pos.to_uint p).
Proof.
  unfold str_of_Z, digits_of_uint. simpl Z.to_int.
  unfold NilZero.string_of_int, NilZero.string_of_uint.
  pose proof (Unsigned.to_uint_nonnil p) as H.
  destruct (Pos.to_uint p); [congruence | reflexivity ..].
Qed.

Lemma str_of_Z_neg (p : positive) :
  str_of_Z (Zneg p) = "-"%char :: digits_of_uint (Pos.to_uint p).
Proof.
  unfold str_of_Z, digits_of_uint. simpl Z.to_int.
  unfold NilZero.string_of_int, NilZero.string_of_uint.
  pose proof (Unsigned.to_uint_nonnil p) as H.
  destruct (Pos.to_uint p); [congruence | reflexivity ..].
Qed.

Lemma Z_of_uint_to_uint (p : positive) : Z.of_uint (Pos.to_uint p) = Zpos p.
Proof. unfold Z.of_uint. now rewrite Unsigned.of_to. Qed.

Lemma nzhead_not_D0 (d d' : Decimal.uint) :
  Decimal.nzhead d <> Decimal.D0 d'.
Proof. induction d; simpl; try discriminate. exact IHd. Qed.

(** A positive number is printed without a leading zero. *)
Lemma to_uint_head (p : positive) :
  exists c ds, digits_of_uint (Pos.to_uint p) = c :: ds
               /\ is_digit c = true /\ code c <> 48.
Proof.
  assert (Hnorm : Decimal.unorm (Pos.to_uint p) = Pos.to_uint p).
  { rewrite <- Unsigned.to_of, Unsigned.of_to. reflexivity. }
  pose proof (Unsigned.to_uint_nonnil p) as Hnil.
  pose proof (Unsigned.to_uint_nonzero p) as Hz.
  destruct (Pos.to_uint p) as [|d|d|d|d|d|d|d|d|d|d] eqn:E;
    try congruence;
    try (eexists; eexists; split; [reflexivity |
           split; [reflexivity | vm_compute; discriminate]]).
  exfalso. unfold Decimal.unorm in Hnorm. simpl in Hnorm.
  destruct (Decimal.nzhead d) eqn:En; try discriminate Hnorm.
  - apply Hz. congruence.
  - apply (nzhead_not_D0 d u En).
Qed.

Lemma span_digits_app (ds rest : str) :
  Forall (fun c => is_digit c = true) ds ->
  match rest with [] => True | c :: _ => is_digit c = false end ->
  span_digits (ds ++ rest) = (ds, rest).
Proof.
  intros Hd Hr. induction Hd as [|c ds Hc _ IH]; cbn [app span_digits].
  - destruct rest as [|c rest]; [reflexivity|]. cbn [span_digits]. now rewrite Hr.
  - now rewrite Hc, IH.
Qed.

Lemma ends_number_digit (rest : str) :
  ends_number rest = true ->
  match rest with [] => True | c :: _ => is_digit c = false end.
Proof.
  destruct rest as [|c rest]; [trivial|]. unfold ends_number.
  intros H. apply andb_true_iff in H as [H _]. now apply negb_true_iff.
Qed.

Lemma ends_number_fraction (rest : str) :
  ends_number rest = true -> starts_fraction rest = false.
Proof.
  destruct rest as [|c rest]; [reflexivity|]. unfold ends_number.
  intros H. apply andb_true_iff in H as [_ H]. now apply negb_true_iff.
Qed.

Lemma parse_number_digits (p : positive) (rest : str) :
  ends_number rest = true ->
  parse_number (digits_of_uint (Pos.to_uint p) ++ rest) = Some (Zpos p, rest).
Proof.
  intros Hr. destruct (to_uint_head p) as (c & ds & E & Hc & H0).
  pose proof (digits_of_uint_digits (Pos.to_uint p)) as Hd.
  pose proof (span_digits_app _ rest Hd (ends_number_digit rest Hr)) as Hs.
  pose proof (uint_of_digits_of_uint (Pos.to_uint p)) as Hu.
  rewrite E in *. unfold parse_number.
  change ((c :: ds) ++ rest) with (c :: (ds ++ rest)) in *.
  assert (H45 : (code c =? 45) = false).
  { unfold is_digit in Hc. apply andb_true_iff in Hc as [H1 H2].
    apply Nat.leb_le in H1. apply Nat.eqb_neq. lia. }
  cbv beta iota. rewrite H45. apply Nat.eqb_neq in H0. rewrite H0, Hs.
  rewrite (ends_number_fraction rest Hr), Hu.
  now rewrite Z_of_uint_to_uint.
Qed.

Lemma parse_number_minus (c : ascii) (t : str) (z : Z) (r : str) :
  (code c =? 45) = false ->
  parse_number (c :: t) = Some (z, r) ->
  parse_number ("-"%char :: c :: t) = Some (Z.opp z, r).
Proof.
  intros H45. unfold parse_number.
  change (code "-"%char =? 45) with true. cbv beta iota. rewrite H45.
  destruct (code c =? 48).
  - destruct (starts_fraction t); [congruence|].
    destruct (uint_of_digits [c]); [|congruence].
    intros H; inversion H; reflexivity.
  - destruct (span_digits (c :: t)) as [ds r0].
    destruct ds as [|x ds]; [congruence|].
    destruct (starts_fraction r0); [congruence|].
    destruct (uint_of_digits (x :: ds)); [|congruence].
    intros H; inversion H; reflexivity.
Qed.

Lemma parse_number_str_of_Z (z : Z) (rest : str) :
  ends_number rest = true ->
  parse_number (str_of_Z z ++ rest) = Some (z, rest).
Proof.
  intros Hr. destruct z as [|p|p].
  - change (str_of_Z 0) with (lit "0"). unfold parse_number. simpl.
    now rewrite (ends_number_fraction rest Hr).
  - rewrite str_of_Z_pos. now apply parse_number_digits.
  - rewrite str_of_Z_neg.
    pose proof (parse_number_digits p rest Hr) as H.
    destruct (to_uint_head p) as (c & ds & E & Hc & H0).
    rewrite E in *.
    change ((c :: ds) ++ rest) with (c :: (ds ++ rest)) in *.
    change (("-"%char :: c :: ds) ++ rest) with ("-"%char :: c :: (ds ++ rest)).
    apply (parse_number_minus c (ds ++ rest) (Zpos p) rest); [|exact H].
    unfold is_digit in Hc. apply andb_true_iff in Hc as [H1 H2].
    apply Nat.leb_le in H1. apply Nat.eqb_neq. lia.
Qed.

(** ** The JSON columns read back what was written *)

Lemma scanstring_escape_char (c : ascii) (rest : str) :
  scanstring (escape_char c ++ rest) = cons_fst c (scanstring rest).
Proof.
  destruct c as [b0 b1 b2 b3 b4 b5 b6 b7].
  destruct b0, b1, b2, b3, b4, b5, b6, b7; reflexivity.
Qed.

Lemma scanstring_escaped (s rest : str) :
  scanstring (flat_map escape_char s ++ dquote :: rest) = Some (s, rest).
Proof.
  induction s as [|c s IH]; [reflexivity|].
  cbn [flat_map]. rewrite <- app_assoc, scanstring_escape_char, IH.
  reflexivity.
Qed.

Lemma dumps_str_cons (s rest : str) :
  dumps_str s ++ rest = dquote :: flat_map escape_char s ++ dquote :: rest.
Proof. unfold dumps_str. simpl. now rewrite <- app_assoc. Qed.

Lemma str_of_Z_head (z : Z) :
  exists c ds, str_of_Z z = c :: ds /\ (is_digit c || (code c =? 45)) = true.
Proof.
  destruct z as [|p|p].
  - exists "0"%char, []. split; reflexivity.
  - rewrite str_of_Z_pos. destruct (to_uint_head p) as (c & ds & E & Hc & _).
    exists c, ds. split; [exact E|]. now rewrite Hc.
  - rewrite str_of_Z_neg. eexists; eexists. split; reflexivity.
Qed.

Lemma parse_scalar_number (c : ascii) (t : str) :
  (is_digit c || (code c =? 45)) = true ->
  parse_scalar (c :: t)
  = match parse_number (c :: t) with
    | Some (z, r) => Some (PInt z, r)
    | None => None
    end.
Proof.
  intros H. unfold parse_scalar.
  assert (Hn : (code c =? 34) = false /\ (code c =? 110) = false
               /\ (code c =? 116) = false /\ (code c =? 102) = false).
  { apply orb_true_iff in H as [H | H].
    - unfold is_digit in H. apply andb_true_iff in H as [H1 H2].
      apply Nat.leb_le in H1, H2.
      repeat split; apply Nat.eqb_neq; lia.
    - apply Nat.eqb_eq in H. rewrite H. repeat split; reflexivity. }
  destruct Hn as (-> & -> & -> & ->). reflexivity.
Qed.

Lemma parse_scalar_dumps (v : pyval) (rest : str) :
  ends_number rest = true ->
  parse_scalar (dumps_scalar v ++ rest) = Some (v, rest).
Proof.
  intros Hr. destruct v as [|[|]|z|s].
  - reflexivity.
  - reflexivity.
  - reflexivity.
  - simpl dumps_scalar. destruct (str_of_Z_head z) as (c & ds & E & Hc).
    pose proof (parse_number_str_of_Z z rest Hr) as Hp.
    rewrite E in *. change ((c :: ds) ++ rest) with (c :: (ds ++ rest)) in *.
    rewrite parse_scalar_number by exact Hc. now rewrite Hp.
  - simpl dumps_scalar. rewrite dumps_str_cons. unfold parse_scalar.
    change (code dquote =? 34) with true. cbv iota.
    now rewrite scanstring_escaped.
Qed.

Lemma dumps_scalar_head (v : pyval) :
  exists c t, dumps_scalar v = c :: t /\ json_ws c = false
              /\ (code c =? 123) = false /\ (code c =? 125) = false
              /\ (code c =? 93) = false.
Proof.
  destruct v as [|[|]|z|s]; simpl dumps_scalar;
    try (eexists; eexists; split; [reflexivity | repeat split; reflexivity]).
  - destruct (str_of_Z_head z) as (c & ds & E & Hc). exists c, ds.
    split; [exact E|].
    assert (H : 45 <= code c <= 57).
    { apply orb_true_iff in Hc as [H | H].
      - unfold is_digit in H. apply andb_true_iff in H as [H1 H2].
        apply Nat.leb_le in H1, H2. lia.
      - apply Nat.eqb_eq in H. lia. }
    unfold json_ws. repeat split; try (apply Nat.eqb_neq; lia).
    repeat (apply orb_false_iff; split); apply Nat.eqb_neq; lia.
Qed.

Lemma skip_ws_nonws (c : ascii) (s : str) :
  json_ws c = false -> skip_ws (c :: s) = c :: s.
Proof. intros H. simpl. now rewrite H. Qed.

Lemma join_pairs_head (ps : list (str * pyval)) (rest : str) :
  ps <> [] ->
  exists t, join (lit ", ") (map dumps_pair ps) ++ rest = dquote :: t.
Proof.
  destruct ps as [|kv ps]; [congruence|]. intros _. cbn [map].
  destruct (map dumps_pair ps).
  - cbn [join]. unfold dumps_pair. rewrite <- !app_assoc, dumps_str_cons. eauto.
  - rewrite join_cons by discriminate.
    unfold dumps_pair. rewrite <- !app_assoc, dumps_str_cons. eauto.
Qed.

Lemma parse_pairs_dumps (ps : list (str * pyval)) :
  ps <> [] ->
  forall fuel rest, List.length ps <= fuel ->
  parse_pairs fuel
    (join (lit ", ") (map dumps_pair ps) ++ "}"%char :: rest)
  = Some (ps, rest).
Proof.
  induction ps as [|[k v] ps IH]; [congruence|]. intros _ fuel rest Hf.
  destruct fuel as [|fuel]; [simpl in Hf; lia|].
  destruct (dumps_scalar_head v) as (c & t & Ev & Hws & _).
  destruct ps as [|kv ps].
  - cbn [map join]. unfold dumps_pair. cbn [fst snd].
    rewrite <- !app_assoc, dumps_str_cons.
    cbn [parse_pairs]. change (code dquote =? 34) with true. cbv iota.
    rewrite scanstring_escaped.
    change (lit ": " ++ dumps_scalar v ++ "}"%char :: rest)
      with (":"%char :: " "%char :: (dumps_scalar v ++ "}"%char :: rest)).
    rewrite skip_ws_nonws by reflexivity.
    change (code ":"%char =? 58) with true. cbv iota.
    assert (Hskip : skip_ws (" "%char :: (dumps_scalar v ++ "}"%char :: rest))
                    = dumps_scalar v ++ "}"%char :: rest).
    { rewrite Ev. simpl. now rewrite Hws. }
    rewrite Hskip, parse_scalar_dumps by reflexivity.
    reflexivity.
  - set (more := kv :: ps) in *.
    assert (Hmore : more <> []) by (unfold more; discriminate).
    change (map dumps_pair ((k, v) :: more))
      with (dumps_pair (k, v) :: map dumps_pair more).
    rewrite join_cons by (unfold more; discriminate).
    unfold dumps_pair at 1. cbn [fst snd].
    rewrite <- !app_assoc, dumps_str_cons.
    cbn [parse_pairs]. change (code dquote =? 34) with true. cbv iota.
    rewrite scanstring_escaped.
    change (lit ": " ++ dumps_scalar v ++ lit ", "
            ++ join (lit ", ") (map dumps_pair more) ++ "}"%char :: rest)
      with (":"%char :: " "%char ::
            (dumps_scalar v ++ ","%char :: " "%char ::
             (join (lit ", ") (map dumps_pair more) ++ "}"%char :: rest))).
    rewrite skip_ws_nonws by reflexivity.
    change (code ":"%char =? 58) with true. cbv iota.
    assert (Hskip :
      skip_ws (" "%char ::
               (dumps_scalar v ++ ","%char :: " "%char ::
                (join (lit ", ") (map dumps_pair more) ++ "}"%char :: rest)))
      = dumps_scalar v ++ ","%char :: " "%char ::
        (join (lit ", ") (map dumps_pair more) ++ "}"%char :: rest)).
    { rewrite Ev. simpl. now rewrite Hws. }
    rewrite Hskip, parse_scalar_dumps by reflexivity.
    rewrite skip_ws_nonws by reflexivity.
    change (code ","%char =? 125) with false.
    change (code ","%char =? 44) with true. cbv iota.
    assert (Hskip2 :
      skip_ws (" "%char ::
               (join (lit ", ") (map dumps_pair more) ++ "}"%char :: rest))
      = join (lit ", ") (map dumps_pair more) ++ "}"%char :: rest).
    { destruct (join_pairs_head more ("}"%char :: rest) Hmore) as [t' Et].
      rewrite Et. reflexivity. }
    rewrite Hskip2, (IH Hmore fuel rest) by (simpl in Hf; unfold more; simpl; lia).
    reflexivity.
Qed.

Lemma dict_set_new {V} (d : dict V) (k : str) (v : V) :
  dict_get d k = None -> dict_set d k v = d ++ [(k, v)].
Proof.
  induction d as [|[k' v'] d IH]; simpl; [reflexivity|].
  destruct (str_eqb k' k); [discriminate|]. intros H. now rewrite IH.
Qed.

Lemma dict_update_app {V} (acc r : dict V) :
  NoDup (dict_keys acc ++ dict_keys r) -> dict_update acc r = acc ++ r.
Proof.
  unfold dict_update. revert acc.
  induction r as [|[k v] r IH]; intros acc H; simpl.
  - now rewrite app_nil_r.
  - assert (Hk : dict_get acc k = None).
    { apply dict_get_none_iff. intros Hin.
      apply NoDup_remove_2 in H. apply H. apply in_or_app. now left. }
    rewrite dict_set_new by exact Hk. rewrite IH.
    + now rewrite <- app_assoc.
    + unfold dict_keys in *. rewrite map_app. simpl.
      rewrite <- app_assoc. exact H.
Qed.

Lemma dict_of_pairs_wf {V} (r : dict V) : dict_wf r -> dict_of_pairs r = r.
Proof. intros H. unfold dict_of_pairs. now rewrite dict_update_app. Qed.

Lemma parse_item_dumps (i : jitem) (fuel : nat) (rest : str) :
  item_wf i -> item_size i <= fuel -> ends_number rest = true ->
  parse_item fuel (dumps_item i ++ rest) = Some (i, rest).
Proof.
  intros Hwf Hf Hr. destruct i as [v | r].
  - simpl dumps_item.
    destruct (dumps_scalar_head v) as (c & t & Ev & _ & H123 & _).
    pose proof (parse_scalar_dumps v rest Hr) as Hp.
    rewrite Ev in *. change ((c :: t) ++ rest) with (c :: (t ++ rest)) in *.
    unfold parse_item. rewrite H123, Hp. reflexivity.
  - simpl dumps_item. unfold dumps_record.
    rewrite <- !app_assoc.
    change (lit "{" ++ join (lit ", ") (map dumps_pair r) ++ lit "}" ++ rest)
      with ("{"%char :: (join (lit ", ") (map dumps_pair r) ++ "}"%char :: rest)).
    unfold parse_item. change (code "{"%char =? 123) with true. cbv iota.
    destruct r as [|kv r]; [reflexivity|].
    assert (Hne : kv :: r <> []) by discriminate.
    destruct (join_pairs_head (kv :: r) ("}"%char :: rest) Hne) as [t Et].
    pose proof (parse_pairs_dumps (kv :: r) Hne fuel rest Hf) as Hp.
    rewrite Et in *. rewrite skip_ws_nonws by reflexivity.
    change (code dquote =? 125) with false. cbv iota.
    rewrite Hp. simpl in Hwf. now rewrite dict_of_pairs_wf.
Qed.

Lemma dumps_item_head (i : jitem) (rest : str) :
  exists c t, dumps_item i ++ rest = c :: t /\ json_ws c = false
              /\ (code c =? 93) = false.
Proof.
  destruct i as [v | r].
  - destruct (dumps_scalar_head v) as (c & t & Ev & Hws & _ & _ & H93).
    exists c, (t ++ rest). simpl dumps_item. rewrite Ev. auto.
  - exists "{"%char. eexists. split; [reflexivity|]. split; reflexivity.
Qed.

Lemma join_items_head (l : list jitem) (rest : str) :
  l <> [] ->
  exists c t, join (lit ", ") (map dumps_item l) ++ rest = c :: t
              /\ json_ws c = false /\ (code c =? 93) = false.
Proof.
  destruct l as [|i l]; [congruence|]. intros _. cbn [map].
  destruct (map dumps_item l).
  - cbn [join]. apply dumps_item_head.
  - rewrite join_cons by discriminate. rewrite <- app_assoc.
    apply dumps_item_head.
Qed.

Lemma parse_items_dumps (l : list jitem) :
  l <> [] ->
  forall fuel rest,
    (forall i, In i l -> item_wf i /\ item_size i + List.length l <= fuel) ->
    parse_items fuel (join (lit ", ") (map dumps_item l) ++ "]"%char :: rest)
    = Some (l, rest).
Proof.
  induction l as [|i l IH]; [congruence|]. intros _ fuel rest H.
  destruct (H i (or_introl eq_refl)) as [Hwf Hsz].
  destruct fuel as [|fuel]; [simpl in Hsz; lia|].
  destruct l as [|j l].
  - cbn [map join parse_items].
    rewrite parse_item_dumps;
      [| exact Hwf | cbn [List.length] in Hsz; lia | reflexivity].
    rewrite skip_ws_nonws by reflexivity. reflexivity.
  - set (more := j :: l) in *.
    assert (Hmore : more <> []) by (unfold more; discriminate).
    change (map dumps_item (i :: more))
      with (dumps_item i :: map dumps_item more).
    rewrite join_cons by (unfold more; discriminate).
    rewrite <- !app_assoc.
    change (lit ", " ++ join (lit ", ") (map dumps_item more) ++ "]"%char :: rest)
      with (","%char :: " "%char ::
            (join (lit ", ") (map dumps_item more) ++ "]"%char :: rest)).
    cbn [parse_items].
    rewrite parse_item_dumps;
      [| exact Hwf | cbn [List.length] in Hsz; lia | reflexivity].
    rewrite skip_ws_nonws by reflexivity.
    change (code ","%char =? 93) with false.
    change (code ","%char =? 44) with true. cbv iota.
    assert (Hskip :
      skip_ws (" "%char ::
               (join (lit ", ") (map dumps_item more) ++ "]"%char :: rest))
      = join (lit ", ") (map dumps_item more) ++ "]"%char :: rest).
    { destruct (join_items_head more ("]"%char :: rest) Hmore)
        as (c & t & Et & Hws & _).
      rewrite Et. simpl. now rewrite Hws. }
    rewrite Hskip, (IH Hmore fuel rest); [reflexivity|].
    intros x Hx. destruct (H x (or_intror Hx)) as [Hxw Hxs].
    split; [exact Hxw|]. cbn [List.length] in Hxs. lia.
Qed.

(** The text is long enough to be its own fuel. *)
Lemma join_length (sep : str) (l : list str) :
  list_sum (map (@List.length ascii) l) <= List.length (join sep l).
Proof.
  induction l as [|p l IH]; [simpl; lia|].
  destruct l as [|q l].
  - simpl. lia.
  - rewrite join_cons by discriminate. rewrite !length_app.
    unfold list_sum in *. cbn [map fold_right] in *. lia.
Qed.

Lemma dumps_item_length (i : jitem) :
  item_size i + 1 <= List.length (dumps_item i).
Proof.
  destruct i as [v | r].
  - destruct (dumps_scalar_head v) as (c & t & Ev & _). simpl. rewrite Ev.
    simpl. lia.
  - cbn [item_size dumps_item]. unfold dumps_record. rewrite !length_app.
    change (List.length (lit "{")) with 1. change (List.length (lit "}")) with 1.
    pose proof (join_length (lit ", ") (map dumps_pair r)) as H.
    assert (List.length r <= list_sum (map (@List.length ascii) (map dumps_pair r))).
    { clear H. induction r as [|kv r IH]; [simpl; lia|].
      unfold list_sum in *. cbn [map fold_right List.length].
      unfold dumps_pair at 1, dumps_str. rewrite !length_app.
      cbn [List.length]. lia. }
    lia.
Qed.

Lemma items_fuel (l : list jitem) (i : jitem) :
  In i l ->
  item_size i + List.length l
  <= list_sum (map (@List.length ascii) (map dumps_item l)).
Proof.
  induction l as [|j l IH]; intros Hin; [destruct Hin|].
  unfold list_sum in *. cbn [map fold_right List.length].
  pose proof (dumps_item_length j) as Hj.
  destruct Hin as [-> | Hin].
  - assert (List.length l <= list_sum (map (@List.length ascii) (map dumps_item l))).
    { clear. unfold list_sum. induction l as [|x l IH]; [simpl; lia|].
      cbn [map fold_right List.length]. pose proof (dumps_item_length x). lia. }
    unfold list_sum in H. lia.
  - specialize (IH Hin). lia.
Qed.

(** [json.loads(json.dumps(l)) == l] when the keys of every record are
    distinct. *)
Lemma json_loads_dumps (l : list jitem) :
  (forall i, In i l -> item_wf i) -> json_loads (json_dumps l) = Some l.
Proof.
  intros Hwf. unfold json_dumps.
  change (lit "[" ++ join (lit ", ") (map dumps_item l) ++ lit "]")
    with ("["%char :: (join (lit ", ") (map dumps_item l) ++ ["]"%char])).
  unfold json_loads. rewrite skip_ws_nonws by reflexivity.
  change (code "["%char =? 91) with true. cbv iota.
  destruct l as [|i l]; [reflexivity|].
  assert (Hne : i :: l <> []) by discriminate.
  destruct (join_items_head (i :: l) ["]"%char] Hne) as (c & t & Et & Hws & H93).
  pose proof (parse_items_dumps (i :: l) Hne
                (S (List.length ("["%char :: c :: t))) []) as Hp.
  rewrite Et in *. rewrite skip_ws_nonws by exact Hws. rewrite H93.
  rewrite Hp; [reflexivity|].
  intros x Hx. split; [now apply Hwf|].
  pose proof (items_fuel (i :: l) x Hx) as H1.
  pose proof (join_length (lit ", ") (map dumps_item (i :: l))) as H2.
  assert (H3 : List.length (c :: t)
               = List.length (join (lit ", ") (map dumps_item (i :: l))) + 1).
  { rewrite <- Et, length_app. reflexivity. }
  simpl List.length in *. lia.
Qed.

Lemma variable_of_asdict (v : TerraformVariable) :
  variable_of_dict (asdict_variable v) = Some v.
Proof. destruct v. reflexivity. Qed.

Lemma output_of_asdict (o : TerraformOutput) :
  output_of_dict (asdict_output o) = Some o.
Proof. destruct o. reflexivity. Qed.

Lemma example_of_asdict (e : TerraformExample) :
  example_of_dict (asdict_example e) = Some e.
Proof. destruct e. reflexivity. Qed.

Ltac distinct_keys :=
  unfold dict_wf; simpl; repeat constructor; simpl; intuition discriminate.

Lemma asdict_variable_wf (v : TerraformVariable) : dict_wf (asdict_variable v).
Proof. distinct_keys. Qed.

Lemma asdict_output_wf (o : TerraformOutput) : dict_wf (asdict_output o).
Proof. distinct_keys. Qed.

Lemma asdict_example_wf (e : TerraformExample) : dict_wf (asdict_example e).
Proof. distinct_keys. Qed.

Lemma traverse_map {A B C} (f : B -> option C) (g : A -> B) (h : A -> C)
  (l : list A) :
  (forall x, f (g x) = Some (h x)) -> traverse f (map g l) = Some (map h l).
Proof.
  intros H. induction l as [|x l IH]; [reflexivity|].
  simpl. now rewrite H, IH.
Qed.

Lemma or_empty_array_dumps (l : list jitem) :
  or_empty_array (json_dumps l) = json_dumps l.
Proof. reflexivity. Qed.

Lemma load_dumps {A} (asdict : A -> dict pyval)
  (cls : dict pyval -> option A) (l : list A) :
  (forall x, dict_wf (asdict x)) ->
  (forall x, cls (asdict x) = Some x) ->
  load (json_dumps (map (fun x => JRecord (asdict x)) l)) cls = Some l.
Proof.
  intros Hwf Hcls. unfold load.
  rewrite or_empty_array_dumps, json_loads_dumps.
  - rewrite (traverse_map _ _ (fun x => x)).
    + now rewrite map_id.
    + intros x. simpl. apply Hcls.
  - intros i Hi. apply in_map_iff in Hi as (x & <- & _). apply Hwf.
Qed.

Lemma tags_dumps (tags : list str) :
  (let? raw := json_loads
                 (or_empty_array
                    (json_dumps (map (fun t => JScalar (PStr t)) tags))) in
   traverse string_of_item raw) = Some tags.
Proof.
  rewrite or_empty_array_dumps, json_loads_dumps.
  - rewrite (traverse_map _ _ (fun x => x)); [now rewrite map_id | reflexivity].
  - intros i Hi. apply in_map_iff in Hi as (x & <- & _). exact I.
Qed.

(** A module written by [_save] reads back unchanged. *)
Lemma _row_to_module_of_module (m : TerraformModule) :
  _row_to_module (row_of_module m) = Ok m.
Proof.
  unfold _row_to_module, row_of_module.
  cbn [row_variables row_outputs row_examples row_tags row_id row_name
       row_provider row_resource_type row_version row_description
       row_hcl_template row_created_at row_download_count].
  rewrite (load_dumps asdict_variable variable_of_dict)
    by (apply asdict_variable_wf || apply variable_of_asdict).
  rewrite (load_dumps asdict_output output_of_dict)
    by (apply asdict_output_wf || apply output_of_asdict).
  rewrite (load_dumps asdict_example example_of_dict)
    by (apply asdict_example_wf || apply example_of_asdict).
  rewrite tags_dumps. destruct m. reflexivity.
Qed.

Lemma select_module_app_fresh (db : DB) (row : Row) (ref : str) :
  (forall r, In r db -> ~ matches_ref ref r) ->
  row_id row = ref ->
  select_module (db ++ [row]) ref = Some row.
Proof.
  intros Hfresh Hid. unfold select_module.
  induction db as [|r db IH]; simpl.
  - rewrite Hid, str_eqb_refl. reflexivity.
  - assert (Hr : ~ matches_ref ref r) by (apply Hfresh; simpl; auto).
    unfold matches_ref in Hr.
    destruct (str_eqb (row_id r) ref) eqn:E1;
      [apply str_eqb_eq in E1; tauto|].
    destruct (str_eqb (row_name r) ref) eqn:E2;
      [apply str_eqb_eq in E2; tauto|].
    simpl. apply IH. intros r' Hr'. apply Hfresh. simpl. auto.
Qed.

Lemma _save_fresh (db db' : DB) (m : TerraformModule) :
  (forall r, In r db -> row_id r <> mod_id m) ->
  _save db m = Ok db' -> db' = db ++ [row_of_module m].
Proof.
  intros Hfresh. unfold _save.
  destruct (existsb _ db); [discriminate|].
  destruct (existsb (fun r => str_eqb (row_id r) (row_id (row_of_module m))) db)
    eqn:E.
  - apply existsb_exists in E as (r & Hr & E). apply str_eqb_eq in E.
    elim (Hfresh r Hr). exact E.
  - intros H; inversion H; reflexivity.
Qed.



(** ** Versions in canonical form *)

Lemma lstrip_with_noop (p : ascii -> bool) (s : str) :
  Forall (fun c => p c = false) s -> lstrip_with p s = s.
Proof. intros H. destruct H as [|c s Hc _]; simpl; [reflexivity | now rewrite Hc]. Qed.

Lemma strip_with_noop (p : ascii -> bool) (s : str) :
  Forall (fun c => p c = false) s -> strip_with p s = s.
Proof.
  intros H. unfold strip_with. rewrite (lstrip_with_noop p s H).
  rewrite lstrip_with_noop by now apply Forall_rev.
  apply rev_involutive.
Qed.

Lemma digit_not_int_space (c : ascii) : is_digit c = true -> int_space c = false.
Proof.
  unfold is_digit, int_space. intros H. apply andb_true_iff in H as [H1 H2].
  apply Nat.leb_le in H1, H2.
  repeat (apply orb_false_iff; split);
    try (apply andb_false_iff; right; apply Nat.leb_gt; lia);
    apply Nat.eqb_neq; lia.
Qed.

Lemma int_digits_all (ds : str) (after_digit : bool) :
  Forall (fun c => is_digit c = true) ds ->
  ds <> [] \/ after_digit = true ->
  int_digits after_digit ds = Some ds.
Proof.
  intros H. revert after_digit. induction H as [|c ds Hc _ IH]; intros b Hb.
  - destruct Hb as [Hb | ->]; [congruence | reflexivity].
  - cbn [int_digits]. rewrite Hc, IH by (right; reflexivity). reflexivity.
Qed.

Lemma int_magnitude_digits (p : positive) :
  int_magnitude (digits_of_uint (Pos.to_uint p)) = Some (Zpos p).
Proof.
  unfold int_magnitude. rewrite int_digits_all.
  - rewrite uint_of_digits_of_uint. simpl. now rewrite Z_of_uint_to_uint.
  - apply digits_of_uint_digits.
  - left. apply digits_of_uint_nonnil, Unsigned.to_uint_nonnil.
Qed.

Lemma py_int_str_of_Z (z : Z) : py_int (str_of_Z z) = Some z.
Proof.
  destruct z as [|p|p].
  - reflexivity.
  - rewrite str_of_Z_pos. unfold py_int.
    rewrite strip_with_noop.
    + destruct (to_uint_head p) as (c & ds & E & Hc & _).
      pose proof (int_magnitude_digits p) as Hm. rewrite E in *.
      unfold is_digit in Hc. apply andb_true_iff in Hc as [H1 H2].
      apply Nat.leb_le in H1, H2.
      replace (code c =? 45) with false by (symmetry; apply Nat.eqb_neq; lia).
      replace (code c =? 43) with false by (symmetry; apply Nat.eqb_neq; lia).
      exact Hm.
    + eapply Forall_impl; [|apply digits_of_uint_digits].
      intros c. apply digit_not_int_space.
  - rewrite str_of_Z_neg. unfold py_int.
    rewrite strip_with_noop.
    + change (code "-"%char =? 45) with true. cbv iota.
      now rewrite int_magnitude_digits.
    + constructor; [reflexivity|].
      eapply Forall_impl; [|apply digits_of_uint_digits].
      intros c. apply digit_not_int_space.
Qed.

Lemma str_of_Z_no_dot (z : Z) :
  Forall (fun c => Ascii.eqb c "."%char = false) (str_of_Z z).
Proof.
  assert (Hd : forall d,
    Forall (fun c => Ascii.eqb c "."%char = false) (digits_of_uint d)).
  { intros d. eapply Forall_impl; [|apply digits_of_uint_digits].
    intros c Hc. apply Ascii.eqb_neq. intros ->. discriminate. }
  destruct z as [|p|p].
  - repeat constructor.
  - rewrite str_of_Z_pos. apply Hd.
  - rewrite str_of_Z_neg. constructor; [reflexivity | apply Hd].
Qed.

Lemma split_on_from_field (sep : ascii) (a cur rest : str) :
  Forall (fun c => Ascii.eqb c sep = false) a ->
  split_on_from sep cur (a ++ sep :: rest)
  = (rev cur ++ a) :: split_on_from sep [] rest.
Proof.
  intros H. revert cur. induction H as [|c a Hc _ IH]; intros cur.
  - simpl. rewrite Ascii.eqb_refl, app_nil_r. reflexivity.
  - cbn [app split_on_from]. rewrite Hc, IH. simpl. now rewrite <- app_assoc.
Qed.

Lemma split_on_from_last (sep : ascii) (a cur : str) :
  Forall (fun c => Ascii.eqb c sep = false) a ->
  split_on_from sep cur a = [rev cur ++ a].
Proof.
  intros H. revert cur. induction H as [|c a Hc _ IH]; intros cur.
  - simpl. now rewrite app_nil_r.
  - cbn [split_on_from]. rewrite Hc, IH. simpl. now rewrite <- app_assoc.
Qed.

(** Every version in canonical form is read as its three numbers. *)
Lemma parse_version_format (major minor patch : Z) :
  parse_version (format_version major minor patch)
  = Some (major, minor, patch).
Proof.
  unfold parse_version, format_version, split_on.
  change (lit ".") with ["."%char]. cbn [app].
  rewrite split_on_from_field by apply str_of_Z_no_dot.
  rewrite split_on_from_field by apply str_of_Z_no_dot.
  rewrite split_on_from_last by apply str_of_Z_no_dot.
  cbn [rev app]. now rewrite !py_int_str_of_Z.
Qed.

(** * Further properties of the registry *)

(** ** Registration *)

Lemma provider_known_iff (provider : str) :
  existsb (str_eqb provider) PROVIDERS = true <-> In provider PROVIDERS.
Proof.
  rewrite existsb_exists. split.
  - intros (p & Hp & E). apply str_eqb_eq in E. now subst.
  - intros H. exists provider. split; [exact H | apply str_eqb_refl].
Qed.

Lemma name_taken_iff (db : DB) (m : TerraformModule) :
  existsb (fun r => str_eqb (row_name r) (row_name (row_of_module m))
                    && negb (str_eqb (row_id r) (row_id (row_of_module m)))) db
  = false
  <-> forall r, In r db -> row_name r = mod_name m -> row_id r = mod_id m.
Proof.
  split.
  - intros H r Hr Hn. destruct (str_eqb (row_id r) (mod_id m)) eqn:E;
      [now apply str_eqb_eq|].
    assert (Hex : existsb (fun r => str_eqb (row_name r) (row_name (row_of_module m))
                    && negb (str_eqb (row_id r) (row_id (row_of_module m)))) db
                  = true).
    { apply existsb_exists. exists r. split; [exact Hr|].
      simpl. rewrite E, Hn, str_eqb_refl. reflexivity. }
    congruence.
  - intros H. destruct (existsb _ db) eqn:E; [|reflexivity].
    apply existsb_exists in E as (r & Hr & E).
    apply andb_true_iff in E as [E1 E2]. apply str_eqb_eq in E1.
    apply negb_true_iff, str_eqb_neq in E2. simpl in E1, E2.
    elim E2. now apply H.
Qed.

Lemma _save_ok_iff (db : DB) (m : TerraformModule) :
  (exists db', _save db m = Ok db')
  <-> forall r, In r db -> row_name r = mod_name m -> row_id r = mod_id m.
Proof.
  rewrite <- name_taken_iff. unfold _save.
  destruct (existsb _ db) eqn:E.
  - split; [intros [db' H]; discriminate | discriminate].
  - split; [reflexivity|]. intros _.
    destruct (existsb (fun r => str_eqb (row_id r) (row_id (row_of_module m))) db);
      eexists; reflexivity.
Qed.

Lemma _save_error (db : DB) (m : TerraformModule) (e : error) :
  _save db m = Raise e -> e = IntegrityError.
Proof.
  unfold _save. destruct (existsb _ db); [congruence|].
  destruct (existsb (fun r => str_eqb (row_id r) (row_id (row_of_module m))) db);
    discriminate.
Qed.

(** X1. [register_module] succeeds exactly when the provider is one of the
    six known ones, the template passes [validate_hcl], and no stored
    record of another identity has the name. An unknown provider is
    reported before the template is looked at; every failure leaves the
    table as it was; the module returned on success has the supplied
    fields, the generated identity and a download count of zero. *)
Theorem register_module_outcome
  (db : DB) (new_id now name provider resource_type hcl_template : str)
  (variables : list TerraformVariable) (outputs : list TerraformOutput)
  (description : str) (examples : list TerraformExample) (tags : list str)
  (version : str) :
  let res := register_module db new_id now name provider resource_type
               hcl_template variables outputs description examples tags
               version in
  ((exists m, fst res = Ok m)
   <-> In provider PROVIDERS
       /\ valid (validate_hcl hcl_template) = true
       /\ forall r, In r db -> row_name r = name -> row_id r = new_id)
  /\ (~ In provider PROVIDERS ->
      res = (Raise (ValueError_UnknownProvider provider), db))
  /\ (In provider PROVIDERS -> valid (validate_hcl hcl_template) = false ->
      res = (Raise (ValueError_InvalidTemplate (validate_hcl hcl_template)), db))
  /\ (forall e, fst res = Raise e -> snd res = db)
  /\ (forall m, fst res = Ok m ->
        m = mkModule new_id name provider resource_type version description
              hcl_template variables outputs examples tags now 0%Z).
Proof.
  intros res. subst res. unfold register_module. cbv zeta.
  destruct (existsb (str_eqb provider) PROVIDERS) eqn:Ep; cbn [negb].
  - pose proof (proj1 (provider_known_iff provider) Ep) as Hp.
    destruct (valid (validate_hcl hcl_template)) eqn:Ev; cbn [negb].
    + set (m0 := mkModule new_id name provider resource_type version
                   description hcl_template variables outputs examples tags
                   now 0%Z).
      pose proof (_save_ok_iff db m0) as Hs. cbn [mod_name mod_id m0] in Hs.
      destruct (_save db m0) as [db'|e] eqn:Es; cbn [fst snd].
      * split; [|split; [|split; [|split]]].
        -- split; [intros _ | intros _; eexists; reflexivity].
           split; [exact Hp|]. split; [reflexivity|].
           apply Hs. eexists; reflexivity.
        -- intros H. contradiction.
        -- intros _ H. discriminate.
        -- intros e H. discriminate.
        -- intros m H; inversion H; reflexivity.
      * split; [|split; [|split; [|split]]].
        -- split; [intros [m H]; discriminate|].
           intros (_ & _ & H). apply Hs in H as [db' H]. discriminate.
        -- intros H. contradiction.
        -- intros _ H. discriminate.
        -- reflexivity.
        -- intros m H. discriminate.
    + cbn [fst snd]. split; [|split; [|split; [|split]]].
      * split; [intros [m H]; discriminate|]. intros (_ & H & _). discriminate.
      * intros H. contradiction.
      * reflexivity.
      * reflexivity.
      * intros m H. discriminate.
  - assert (Hp : ~ In provider PROVIDERS).
    { intros H. apply provider_known_iff in H. congruence. }
    cbn [fst snd]. split; [|split; [|split; [|split]]].
    + split; [intros [m H]; discriminate|]. intros (H & _). contradiction.
    + reflexivity.
    + intros H. contradiction.
    + reflexivity.
    + intros m H. discriminate.
Qed.

(** ** The table stays well formed *)

Lemma count_up_id (id : str) (r : Row) : row_id (count_up id r) = row_id r.
Proof. unfold count_up. destruct (str_eqb (row_id r) id); reflexivity. Qed.

Lemma count_up_name (id : str) (r : Row) : row_name (count_up id r) = row_name r.
Proof. unfold count_up. destruct (str_eqb (row_id r) id); reflexivity. Qed.

Lemma count_up_written (id : str) (r : Row) :
  (exists m, r = row_of_module m) -> exists m, count_up id r = row_of_module m.
Proof.
  intros [m ->]. unfold count_up.
  destruct (str_eqb (row_id (row_of_module m)) id); [|eauto].
  exists (downloaded m). reflexivity.
Qed.

Lemma store_ok_increment (db : DB) (id : str) :
  store_ok db -> store_ok (increment_download_count db id).
Proof.
  intros (H1 & H2 & H3). unfold store_ok, increment_download_count.
  rewrite !map_map.
  rewrite (map_ext _ row_id) by apply count_up_id.
  rewrite (map_ext (fun x => row_name (count_up id x)) row_name)
    by apply count_up_name.
  repeat split; try assumption.
  apply Forall_map. eapply Forall_impl; [|exact H3].
  intros r. apply count_up_written.
Qed.

Lemma column_unique_filter {K} (column : Row -> K) (keep : Row -> bool)
  (db : DB) :
  NoDup (map column db) -> NoDup (map column (filter keep db)).
Proof.
  intros Hnd. induction db as [|r db IH]; [constructor|].
  cbn [map] in Hnd. apply NoDup_cons_iff in Hnd as [Hr Hdb].
  cbn [filter]. destruct (keep r); [|now apply IH].
  cbn [map]. apply NoDup_cons; [|now apply IH].
  intros Hin. apply Hr. apply in_map_iff in Hin as (r' & E & Hr').
  apply filter_In in Hr' as [Hr' _]. rewrite <- E. now apply in_map.
Qed.

Lemma store_ok_filter (db : DB) (p : Row -> bool) :
  store_ok db -> store_ok (filter p db).
Proof.
  intros (H1 & H2 & H3). repeat split.
  - now apply column_unique_filter.
  - now apply column_unique_filter.
  - apply Forall_forall. intros r Hr. apply filter_In in Hr as [Hr _].
    rewrite Forall_forall in H3. now apply H3.
Qed.

Lemma upsert_written (r : Row) (m : TerraformModule) :
  (exists m0, r = row_of_module m0) -> row_id r = mod_id m ->
  exists m', upsert_row r (row_of_module m) = row_of_module m'.
Proof.
  intros [m0 ->] Hid.
  exists (mkModule (mod_id m0) (mod_name m) (mod_provider m)
            (mod_resource_type m) (mod_version m) (mod_description m)
            (mod_hcl_template m) (mod_variables m) (mod_outputs m)
            (mod_examples m) (mod_tags m) (mod_created_at m0)
            (mod_download_count m)).
  reflexivity.
Qed.

Lemma upsert_names (db : DB) (m : TerraformModule) :
  NoDup (map row_id db) -> NoDup (map row_name db) ->
  (forall r, In r db -> row_name r = mod_name m -> row_id r = mod_id m) ->
  NoDup (map row_name
           (map (fun r => if str_eqb (row_id r) (row_id (row_of_module m))
                          then upsert_row r (row_of_module m) else r) db)).
Proof.
  set (f := fun r => if str_eqb (row_id r) (row_id (row_of_module m))
                     then upsert_row r (row_of_module m) else r).
  assert (Hin : forall l x, In x (map row_name (map f l)) ->
                            In x (map row_name l) \/ x = mod_name m).
  { induction l as [|r l IH]; simpl; [tauto|]. intros x [H | H].
    - unfold f in H. destruct (str_eqb (row_id r) (row_id (row_of_module m)));
        [right; now rewrite <- H | left; left; exact H].
    - destruct (IH x H); tauto. }
  induction db as [|r db IH]; intros Hi Hn Hc; simpl; [constructor|].
  simpl in Hi, Hn. inversion Hi; subst. inversion Hn; subst.
  constructor.
  - intros Hx. unfold f at 1 in Hx.
    destruct (str_eqb (row_id r) (row_id (row_of_module m))) eqn:E.
    + apply str_eqb_eq in E. simpl in E, Hx.
      assert (Hsame : map f db = db).
      { rewrite <- (map_id db) at 2. apply map_ext_in. intros r' Hr'.
        unfold f. destruct (str_eqb (row_id r') (row_id (row_of_module m))) eqn:E';
          [|reflexivity].
        apply str_eqb_eq in E'. simpl in E'. elim H1. rewrite E, <- E'.
        now apply in_map. }
      rewrite Hsame in Hx.
      apply in_map_iff in Hx as (r' & Hn' & Hr').
      assert (row_id r' = mod_id m) by (apply Hc; simpl; auto).
      apply H1. rewrite E, <- H. now apply in_map.
    + apply str_eqb_neq in E. apply Hin in Hx as [Hx | Hx]; [contradiction|].
      apply E. apply Hc; simpl; auto.
  - apply IH; auto. intros r' Hr'. apply Hc. simpl. auto.
Qed.

Lemma store_ok_save (db db' : DB) (m : TerraformModule) :
  store_ok db -> _save db m = Ok db' -> store_ok db'.
Proof.
  intros (H1 & H2 & H3) Hs.
  assert (Hc : forall r, In r db -> row_name r = mod_name m -> row_id r = mod_id m)
    by (apply _save_ok_iff; eauto).
  revert Hs. unfold _save.
  destruct (existsb _ db); [discriminate|].
  destruct (existsb (fun r => str_eqb (row_id r) (row_id (row_of_module m))) db)
    eqn:E; intros Hs; inversion Hs; subst db'; clear Hs.
  - repeat split.
    + rewrite map_map. erewrite map_ext; [exact H1|].
      intros r. simpl. destruct (str_eqb (row_id r) (mod_id m)); reflexivity.
    + now apply upsert_names.
    + apply Forall_map. rewrite Forall_forall in *. intros r Hr.
      change (row_id (row_of_module m)) with (mod_id m).
      destruct (str_eqb (row_id r) (mod_id m)) eqn:Er; [|auto].
      apply str_eqb_eq in Er. apply upsert_written; auto.
  - assert (Hid : ~ In (mod_id m) (map row_id db)).
    { intros Hin. apply in_map_iff in Hin as (r & Hr & Hin).
      assert (existsb (fun r => str_eqb (row_id r) (row_id (row_of_module m))) db
              = true).
      { apply existsb_exists. exists r. split; [exact Hin|].
        simpl. rewrite Hr. apply str_eqb_refl. }
      congruence. }
    repeat split.
    + rewrite map_app. apply NoDup_app; [exact H1 | repeat constructor; simpl; tauto|].
      intros x Hx [<- | []]. contradiction.
    + rewrite map_app. apply NoDup_app; [exact H2 | repeat constructor; simpl; tauto|].
      intros x Hx [<- | []]. apply in_map_iff in Hx as (r & Hn & Hr).
      apply Hid. rewrite <- (Hc r Hr Hn). now apply in_map.
    + apply Forall_app. split; [exact H3|]. constructor; [eauto | constructor].
Qed.

Lemma generate_tf_store (db : DB) (ref : str) (vars : dict pyval) :
  snd (generate_tf db ref vars) = db
  \/ exists m, get_module db ref = Ok m
               /\ snd (generate_tf db ref vars)
                  = increment_download_count db (mod_id m).
Proof.
  unfold generate_tf. destruct (get_module db ref) as [m|e]; [|now left].
  destruct (missing_variables m vars); [|now left].
  right. exists m. auto.
Qed.

Lemma export_plan_store (db : DB) (ts ref : str) (vars : dict pyval) :
  snd (export_plan db ts ref vars) = snd (generate_tf db ref vars).
Proof.
  unfold export_plan. destruct (get_module db ref) as [m|e] eqn:Eg.
  - destruct (generate_tf db ref vars) as [[out|e] db']; reflexivity.
  - unfold generate_tf. now rewrite Eg.
Qed.

(** X2. Every operation that writes leaves the table well formed: the
    identities stay distinct, the names stay distinct, and every row is
    one that [_save] wrote. *)
Theorem store_ok_preserved
  (db : DB) (new_id now name provider resource_type hcl_template : str)
  (variables : list TerraformVariable) (outputs : list TerraformOutput)
  (description : str) (examples : list TerraformExample) (tags : list str)
  (version ts ref : str) (vars : dict pyval) :
  store_ok db ->
  store_ok (snd (register_module db new_id now name provider resource_type
                   hcl_template variables outputs description examples tags
                   version))
  /\ store_ok (snd (generate_tf db ref vars))
  /\ store_ok (snd (export_plan db ts ref vars))
  /\ store_ok (snd (delete_module db ref)).
Proof.
  intros Hok.
  assert (Hgen : store_ok (snd (generate_tf db ref vars))).
  { destruct (generate_tf_store db ref vars) as [-> | (m & _ & ->)];
      [exact Hok | now apply store_ok_increment]. }
  split; [|split; [exact Hgen | split]].
  - unfold register_module. cbv zeta.
    destruct (negb (existsb (str_eqb provider) PROVIDERS)); [exact Hok|].
    destruct (negb (valid (validate_hcl hcl_template))); [exact Hok|].
    set (m0 := mkModule new_id name provider resource_type version
                 description hcl_template variables outputs examples tags
                 now 0%Z).
    destruct (_save db m0) as [db'|e] eqn:Es; [|exact Hok].
    cbn [snd]. exact (store_ok_save db db' m0 Hok Es).
  - now rewrite export_plan_store.
  - unfold delete_module. destruct (get_module db ref) as [m|[]]; cbn [snd];
      try exact Hok.
    now apply store_ok_filter.
Qed.

Lemma store_ok_preserved_witness :
  store_ok sample_db
  /\ store_ok (snd (generate_tf sample_db (lit "gen_test") sample_values))
  /\ store_ok (snd (delete_module sample_db (lit "gen_test"))).
Proof.
  assert (Hok : store_ok sample_db).
  { repeat split.
    - vm_compute. repeat constructor; simpl; tauto.
    - vm_compute. repeat constructor; simpl; tauto.
    - constructor; [|constructor]. exists sample_module. vm_compute. reflexivity. }
  destruct (store_ok_preserved sample_db [] [] [] [] [] [] [] [] [] [] [] []
              [] (lit "gen_test") sample_values Hok) as (_ & Hg & _ & Hd).
  auto.
Defined.

(** X3. On a well-formed table a reference either matches no record, and
    [get_module] raises [KeyError], or it resolves to a stored module whose
    identity or name is the reference; a stored row never fails to read
    back. *)
Theorem get_module_on_store (db : DB) (ref : str) :
  store_ok db ->
  (get_module db ref = Raise (KeyError ref)
   /\ forall r, In r db -> ~ matches_ref ref r)
  \/ exists m, get_module db ref = Ok m
               /\ In (row_of_module m) db
               /\ (mod_id m = ref \/ mod_name m = ref).
Proof.
  intros (_ & _ & Hw). unfold get_module.
  destruct (select_module db ref) as [r|] eqn:Es.
  - right. unfold select_module in Es. apply find_some in Es as [Hr Hm].
    rewrite Forall_forall in Hw. destruct (Hw r Hr) as [m ->].
    exists m. rewrite _row_to_module_of_module. repeat split; [exact Hr|].
    apply orb_true_iff in Hm as [Hm | Hm]; apply str_eqb_eq in Hm; auto.
  - left. split; [reflexivity|]. now apply select_module_none.
Qed.

Lemma get_module_on_store_witness :
  store_ok sample_db
  /\ get_module sample_db (lit "nonexistent-id")
     = Raise (KeyError (lit "nonexistent-id")).
Proof.
  assert (Hok : store_ok sample_db).
  { repeat split.
    - vm_compute. repeat constructor; simpl; tauto.
    - vm_compute. repeat constructor; simpl; tauto.
    - constructor; [|constructor]. exists sample_module. vm_compute. reflexivity. }
  split; [exact Hok|].
  destruct (get_module_on_store sample_db (lit "nonexistent-id") Hok)
    as [[H _] | (m & H & _)]; [exact H|].
  vm_compute in H. discriminate H.
Defined.

(** ** More on [generate_tf] and [export_plan] *)

(** X4. A reference that matches no stored record makes [get_module],
    [generate_tf] and [export_plan] raise [KeyError] with that reference,
    and the table is left as it was; nothing is counted as a download. *)
Theorem unknown_reference_raises
  (db : DB) (ts ref : str) (vars : dict pyval) :
  (forall r, In r db -> ~ matches_ref ref r) ->
  get_module db ref = Raise (KeyError ref)
  /\ generate_tf db ref vars = (Raise (KeyError ref), db)
  /\ export_plan db ts ref vars = (Raise (KeyError ref), db).
Proof.
  intros H. apply select_module_none in H.
  pose proof (get_module_not_found db ref H) as Hg.
  unfold generate_tf, export_plan. rewrite Hg. auto.
Qed.

Lemma unknown_reference_raises_witness :
  generate_tf sample_db (lit "nonexistent-id") sample_values
  = (Raise (KeyError (lit "nonexistent-id")), sample_db).
Proof.
  apply (unknown_reference_raises sample_db [] (lit "nonexistent-id")
           sample_values).
  intros r Hr. vm_compute in Hr. destruct Hr as [<- | []].
  intros [H | H]; vm_compute in H; discriminate H.
Defined.

Lemma count_up_other (id : str) (r : Row) (m : TerraformModule) :
  _row_to_module r = Ok m ->
  _row_to_module (count_up id r)
  = Ok (if str_eqb (mod_id m) id then downloaded m else m).
Proof.
  intros H. destruct (_row_to_module_id r m H) as [Hid _]. rewrite Hid.
  destruct (str_eqb (row_id r) id) eqn:E.
  - apply str_eqb_eq in E. subst id. rewrite <- Hid.
    now apply _row_to_module_count_up.
  - unfold count_up. now rewrite E.
Qed.

(** X5. A successful render changes nothing but the counter of the module
    rendered: afterwards every reference resolves to the module it
    resolved to before, with its download count one higher if it is the
    rendered module and unchanged otherwise, and the table has the same
    number of rows. *)
Theorem generate_tf_touches_only_counter
  (db db' : DB) (ref : str) (vars : dict pyval) (out : str)
  (m : TerraformModule) :
  get_module db ref = Ok m ->
  generate_tf db ref vars = (Ok out, db') ->
  List.length db' = List.length db
  /\ forall ref' m',
       get_module db ref' = Ok m' ->
       get_module db' ref'
       = Ok (if str_eqb (mod_id m') (mod_id m) then downloaded m' else m').
Proof.
  intros Hget Hgen. unfold generate_tf in Hgen. rewrite Hget in Hgen.
  destruct (missing_variables m vars); [|discriminate].
  inversion Hgen; subst. split.
  - unfold increment_download_count. apply length_map.
  - intros ref' m' Hget'. unfold get_module in *.
    rewrite select_module_increment.
    destruct (select_module db ref') as [r|]; [|discriminate].
    simpl. now apply count_up_other.
Qed.

Lemma generate_tf_touches_only_counter_witness :
  get_module sample_db (lit "gen_test") = Ok sample_module
  /\ get_module (snd (generate_tf sample_db (lit "gen_test") sample_values))
       (lit "0b4c1e9a-0000-4000-8000-000000000001")
     = Ok (downloaded sample_module).
Proof.
  assert (Hget : get_module sample_db (lit "gen_test") = Ok sample_module)
    by (vm_compute; reflexivity).
  split; [exact Hget|].
  destruct (generate_tf sample_db (lit "gen_test") sample_values)
    as [res db'] eqn:Hgen.
  assert (Hres : res = Ok (substitute SIMPLE_HCL
                             (merge_vars sample_module sample_values))).
  { vm_compute in Hgen. inversion Hgen. vm_compute. reflexivity. }
  subst res.
  destruct (generate_tf_touches_only_counter sample_db db' (lit "gen_test")
              sample_values _ sample_module Hget Hgen) as [_ H].
  cbn [snd].
  rewrite (H (lit "0b4c1e9a-0000-4000-8000-000000000001") sample_module)
    by (vm_compute; reflexivity).
  vm_compute. reflexivity.
Defined.

Lemma downloaded_n_succ (n : nat) (m : TerraformModule) :
  downloaded_n n (downloaded m) = downloaded_n (S n) m.
Proof.
  unfold downloaded_n, downloaded. simpl mod_download_count.
  cbn [mod_id mod_name mod_provider mod_resource_type mod_version
       mod_description mod_hcl_template mod_variables mod_outputs
       mod_examples mod_tags mod_created_at].
  f_equal. lia.
Qed.



Lemma replace_absent (s old new : str) :
  old <> [] -> ~ occurs old s -> replace s old new = s.
Proof.
  intros Hne Hno.
  apply (replaced_all_functional old new s); [exact Hne | |].
  - now apply replace_spec.
  - now apply replaced_none.
Qed.




Lemma in_lines_occurs (sep line : str) (lines : list str) :
  In line lines -> occurs line (join sep lines).
Proof.
  intros H. apply in_split in H as (l1 & l2 & ->).
  apply (occurs_trans _ (join sep (line :: l2))).
  - destruct l2; [apply occurs_refl|].
    rewrite join_cons by discriminate. exists [], (sep ++ join sep (s :: l2)).
    reflexivity.
  - apply (occurs_join sep l1 (line :: l2)); [discriminate | reflexivity].
Qed.

(** X9. The plan names the module and shows every matched block: it
    contains the line with the module's name and version, the line with
    its provider, and for every match of the resource pattern in the
    rendered text its header line with the matched type and name. *)
Theorem export_plan_shows_blocks
  (db db' : DB) (ts ref : str) (vars : dict pyval) (m : TerraformModule)
  (rendered out : str) :
  get_module db ref = Ok m ->
  generate_tf db ref vars = (Ok rendered, db') ->
  fst (export_plan db ts ref vars) = Ok out ->
  occurs (lit "# Module  : " ++ mod_name m ++ lit " v" ++ mod_version m) out
  /\ occurs (lit "# Provider : " ++ mod_provider m) out
  /\ occurs (lit "# Generated: " ++ ts) out
  /\ forall rtype rname rbody,
       In (rtype, rname, rbody) (resource_matches rendered) ->
       occurs (lit "  + resource " ++ quote_ rtype ++ lit " " ++ quote_ rname
               ++ lit " {") out.
Proof.
  intros Hget Hgen. unfold export_plan. rewrite Hget, Hgen. cbn [fst].
  intros H. inversion H. subst out. clear H.
  assert (Hhead : forall line,
            In line
              [ lit "# Terraform Plan Export";
                lit "# Module  : " ++ mod_name m ++ lit " v" ++ mod_version m;
                lit "# Provider : " ++ mod_provider m;
                lit "# Generated: " ++ ts ] ->
            In line (plan_lines m ts rendered)).
  { intros line Hl. unfold plan_lines.
    destruct (resource_matches rendered);
      rewrite <- ?app_assoc; apply in_or_app; left;
      simpl in Hl; simpl; tauto. }
  repeat split.
  - apply in_lines_occurs, Hhead. simpl. auto.
  - apply in_lines_occurs, Hhead. simpl. auto.
  - apply in_lines_occurs, Hhead. simpl. auto.
  - intros rtype rname rbody Hin. apply in_lines_occurs.
    unfold plan_lines. destruct (resource_matches rendered) as [|m0 ms] eqn:Em;
      [destruct Hin|].
    apply in_or_app. left. apply in_or_app. right.
    apply in_or_app. right. apply in_or_app. left.
    apply in_flat_map. exists (rtype, rname, rbody). split; [exact Hin|].
    unfold plan_block. apply in_or_app. left. left.
    unfold quote_. simpl. now rewrite <- !app_assoc.
Qed.

Lemma export_plan_shows_blocks_witness :
  exists out,
    fst (export_plan sample_db (lit "2024-01-01T00:00:00Z") (lit "gen_test")
           sample_values) = Ok out
    /\ occurs (lit "  + resource " ++ quote_ (lit "aws_instance") ++ lit " "
               ++ quote_ (lit "my-server") ++ lit " {") out.
Proof.
  destruct (export_plan sample_db (lit "2024-01-01T00:00:00Z") (lit "gen_test")
              sample_values) as [[out|e] db'] eqn:Hplan;
    [|vm_compute in Hplan; discriminate Hplan].
  exists out. split; [reflexivity|].
  assert (Hget : get_module sample_db (lit "gen_test") = Ok sample_module)
    by (vm_compute; reflexivity).
  assert (Hgen :
    generate_tf sample_db (lit "gen_test") sample_values
    = (Ok (substitute SIMPLE_HCL (merge_vars sample_module sample_values)),
       increment_download_count sample_db (mod_id sample_module)))
    by (vm_compute; reflexivity).
  assert (Hout : fst (export_plan sample_db (lit "2024-01-01T00:00:00Z")
                        (lit "gen_test") sample_values) = Ok out)
    by (now rewrite Hplan).
  destruct (export_plan_shows_blocks sample_db _ (lit "2024-01-01T00:00:00Z")
              (lit "gen_test") sample_values sample_module _ out Hget Hgen Hout)
    as (_ & _ & _ & Hblocks).
  assert (Hin : exists rbody,
            In (lit "aws_instance", lit "my-server", rbody)
              (resource_matches
                 (substitute SIMPLE_HCL (merge_vars sample_module sample_values)))).
  { eexists. vm_compute. left. reflexivity. }
  destruct Hin as [rbody Hin].
  exact (Hblocks _ _ rbody Hin).
Defined.

(** ** More on [validate_hcl] *)

(** X10. A text is valid exactly when its three pairs of bracket counts
    agree, it is not blank, and every line that starts with [resource]
    has at least three fields; the warnings play no part. *)
Theorem validate_hcl_valid_iff (text : str) :
  valid (validate_hcl text) = true
  <-> balanced text /\ strip text <> []
      /\ forall l, In l (splitlines text) ->
           startswith (strip l) (lit "resource") = true ->
           3 <= List.length (split (strip l)).
Proof. rewrite validate_hcl_valid. apply validate_hcl_no_errors. Qed.

Lemma label_error_head (text e : str) :
  In e (label_errors text) -> hd_error e = Some "r"%char.
Proof.
  unfold label_errors. intros H. apply in_flat_map in H as (rl & _ & H).
  destruct (List.length (split rl) <? 3); [|destruct H].
  destruct H as [<- | []]. reflexivity.
Qed.

Lemma in_if_single (c : bool) (msg x : str) :
  In x (if c then [] else [msg]) <-> c = false /\ msg = x.
Proof. destruct c; simpl; intuition congruence. Qed.

Lemma in_empty_error (text x : str) :
  In x match strip text with
       | [] => [lit "HCL string is empty"]
       | _ :: _ => []
       end
  <-> strip text = [] /\ lit "HCL string is empty" = x.
Proof. destruct (strip text); simpl; intuition congruence. Qed.

(** X11. Each balance check speaks for itself: the error about curly
    braces is reported exactly when the counts of the two braces differ,
    and likewise for square brackets and for parentheses; the error about
    emptiness exactly when the text is blank. *)
Theorem validate_hcl_reports
  (text : str) :
  (In (lit "Unbalanced curly braces { }") (errors (validate_hcl text))
   <-> count text (lit "{") <> count text (lit "}"))
  /\ (In (lit "Unbalanced square brackets [ ]") (errors (validate_hcl text))
      <-> count text (lit "[") <> count text (lit "]"))
  /\ (In (lit "Unbalanced parentheses ( )") (errors (validate_hcl text))
      <-> count text (lit "(") <> count text (lit ")"))
  /\ (In (lit "HCL string is empty") (errors (validate_hcl text))
      <-> strip text = []).
Proof.
  rewrite validate_hcl_errors.
  assert (Hlab : forall msg, hd_error msg <> Some "r"%char ->
                             ~ In msg (label_errors text)).
  { intros msg Hm Hin. apply Hm. now apply (label_error_head text). }
  pose proof (Hlab (lit "Unbalanced curly braces { }")) as L1.
  pose proof (Hlab (lit "Unbalanced square brackets [ ]")) as L2.
  pose proof (Hlab (lit "Unbalanced parentheses ( )")) as L3.
  pose proof (Hlab (lit "HCL string is empty")) as L4.
  rewrite !in_app_iff, !in_if_single, !in_empty_error, !Nat.eqb_neq.
  repeat split; intros H.
  - destruct H as [[H _] | [[_ H] | [[_ H] | [H | [_ H]]]]];
      try discriminate H; [exact H | elim L1; [discriminate | exact H]].
  - left. split; [exact H | reflexivity].
  - destruct H as [[_ H] | [[H _] | [[_ H] | [H | [_ H]]]]];
      try discriminate H; [exact H | elim L2; [discriminate | exact H]].
  - right. left. split; [exact H | reflexivity].
  - destruct H as [[_ H] | [[_ H] | [[H _] | [H | [_ H]]]]];
      try discriminate H; [exact H | elim L3; [discriminate | exact H]].
  - right. right. left. split; [exact H | reflexivity].
  - destruct H as [[_ H] | [[_ H] | [[_ H] | [H | [H _]]]]];
      try discriminate H; [elim L4; [discriminate | exact H] | exact H].
  - right. right. right. right. split; [exact H | reflexivity].
Qed.

Lemma space_differs (c : ascii) (x : ascii) :
  is_space c = true -> is_space x = false -> Ascii.eqb x c = false.
Proof.
  intros Hc Hx. destruct (Ascii.eqb_spec x c) as [->|]; [congruence | reflexivity].
Qed.

Lemma blank_startswith (text : str) (x : ascii) (p : str) :
  blank text -> is_space x = false -> startswith text (x :: p) = false.
Proof.
  intros Hb Hx. destruct Hb as [|c s Hc _]; [reflexivity|].
  cbn [startswith]. now rewrite (space_differs c x Hc Hx).
Qed.

Lemma blank_lstrip (text : str) : blank text -> lstrip text = [].
Proof.
  intros H. induction H as [|c s Hc _ IH]; [reflexivity|].
  cbn [lstrip]. now rewrite Hc.
Qed.

Lemma blank_strip (text : str) : blank text -> strip text = [].
Proof.
  intros H. unfold strip, rstrip. now rewrite (blank_lstrip text H).
Qed.

Lemma blank_count (text : str) (x : ascii) :
  blank text -> is_space x = false -> count text [x] = 0.
Proof.
  intros Hb Hx. unfold count.
  induction Hb as [|c s Hc Hs IH]; [reflexivity|].
  cbn [count_from].
  rewrite (blank_startswith (c :: s) x []) by (try constructor; assumption).
  exact IH.
Qed.

Lemma splitlines_from_chars (p : ascii -> Prop) (n : nat) :
  forall s cur, List.length s <= n -> Forall p cur -> Forall p s ->
  Forall (Forall p) (splitlines_from cur s).
Proof.
  assert (Hrev : forall cur, Forall p cur -> Forall p (rev cur))
    by (intros; now apply Forall_rev).
  induction n as [|n IH]; intros s cur Hlen Hcur Hs.
  - destruct s; [|simpl in Hlen; lia]. cbn [splitlines_from].
    destruct cur; repeat constructor. now apply Hrev.
  - destruct s as [|c s]; cbn [splitlines_from].
    + destruct cur; repeat constructor. now apply Hrev.
    + inversion Hs as [|c' s' Hc Hs']; subst. simpl in Hlen.
      destruct (code c =? 13).
      * destruct s as [|d s'].
        -- repeat constructor. now apply Hrev.
        -- inversion Hs' as [|d' s'' Hd Hs'']; subst. simpl in Hlen.
           destruct (code d =? 10); constructor; try (now apply Hrev).
           ++ apply IH; [lia | constructor | assumption].
           ++ apply IH; [simpl; lia | constructor | assumption].
      * destruct (is_linebreak c).
        -- constructor; [now apply Hrev|].
           apply IH; [lia | constructor | assumption].
        -- apply IH; [lia | now constructor | assumption].
Qed.

Lemma blank_resource_lines (text : str) : blank text -> resource_lines text = [].
Proof.
  intros Hb. unfold resource_lines.
  pose proof (splitlines_from_chars (fun c => is_space c = true)
                (List.length text) text [] (le_n _) (Forall_nil _) Hb) as Hl.
  fold (splitlines text) in Hl. induction Hl as [|l ls Hl _ IH]; [reflexivity|].
  cbn [filter]. rewrite (blank_strip l Hl). exact IH.
Qed.

Lemma blank_block_search (text : str) (b : bool) :
  blank text -> block_search b text = false.
Proof.
  intros Hb. revert b. induction Hb as [|c s Hc Hs IH]; intros b.
  - cbn [block_search]. rewrite orb_false_r. unfold block_at. simpl.
    now rewrite andb_false_r.
  - cbn [block_search]. rewrite IH, orb_false_r.
    assert (Hat : block_at (c :: s) = false).
    { unfold block_at. cbn [existsb].
      assert (Hlits : forall (x : ascii) (p : string),
                is_space x = false ->
                startswith (c :: s) (lit (String x p)) = false).
      { intros x p Hx. apply (blank_startswith (c :: s) x); [|exact Hx].
        now constructor. }
      rewrite !Hlits by reflexivity. reflexivity. }
    rewrite Hat. now rewrite andb_false_r.
Qed.

Lemma blank_scan_bad_refs (text : str) (k : nat) :
  blank text -> scan_matches bad_ref_at k text = [].
Proof.
  intros Hb. revert k. induction Hb as [|c s Hc Hs IH]; intros k; [reflexivity|].
  cbn [scan_matches]. destruct k; [|apply IH].
  unfold bad_ref_at. change (lit "${") with ("$"%char :: lit "{").
  rewrite (blank_startswith (c :: s) "$"%char (lit "{"))
    by (try constructor; assumption || reflexivity).
  apply IH.
Qed.

Lemma blank_contains (text : str) (x : ascii) (p : str) :
  blank text -> is_space x = false -> contains_b text (x :: p) = false.
Proof.
  intros Hb Hx. induction Hb as [|c s Hc Hs IH]; [reflexivity|].
  cbn [contains_b].
  rewrite (blank_startswith (c :: s) x p) by (try constructor; assumption).
  exact IH.
Qed.

(** X12. A blank text, the empty string included, gets exactly one error,
    that it is empty, and exactly one warning, that no block was found. *)
Theorem validate_hcl_blank (text : str) :
  (forall c, In c text -> is_space c = true) ->
  validate_hcl text
  = mkValidation false [lit "HCL string is empty"]
      [lit "No resource/data/module block found — is this intentional?"].
Proof.
  intros H. assert (Hb : blank text) by (now apply Forall_forall).
  unfold validate_hcl.
  change (lit "{") with ["{"%char]. change (lit "}") with ["}"%char].
  change (lit "[") with ["["%char]. change (lit "]") with ["]"%char].
  change (lit "(") with ["("%char]. change (lit ")") with [")"%char].
  rewrite !(blank_count text) by (assumption || reflexivity).
  rewrite (blank_block_search text false Hb).
  rewrite (blank_resource_lines text Hb).
  rewrite (blank_scan_bad_refs text 0 Hb).
  change (lit "$${") with ("$"%char :: lit "${").
  rewrite (blank_contains text "$"%char (lit "${") Hb) by reflexivity.
  rewrite (blank_strip text Hb).
  reflexivity.
Qed.

Lemma validate_hcl_blank_witness :
  validate_hcl (lit "  ")
  = mkValidation false [lit "HCL string is empty"]
      [lit "No resource/data/module block found — is this intentional?"].
Proof.
  apply (validate_hcl_blank (lit "  ")).
  intros c [<- | [<- | []]]; reflexivity.
Defined.

(** ** What the patterns match *)

Lemma scan_matches_sound {A} (at_ : str -> option (A * str)) (m : A) :
  forall s skip, In m (scan_matches at_ skip s) ->
  exists pre suf rest, s = pre ++ suf /\ at_ suf = Some (m, rest).
Proof.
  induction s as [|c s IH]; intros skip H; [destruct H|].
  cbn [scan_matches] in H.
  assert (Hrec : forall k, In m (scan_matches at_ k s) ->
            exists pre suf rest, c :: s = pre ++ suf /\ at_ suf = Some (m, rest)).
  { intros k Hk. destruct (IH k Hk) as (pre & suf & rest & -> & Hat).
    exists (c :: pre), suf, rest. auto. }
  destruct skip as [|k]; [|now apply (Hrec k)].
  destruct (at_ (c :: s)) as [[m0 rest]|] eqn:E; [|now apply (Hrec 0)].
  destruct H as [<- | H]; [|now apply (Hrec _ H)].
  exists [], (c :: s), rest. auto.
Qed.

Lemma span_spec (p : ascii -> bool) (s a r : str) :
  span p s = (a, r) ->
  s = a ++ r /\ Forall (fun c => p c = true) a
  /\ match r with [] => True | c :: _ => p c = false end.
Proof.
  revert a r. induction s as [|c s IH]; intros a r H; cbn [span] in H.
  - inversion H. auto.
  - destruct (p c) eqn:E.
    + destruct (span p s) as [a' r'] eqn:Es. inversion H; subst.
      destruct (IH a' r eq_refl) as (-> & Ha & Hr).
      repeat split; auto.
    + inversion H; subst. repeat split; auto.
Qed.

Lemma lstrip_spec (s : str) :
  exists ws, s = ws ++ lstrip s /\ blank ws.
Proof.
  induction s as [|c s (ws & E & Hws)]; [exists []; split; [reflexivity | constructor]|].
  cbn [lstrip]. destruct (is_space c) eqn:Ec.
  - exists (c :: ws). split; [simpl; congruence | now constructor].
  - exists []. split; [reflexivity | constructor].
Qed.

Lemma spaces1_spec (s r : str) :
  spaces1 s = Some r -> exists ws, s = ws ++ r /\ blank1 ws.
Proof.
  unfold spaces1. destruct s as [|c s]; [discriminate|].
  destruct (is_space c) eqn:Ec; [|discriminate].
  intros H. inversion H. destruct (lstrip_spec (c :: s)) as (ws & E & Hws).
  exists ws. split; [exact E|]. split; [|exact Hws].
  intros ->. simpl in E. cbn [lstrip] in E. rewrite Ec in E.
  assert (List.length (c :: s) = List.length (lstrip s)) by congruence.
  destruct (lstrip_spec s) as (ws' & E' & _).
  assert (List.length s = List.length (ws' ++ lstrip s)) by congruence.
  rewrite length_app in H2. simpl in H0. lia.
Qed.

Lemma is_char_eq (n : nat) (c : ascii) :
  is_char n c = true -> c = ascii_of_nat n.
Proof.
  unfold is_char, code. intros H. apply Nat.eqb_eq in H.
  rewrite <- H. symmetry. apply ascii_nat_embedding.
Qed.

Lemma quoted_spec (p : ascii -> bool) (s label r : str) :
  quoted p s = Some (label, r) ->
  s = quote_ label ++ r /\ label <> []
  /\ Forall (fun c => p c = true) label.
Proof.
  unfold quoted. destruct s as [|q s]; [discriminate|].
  destruct (is_char 34 q) eqn:Eq; [|discriminate].
  destruct (span p s) as [a r'] eqn:Es.
  destruct a as [|x a]; [discriminate|]. destruct r' as [|q' r']; [discriminate|].
  destruct (is_char 34 q') eqn:Eq'; [|discriminate].
  intros H. inversion H; subst.
  apply is_char_eq in Eq, Eq'. subst.
  destruct (span_spec p s (x :: a) (ascii_of_nat 34 :: r) Es) as (-> & Ha & _).
  repeat split; [|discriminate | exact Ha].
  unfold quote_, dquote. simpl. now rewrite <- app_assoc.
Qed.

(** X13. Every match of the resource pattern is a real block in the text:
    the word [resource], blank, a quoted type made of word
    characters, blank, a quoted name made of word characters and
    dashes, optional blank and a body between braces; the body never
    contains a closing brace, so a block with nested braces is cut at the
    first one. *)
Theorem resource_matches_sound (text rtype rname rbody : str) :
  In (rtype, rname, rbody) (resource_matches text) ->
  (exists pre ws1 ws2 ws3 rest,
     text = pre ++ lit "resource" ++ ws1 ++ quote_ rtype ++ ws2
            ++ quote_ rname ++ ws3 ++ lit "{" ++ rbody ++ lit "}" ++ rest
     /\ blank1 ws1 /\ blank1 ws2 /\ blank ws3)
  /\ rtype <> [] /\ Forall (fun c => is_word c = true) rtype
  /\ rname <> [] /\ Forall (fun c => is_word_or_dash c = true) rname
  /\ ~ In "}"%char rbody.
Proof.
  intros H. unfold resource_matches in H.
  apply scan_matches_sound in H as (pre & suf & rest & -> & Hat).
  unfold resource_at in Hat.
  destruct (startswith suf (lit "resource")) eqn:E0; [|discriminate].
  apply startswith_iff in E0 as [s0 ->].
  rewrite skipn_app, skipn_all2 in Hat by (simpl; lia).
  change (8 - List.length (lit "resource")) with 0 in Hat.
  cbn [skipn app] in Hat.
  destruct (spaces1 s0) as [s1|] eqn:E1; [|discriminate].
  destruct (quoted is_word s1) as [[t s2]|] eqn:E2; [|discriminate].
  destruct (spaces1 s2) as [s3|] eqn:E3; [|discriminate].
  destruct (quoted is_word_or_dash s3) as [[n s4]|] eqn:E4; [|discriminate].
  destruct (lstrip s4) as [|c s5] eqn:E5; [discriminate|].
  destruct (is_char 123 c) eqn:Ec; [|discriminate].
  destruct (span (fun c => negb (is_char 125 c)) s5) as [b r] eqn:E6.
  destruct r as [|c' r]; [discriminate|].
  inversion Hat; subst t n b rest. clear Hat.
  apply spaces1_spec in E1 as (ws1 & -> & Hws1).
  apply quoted_spec in E2 as (-> & Ht1 & Ht2).
  apply spaces1_spec in E3 as (ws2 & -> & Hws2).
  apply quoted_spec in E4 as (-> & Hn1 & Hn2).
  destruct (lstrip_spec s4) as (ws3 & E & Hws3). rewrite E5 in E.
  apply is_char_eq in Ec. subst c.
  apply span_spec in E6 as (-> & Hb & Hc').
  assert (c' = "}"%char).
  { simpl in Hc'. apply negb_false_iff, is_char_eq in Hc'. exact Hc'. }
  subst c' s4.
  split; [|split; [exact Ht1|split; [exact Ht2|split; [exact Hn1|split; [exact Hn2|]]]]].
  - exists pre, ws1, ws2, ws3, r.
    split; [|split; [exact Hws1|split; [exact Hws2|exact Hws3]]].
    reflexivity.
  - intros Hin. rewrite Forall_forall in Hb. apply Hb in Hin. discriminate Hin.
Qed.

Lemma resource_matches_sound_witness :
  In (lit "null_resource", lit "x", []) (resource_matches NULL_HCL)
  /\ ~ In "}"%char (@nil ascii).
Proof.
  assert (H : In (lit "null_resource", lit "x", []) (resource_matches NULL_HCL))
    by (vm_compute; left; reflexivity).
  split; [exact H|].
  destruct (resource_matches_sound NULL_HCL _ _ _ H) as (_ & _ & _ & _ & _ & Hb).
  exact Hb.
Defined.

(** X14. [validate_hcl] warns about an interpolation only if it is
    written [${...}] with a body that is not empty, holds no closing brace
    and does not start with one of the seven accepted name spaces, and that
    interpolation stands in the text: a reference into [var.] or [data.]
    is never reported. *)
Theorem suspicious_interpolation_sound (text w : str) :
  In w (warnings (validate_hcl text)) ->
  w = lit "No resource/data/module block found — is this intentional?"
  \/ w = lit "Found $${} — use $${ only for literal dollar sign escape"
  \/ exists body,
       w = lit "Suspicious interpolation (not var/local/module/data): "
           ++ lit "${" ++ body ++ lit "}"
       /\ body <> [] /\ ~ In "}"%char body
       /\ (forall ns, In ns known_namespaces ->
             startswith body (lit ns) = false)
       /\ occurs (lit "${" ++ body ++ lit "}") text.
Proof.
  unfold validate_hcl. cbn [warnings].
  intros H.
  assert (Hin : In w [lit "No resource/data/module block found — is this intentional?"]
                \/ In w (map (fun br =>
                     lit "Suspicious interpolation (not var/local/module/data): "
                     ++ br) (scan_matches bad_ref_at 0 text))
                \/ In w [lit "Found $${} — use $${ only for literal dollar sign escape"]).
  { destruct (block_search false text); destruct (contains_b text (lit "$${"));
      rewrite ?in_app_iff in H; cbn [In] in *; tauto. }
  clear H. destruct Hin as [[<- | []] | [H | [<- | []]]]; [now left | | now right; left].
  right. right. apply in_map_iff in H as (br & <- & Hbr).
  apply scan_matches_sound in Hbr as (pre & suf & rest & -> & Hat).
  unfold bad_ref_at in Hat.
  destruct (startswith suf (lit "${")) eqn:E0; [|discriminate].
  apply startswith_iff in E0 as [s0 ->].
  change (skipn 2 (lit "${" ++ s0)) with s0 in Hat.
  destruct (existsb _ _) eqn:Ens; [discriminate|].
  destruct (span (fun c => negb (is_char 125 c)) s0) as [b r] eqn:Es.
  destruct b as [|x b]; [discriminate|]. destruct r as [|c r]; [discriminate|].
  inversion Hat; subst br rest. clear Hat.
  apply span_spec in Es as (-> & Hb & Hc).
  assert (c = "}"%char).
  { simpl in Hc. apply negb_false_iff, is_char_eq in Hc. exact Hc. }
  subst c. exists (x :: b). repeat split.
  - discriminate.
  - intros Hin. rewrite Forall_forall in Hb. apply Hb in Hin. discriminate Hin.
  - intros ns Hns.
    destruct (startswith (x :: b) (lit ns)) eqn:E; [|reflexivity].
    exfalso. apply not_true_iff_false in Ens. apply Ens.
    apply existsb_exists. exists ns. split; [exact Hns|].
    apply startswith_iff in E as [t E]. apply startswith_iff.
    exists (t ++ "}"%char :: r). rewrite app_assoc, <- E. reflexivity.
  - exists pre, r. now rewrite <- !app_assoc.
Qed.

Lemma suspicious_interpolation_sound_witness :
  In (lit "Suspicious interpolation (not var/local/module/data): ${x.y}")
    (warnings (validate_hcl (lit "a = ${x.y} ${var.z}")))
  /\ exists body,
       lit "Suspicious interpolation (not var/local/module/data): ${x.y}"
       = lit "Suspicious interpolation (not var/local/module/data): "
         ++ lit "${" ++ body ++ lit "}"
       /\ occurs (lit "${" ++ body ++ lit "}") (lit "a = ${x.y} ${var.z}").
Proof.
  assert (H : In (lit "Suspicious interpolation (not var/local/module/data): ${x.y}")
                (warnings (validate_hcl (lit "a = ${x.y} ${var.z}"))))
    by (vm_compute; right; left; reflexivity).
  split; [exact H|].
  destruct (suspicious_interpolation_sound _ _ H)
    as [E | [E | (body & E & _ & _ & _ & Hocc)]];
    try (vm_compute in E; discriminate E).
  exists body. split; [exact E | exact Hocc].
Defined.

(** ** Registrations, deletions and the other modules of the store *)

Lemma select_module_app (db : DB) (row r : Row) (ref : str) :
  select_module db ref = Some r -> select_module (db ++ [row]) ref = Some r.
Proof.
  unfold select_module. induction db as [|x db IH]; simpl; [discriminate|].
  destruct (str_eqb (row_id x) ref || str_eqb (row_name x) ref); auto.
Qed.

Lemma find_app_none {A} (p : A -> bool) (l l' : list A) :
  find p l = None -> find p (l ++ l') = find p l'.
Proof.
  induction l as [|x l IH]; simpl; [reflexivity|].
  destruct (p x); [discriminate | exact IH].
Qed.

Lemma register_module_ok_inv
  (db db' : DB) (new_id now name provider resource_type hcl_template : str)
  (variables : list TerraformVariable) (outputs : list TerraformOutput)
  (description : str) (examples : list TerraformExample) (tags : list str)
  (version : str) (m : TerraformModule) :
  register_module db new_id now name provider resource_type hcl_template
    variables outputs description examples tags version = (Ok m, db') ->
  m = mkModule new_id name provider resource_type version description
        hcl_template variables outputs examples tags now 0%Z
  /\ _save db m = Ok db'.
Proof.
  unfold register_module.
  destruct (negb (existsb (str_eqb provider) PROVIDERS)); [discriminate|].
  destruct (negb (valid (validate_hcl hcl_template))); [discriminate|].
  set (m0 := mkModule new_id name provider resource_type version description
               hcl_template variables outputs examples tags now 0%Z).
  destruct (_save db m0) as [db1|e] eqn:Es; [|discriminate].
  intros H; inversion H; subst. auto.
Qed.



Lemma find_filter_keep {A} (p q : A -> bool) (l : list A) (r : A) :
  find p l = Some r -> q r = true -> find p (filter q l) = Some r.
Proof.
  induction l as [|x l IH]; simpl; [discriminate|].
  destruct (p x) eqn:Ep.
  - intros H Hq. inversion H; subst. rewrite Hq. simpl. now rewrite Ep.
  - intros H Hq. destruct (q x); [simpl; rewrite Ep|]; auto.
Qed.

Lemma filter_one_out (db : DB) (r : Row) :
  NoDup (map row_id db) -> In r db ->
  S (List.length
       (filter (fun x => negb (str_eqb (row_id x) (row_id r))) db))
  = List.length db.
Proof.
  induction db as [|x db IH]; intros Hnd Hin; [destruct Hin|].
  inversion Hnd as [|? ? Hx Hnd']; subst. cbn [filter].
  destruct Hin as [-> | Hin].
  - rewrite str_eqb_refl. cbn [negb List.length]. f_equal.
    clear IH Hnd Hnd'. induction db as [|y db IH]; [reflexivity|].
    cbn [filter]. destruct (str_eqb (row_id y) (row_id r)) eqn:E.
    + exfalso. apply Hx. left. now apply str_eqb_eq in E.
    + cbn [negb List.length]. f_equal. apply IH.
      intros H. apply Hx. now right.
  - destruct (str_eqb (row_id x) (row_id r)) eqn:E.
    + exfalso. apply Hx. apply str_eqb_eq in E. rewrite E.
      now apply in_map.
    + cbn [negb List.length]. f_equal. now apply IH.
Qed.

(** X16. Deleting a module of a well-formed store removes one row and
    nothing else: every reference that resolved to another module
    resolves to the same row afterwards. *)
Theorem delete_module_frame (db : DB) (ref : str) (m : TerraformModule) :
  store_ok db ->
  get_module db ref = Ok m ->
  S (List.length (snd (delete_module db ref))) = List.length db
  /\ (forall ref' r, select_module db ref' = Some r ->
        row_id r <> mod_id m ->
        select_module (snd (delete_module db ref)) ref' = Some r).
Proof.
  intros (Hnd & _ & _) Hget. unfold delete_module. rewrite Hget. cbn [snd].
  apply get_module_found in Hget as (r0 & Hsel & Hrow).
  apply _row_to_module_id in Hrow as [Hid _]. rewrite Hid. split.
  - apply filter_one_out; [exact Hnd|].
    unfold select_module in Hsel. now apply find_some in Hsel as [H _].
  - intros ref' r Hr Hne. unfold select_module. apply find_filter_keep.
    + exact Hr.
    + apply negb_true_iff, str_eqb_neq. exact Hne.
Qed.

Lemma delete_module_frame_witness :
  S (List.length (snd (delete_module shadow_db first_id)))
  = List.length shadow_db.
Proof.
  assert (Hok : store_ok shadow_db).
  { repeat split.
    - vm_compute. repeat constructor; simpl; intuition discriminate.
    - vm_compute. repeat constructor; simpl; intuition discriminate.
    - repeat constructor; [exists first_module | exists second_module];
        vm_compute; reflexivity. }
  assert (Hget : get_module shadow_db first_id = Ok first_module)
    by (vm_compute; reflexivity).
  destruct (delete_module_frame shadow_db first_id first_module Hok Hget)
    as [Hlen _].
  exact Hlen.
Defined.

(** ** Versions *)



Lemma split_on_from_length (sep : ascii) (s cur : str) :
  List.length (split_on_from sep cur s) = S (count_from 0 s [sep]).
Proof.
  revert cur. induction s as [|c s IH]; intros cur; [reflexivity|].
  cbn [split_on_from count_from startswith List.length Nat.sub].
  rewrite (Ascii.eqb_sym sep c), andb_true_r.
  destruct (Ascii.eqb c sep); cbn [List.length]; now rewrite IH.
Qed.

(** X18. A version that does not hold exactly two dots cannot be bumped,
    whatever the part: the bump fails and the module keeps its version. *)
Theorem bump_version_needs_two_dots (m : TerraformModule) (part : str) :
  count (mod_version m) (lit ".") <> 2 ->
  bump_version m part = None.
Proof.
  intros H. unfold bump_version, parse_version.
  pose proof (split_on_from_length "." (mod_version m) []) as Hlen.
  change (count_from 0 (mod_version m) ["."%char])
    with (count (mod_version m) (lit ".")) in Hlen.
  unfold split_on.
  destruct (split_on_from "." [] (mod_version m)) as [|a [|b [|c [|d l]]]];
    try reflexivity.
  cbn [List.length] in Hlen. exfalso. apply H. lia.
Qed.

Lemma bump_version_needs_two_dots_witness :
  bump_version (set_version version_123 (lit "1.2")) (lit "minor") = None.
Proof.
  apply bump_version_needs_two_dots. vm_compute. discriminate.
Defined.

(** ** Sorted queries *)

Section Sorting.

Context {A : Type} (before : A -> A -> bool).

Hypothesis before_total : forall x y, before x y = false -> before y x = true.

Hypothesis before_trans :
  forall x y z, before x y = true -> before y z = true -> before x z = true.

Lemma insert_by_perm (x : A) (l : list A) :
  Permutation (insert_by before x l) (x :: l).
Proof.
  induction l as [|y l IH]; cbn [insert_by]; [reflexivity|].
  destruct (before x y); [reflexivity|].
  rewrite IH. apply perm_swap.
Qed.

Lemma sort_by_perm (l : list A) : Permutation (sort_by before l) l.
Proof.
  induction l as [|x l IH]; [reflexivity|].
  unfold sort_by. cbn [fold_right]. rewrite insert_by_perm.
  now apply perm_skip.
Qed.

Lemma insert_by_sorted (x : A) (l : list A) :
  StronglySorted (fun a b => before a b = true) l ->
  StronglySorted (fun a b => before a b = true) (insert_by before x l).
Proof.
  induction 1 as [|y l Hs IH Hy]; cbn [insert_by].
  - repeat constructor.
  - destruct (before x y) eqn:E.
    + constructor; [now constructor|]. constructor; [exact E|].
      rewrite Forall_forall in *. intros z Hz. eauto.
    + constructor; [exact IH|].
      rewrite Forall_forall in *. intros z Hz.
      apply (Permutation_in _ (insert_by_perm x l)) in Hz.
      destruct Hz as [<- | Hz]; auto.
Qed.

Lemma sort_by_sorted (l : list A) :
  StronglySorted (fun a b => before a b = true) (sort_by before l).
Proof.
  induction l as [|x l IH]; [constructor|].
  unfold sort_by. cbn [fold_right]. now apply insert_by_sorted.
Qed.

End Sorting.

Lemma str_leb_total (a b : str) : str_leb a b = false -> str_leb b a = true.
Proof.
  revert b. induction a as [|x a IH]; intros [|y b]; cbn [str_leb]; auto.
  destruct (Nat.ltb_spec (code x) (code y)); [discriminate|].
  destruct (Nat.ltb_spec (code y) (code x)); [reflexivity|]. apply IH.
Qed.

Lemma str_leb_trans (a b c : str) :
  str_leb a b = true -> str_leb b c = true -> str_leb a c = true.
Proof.
  revert b c. induction a as [|x a IH]; intros [|y b] [|z c];
    cbn [str_leb]; auto; try discriminate.
  intros H12 H23.
  destruct (Nat.ltb_spec (code x) (code z)); [reflexivity|].
  destruct (Nat.ltb_spec (code x) (code y)).
  - destruct (Nat.ltb_spec (code y) (code z)); [lia|].
    destruct (Nat.ltb_spec (code z) (code y)); [discriminate | lia].
  - destruct (Nat.ltb_spec (code y) (code x)); [discriminate|].
    destruct (Nat.ltb_spec (code y) (code z)); [lia|].
    destruct (Nat.ltb_spec (code z) (code y)); [discriminate|].
    destruct (Nat.ltb_spec (code z) (code x)); [lia|].
    exact (IH _ _ H12 H23).
Qed.

Lemma listed_before_total (r1 r2 : Row) :
  listed_before r1 r2 = false -> listed_before r2 r1 = true.
Proof.
  unfold listed_before. intros H.
  apply orb_false_iff in H as [H1 H2]. apply Z.ltb_ge in H1.
  destruct (Z.ltb_spec (row_download_count r1) (row_download_count r2));
    [reflexivity|].
  assert (E : row_download_count r1 = row_download_count r2) by lia.
  rewrite E, Z.eqb_refl in *. cbn [andb orb] in *.
  now apply str_leb_total.
Qed.

Lemma listed_before_trans (r1 r2 r3 : Row) :
  listed_before r1 r2 = true -> listed_before r2 r3 = true ->
  listed_before r1 r3 = true.
Proof.
  unfold listed_before. intros H12 H23.
  destruct (Z.ltb_spec (row_download_count r3) (row_download_count r1));
    [reflexivity|].
  destruct (Z.ltb_spec (row_download_count r2) (row_download_count r1)),
    (Z.ltb_spec (row_download_count r3) (row_download_count r2));
    cbn [orb] in *; try lia.
  apply andb_true_iff in H12 as [E1 L1], H23 as [E2 L2].
  apply Z.eqb_eq in E1, E2.
  replace (row_download_count r1 =? row_download_count r3)%Z with true
    by (symmetry; apply Z.eqb_eq; lia).
  cbn [andb]. exact (str_leb_trans _ _ _ L1 L2).
Qed.

Lemma by_downloads_total (r1 r2 : Row) :
  by_downloads r1 r2 = false -> by_downloads r2 r1 = true.
Proof. unfold by_downloads. rewrite Z.leb_gt, Z.leb_le. lia. Qed.

Lemma by_downloads_trans (r1 r2 r3 : Row) :
  by_downloads r1 r2 = true -> by_downloads r2 r3 = true ->
  by_downloads r1 r3 = true.
Proof. unfold by_downloads. rewrite !Z.leb_le. lia. Qed.

Lemma rows_to_modules_written (rows : list Row) :
  Forall (fun r => exists m, r = row_of_module m) rows ->
  exists ms, rows_to_modules rows = Ok ms /\ map row_of_module ms = rows.
Proof.
  induction 1 as [|r rows [m ->] _ (ms & E & Hms)].
  - exists []. auto.
  - exists (m :: ms). cbn [rows_to_modules].
    rewrite _row_to_module_of_module, E. cbn [map]. now rewrite Hms.
Qed.

Lemma row_of_module_inj (m m' : TerraformModule) :
  row_of_module m = row_of_module m' -> m = m'.
Proof.
  intros H. pose proof (_row_to_module_of_module m) as E.
  rewrite H, _row_to_module_of_module in E. now inversion E.
Qed.

Lemma NoDup_map_inj {X Y} (f : X -> Y) (l : list X) :
  (forall a b, f a = f b -> a = b) -> NoDup l -> NoDup (map f l).
Proof.
  intros Hf. induction 1 as [|x l Hx _ IH]; cbn [map]; constructor; auto.
  intros Hin. apply in_map_iff in Hin as (y & E & Hy).
  apply Hf in E. now subst.
Qed.

Lemma passes_iff (filter_ : option str) (column : str) :
  passes filter_ column = true
  <-> forall wanted, filter_ = Some wanted -> wanted <> [] -> column = wanted.
Proof.
  unfold passes. destruct filter_ as [[|c w]|].
  - split; [|reflexivity]. intros _ wanted E. inversion E. congruence.
  - rewrite str_eqb_eq. split.
    + intros -> wanted E _. now inversion E.
    + intros H. apply H; [reflexivity | discriminate].
  - split; [|reflexivity]. discriminate.
Qed.

(** X19. On a well-formed store [list_modules] returns, each once, the
    stored modules that pass the two filters, a filter that is [None] or
    the empty text passing everything; they come by falling download
    count and, among equal counts, by rising name. *)
Theorem list_modules_listing
  (db : DB) (provider_filter resource_type_filter : option str) :
  store_ok db ->
  exists ms,
    list_modules db provider_filter resource_type_filter = Ok ms
    /\ NoDup ms
    /\ (forall m,
          In m ms
          <-> In (row_of_module m) db
              /\ (forall p, provider_filter = Some p -> p <> [] ->
                    mod_provider m = p)
              /\ (forall t, resource_type_filter = Some t -> t <> [] ->
                    mod_resource_type m = t))
    /\ StronglySorted
         (fun a b =>
            (mod_download_count b < mod_download_count a)%Z
            \/ (mod_download_count a = mod_download_count b
                /\ str_leb (mod_name a) (mod_name b) = true))
         ms.
Proof.
  intros (Hids & _ & Hw). unfold list_modules.
  set (keep := fun r => passes provider_filter (row_provider r)
                        && passes resource_type_filter (row_resource_type r)).
  set (rows := sort_by listed_before (filter keep db)).
  assert (Hperm : Permutation rows (filter keep db))
    by apply sort_by_perm.
  assert (Hrows : Forall (fun r => exists m, r = row_of_module m) rows).
  { apply Forall_forall. intros r Hr.
    apply (Permutation_in _ Hperm), filter_In in Hr as [Hr _].
    rewrite Forall_forall in Hw. now apply Hw. }
  destruct (rows_to_modules_written rows Hrows) as (ms & E & Hms).
  exists ms. split; [exact E|]. split; [|split].
  - apply (NoDup_map_inv row_of_module). rewrite Hms.
    apply (Permutation_NoDup (Permutation_sym Hperm)).
    apply NoDup_filter. now apply NoDup_map_inv in Hids.
  - intros m.
    assert (Hin : In m ms <-> In (row_of_module m) rows).
    { rewrite <- Hms. split; [apply in_map|].
      intros H. apply in_map_iff in H as (m' & E' & H').
      apply row_of_module_inj in E'. now subst. }
    rewrite Hin. split.
    + intros H. apply (Permutation_in _ Hperm), filter_In in H as [H Hk].
      apply andb_true_iff in Hk as [Hp Ht].
      rewrite passes_iff in Hp, Ht. auto.
    + intros (H & Hp & Ht).
      apply (Permutation_in _ (Permutation_sym Hperm)), filter_In.
      split; [exact H|]. apply andb_true_iff. rewrite !passes_iff. auto.
  - pose proof (sort_by_sorted listed_before listed_before_total
                  listed_before_trans (filter keep db)) as Hs.
    fold rows in Hs. rewrite <- Hms in Hs. clear - Hs.
    induction ms as [|a ms IH]; [constructor|].
    cbn [map] in Hs. apply StronglySorted_inv in Hs as [Hs Ha].
    constructor; [now apply IH|].
    rewrite Forall_forall in *. intros b Hb.
    specialize (Ha _ (in_map row_of_module _ _ Hb)).
    unfold listed_before in Ha. cbn [row_of_module row_download_count row_name] in Ha.
    apply orb_true_iff in Ha as [Ha | Ha].
    + left. now apply Z.ltb_lt.
    + right. apply andb_true_iff in Ha as [Ha1 Ha2].
      apply Z.eqb_eq in Ha1. auto.
Qed.

Lemma list_modules_listing_witness :
  exists ms,
    list_modules shadow_db (Some (lit "null")) (Some []) = Ok ms
    /\ forall m, In m ms <-> In (row_of_module m) shadow_db
                             /\ (forall p, Some (lit "null") = Some p ->
                                   p <> [] -> mod_provider m = p)
                             /\ (forall t, Some (@nil ascii) = Some t ->
                                   t <> [] -> mod_resource_type m = t).
Proof.
  assert (Hok : store_ok shadow_db).
  { repeat split.
    - vm_compute. repeat constructor; simpl; intuition discriminate.
    - vm_compute. repeat constructor; simpl; intuition discriminate.
    - repeat constructor; [exists first_module | exists second_module];
        vm_compute; reflexivity. }
  destruct (list_modules_listing shadow_db (Some (lit "null")) (Some []) Hok)
    as (ms & E & _ & Hin & _).
  exists ms. split; [exact E | exact Hin].
Defined.

(** ** Statistics *)

Lemma distinct_in (l : list str) (x : str) : In x (distinct l) <-> In x l.
Proof.
  induction l as [|y l IH]; [reflexivity|]. cbn [distinct In].
  rewrite filter_In, IH, negb_true_iff, str_eqb_neq.
  destruct (str_eqb y x) eqn:E.
  - apply str_eqb_eq in E. tauto.
  - apply str_eqb_neq in E. split; [tauto|].
    intros [H | H]; [tauto|]. right. split; [exact H|]. congruence.
Qed.

Lemma distinct_NoDup (l : list str) : NoDup (distinct l).
Proof.
  induction l as [|y l IH]; cbn [distinct]; constructor.
  - rewrite filter_In, negb_true_iff, str_eqb_neq. tauto.
  - now apply NoDup_filter.
Qed.

Lemma provider_count_cons (r : Row) (db : DB) (p : str) :
  provider_count (r :: db) p
  = ((if str_eqb (row_provider r) p then 1 else 0) + provider_count db p)%Z.
Proof.
  unfold provider_count. cbn [filter].
  destruct (str_eqb (row_provider r) p); cbn [List.length]; lia.
Qed.

Lemma sum_indicator (ks : list str) (p : str) :
  NoDup ks ->
  fold_right Z.add 0%Z (map (fun k => if str_eqb p k then 1 else 0)%Z ks)
  = (if existsb (str_eqb p) ks then 1 else 0)%Z.
Proof.
  induction 1 as [|k ks Hk _ IH]; [reflexivity|].
  cbn [map fold_right existsb]. rewrite IH.
  destruct (str_eqb p k) eqn:E; [|reflexivity].
  apply str_eqb_eq in E. subst k.
  destruct (existsb (str_eqb p) ks) eqn:E'; [|reflexivity].
  apply existsb_exists in E' as (x & Hx & E'). apply str_eqb_eq in E'.
  now subst.
Qed.

Lemma sum_counts (db : DB) (ks : list str) :
  NoDup ks -> (forall r, In r db -> In (row_provider r) ks) ->
  fold_right Z.add 0%Z (map (provider_count db) ks)
  = Z.of_nat (List.length db).
Proof.
  intros Hnd. induction db as [|r db IH]; intros Hall.
  - unfold provider_count. cbn [filter List.length].
    induction ks as [|k ks IHk]; [reflexivity|].
    cbn [map fold_right]. inversion Hnd; subst. now rewrite IHk.
  - assert (E : fold_right Z.add 0%Z (map (provider_count (r :: db)) ks)
                = (fold_right Z.add 0%Z
                     (map (fun k => if str_eqb (row_provider r) k then 1 else 0)%Z ks)
                   + fold_right Z.add 0%Z (map (provider_count db) ks))%Z).
    { clear. induction ks as [|k ks IHk]; [reflexivity|].
      cbn [map fold_right]. rewrite IHk, provider_count_cons. lia. }
    rewrite E, IH, (sum_indicator ks _ Hnd) by (intros; apply Hall; now right).
    replace (existsb (str_eqb (row_provider r)) ks) with true.
    + cbn [List.length]. lia.
    + symmetry. apply existsb_exists. exists (row_provider r).
      split; [apply Hall; now left | apply str_eqb_refl].
Qed.

Lemma sum_perm (l l' : list Z) :
  Permutation l l' -> fold_right Z.add 0%Z l = fold_right Z.add 0%Z l'.
Proof. induction 1; cbn [fold_right]; lia. Qed.

Lemma provider_groups_perm (db : DB) :
  Permutation (provider_groups db)
    (map (fun p => (p, provider_count db p)) (distinct (map row_provider db))).
Proof.
  unfold provider_groups. rewrite sort_by_perm.
  apply Permutation_map, sort_by_perm.
Qed.

Lemma provider_groups_wf (db : DB) : dict_wf (provider_groups db).
Proof.
  unfold dict_wf, dict_keys.
  apply (Permutation_NoDup
           (Permutation_sym (Permutation_map fst (provider_groups_perm db)))).
  rewrite map_map. cbn [fst]. rewrite map_id. apply distinct_NoDup.
Qed.

Lemma provider_count_pos (db : DB) (p : str) :
  In p (map row_provider db) -> (0 < provider_count db p)%Z.
Proof.
  intros H. apply in_map_iff in H as (r & <- & Hr). unfold provider_count.
  assert (Hin : In r (filter (fun x => str_eqb (row_provider x) (row_provider r)) db)).
  { apply filter_In. split; [exact Hr | apply str_eqb_refl]. }
  destruct (filter _ db); [destruct Hin | cbn [List.length]; lia].
Qed.

Lemma StronglySorted_impl {X} (R R' : X -> X -> Prop) (l : list X) :
  (forall a b, R a b -> R' a b) -> StronglySorted R l -> StronglySorted R' l.
Proof.
  intros H. induction 1 as [|a l Hl IH Ha]; constructor; [exact IH|].
  rewrite Forall_forall in *. auto.
Qed.

(** X20. The statistics count every row once: [total_modules] is the
    number of rows, [by_provider] maps each provider that has rows, and no
    other, to the number of its rows, these numbers add up to
    [total_modules], and they come in falling order. *)
Theorem get_stats_counts (db : DB) :
  total_modules (get_stats db) = Z.of_nat (List.length db)
  /\ (forall p, In p (map row_provider db) ->
        dict_get (by_provider (get_stats db)) p = Some (provider_count db p)
        /\ (0 < provider_count db p)%Z)
  /\ (forall p, ~ In p (map row_provider db) ->
        dict_get (by_provider (get_stats db)) p = None)
  /\ fold_right Z.add 0%Z (map snd (by_provider (get_stats db)))
     = total_modules (get_stats db)
  /\ StronglySorted (fun g1 g2 => (snd g2 <= snd g1)%Z)
       (by_provider (get_stats db)).
Proof.
  unfold get_stats. cbn [total_modules by_provider].
  rewrite (dict_of_pairs_wf _ (provider_groups_wf db)).
  pose proof (provider_groups_perm db) as Hperm.
  split; [reflexivity|]. split; [|split; [|split]].
  - intros p Hp. split; [|now apply provider_count_pos].
    apply dict_in_get; [apply provider_groups_wf|].
    apply (Permutation_in _ (Permutation_sym Hperm)).
    apply in_map_iff. exists p. split; [reflexivity|]. now apply distinct_in.
  - intros p Hp. apply dict_get_none_iff. intros Hin. apply Hp.
    unfold dict_keys in Hin. apply in_map_iff in Hin as ([k n] & <- & Hin).
    apply (Permutation_in _ Hperm), in_map_iff in Hin as (k' & E & Hin).
    inversion E; subst. cbn [fst]. exact (proj1 (distinct_in _ _) Hin).
  - rewrite (sum_perm _ _ (Permutation_map snd Hperm)), map_map. cbn [snd].
    apply sum_counts; [apply distinct_NoDup|].
    intros r Hr. apply distinct_in. now apply in_map.
  - unfold provider_groups.
    apply (StronglySorted_impl
             (fun g1 g2 : str * Z => (snd g2 <=? snd g1)%Z = true)).
    + intros a b. apply Z.leb_le.
    + apply sort_by_sorted.
      * intros x y. rewrite Z.leb_gt, Z.leb_le. lia.
      * intros x y z. rewrite !Z.leb_le. lia.
Qed.

Lemma StronglySorted_app_inv {X} (R : X -> X -> Prop) (l1 l2 : list X) :
  StronglySorted R (l1 ++ l2) ->
  forall a b, In a l1 -> In b l2 -> R a b.
Proof.
  induction l1 as [|x l1 IH]; intros Hs a b Ha Hb; [destruct Ha|].
  cbn [app] in Hs. apply StronglySorted_inv in Hs as [Hs Hx].
  destruct Ha as [<- | Ha].
  - rewrite Forall_forall in Hx. apply Hx, in_or_app. now right.
  - now apply IH.
Qed.

(** X21. [most_downloaded] lists five rows, or all of them when there
    are fewer, by falling download count, and no row left out has been
    downloaded more often than a row listed. *)
Theorem get_stats_most_downloaded (db : DB) :
  exists top rest,
    Permutation db (top ++ rest)
    /\ most_downloaded (get_stats db) = map top_entry top
    /\ List.length top = Nat.min 5 (List.length db)
    /\ (forall a b, In a top -> In b rest ->
          (row_download_count b <= row_download_count a)%Z)
    /\ StronglySorted (fun a b => (top_downloads b <= top_downloads a)%Z)
         (most_downloaded (get_stats db)).
Proof.
  set (sorted := sort_by by_downloads db).
  assert (Hperm : Permutation sorted db) by apply sort_by_perm.
  assert (Hs : StronglySorted
                 (fun a b => (row_download_count b <= row_download_count a)%Z)
                 sorted).
  { apply (StronglySorted_impl (fun a b => by_downloads a b = true)).
    - intros a b. apply Z.leb_le.
    - apply sort_by_sorted;
        [exact by_downloads_total | exact by_downloads_trans]. }
  exists (firstn 5 sorted), (skipn 5 sorted).
  rewrite firstn_skipn. split; [now apply Permutation_sym|].
  split; [reflexivity|]. split; [|split].
  - rewrite length_firstn. now rewrite (Permutation_length Hperm).
  - apply StronglySorted_app_inv. now rewrite firstn_skipn.
  - unfold get_stats. cbn [most_downloaded]. fold sorted.
    rewrite <- (firstn_skipn 5 sorted) in Hs.
    assert (Hf : StronglySorted
                   (fun a b => (row_download_count b <= row_download_count a)%Z)
                   (firstn 5 sorted)).
    { clear - Hs. induction (firstn 5 sorted) as [|x l IH]; [constructor|].
      cbn [app] in Hs. apply StronglySorted_inv in Hs as [Hs Hx].
      constructor; [now apply IH|].
      rewrite Forall_forall in *. intros b Hb. apply Hx, in_or_app. now left. }
    clear - Hf. induction Hf as [|a l Hl IH Ha]; cbn [map]; constructor;
      [exact IH|].
    rewrite Forall_forall in *. intros e He.
    apply in_map_iff in He as (b & <- & Hb). exact (Ha b Hb).
Qed.

(** ** Searching *)

Lemma code_ascii_of_nat (n : nat) : n < 256 -> code (ascii_of_nat n) = n.
Proof. apply nat_ascii_embedding. Qed.

Lemma code_lt_256 (c : ascii) : code c < 256.
Proof. apply nat_ascii_bounded. Qed.

Lemma code_inj (c d : ascii) : code c = code d -> c = d.
Proof.
  intros H. rewrite <- (ascii_nat_embedding c), <- (ascii_nat_embedding d).
  unfold code in H. now rewrite H.
Qed.

Lemma sql_lower_above (n : nat) :
  90 < n -> n < 256 -> sql_lower_char (ascii_of_nat n) = ascii_of_nat n.
Proof.
  intros H1 H2. unfold sql_lower_char. cbv zeta.
  rewrite code_ascii_of_nat by exact H2.
  replace (n <=? 90) with false by (symmetry; apply Nat.leb_gt; lia).
  now rewrite andb_false_r.
Qed.

Lemma sql_lower_char_idem (c : ascii) :
  sql_lower_char (sql_lower_char c) = sql_lower_char c.
Proof.
  unfold sql_lower_char at 2 3. cbv zeta.
  destruct ((65 <=? code c) && (code c <=? 90)) eqn:E.
  - apply andb_true_iff in E as [E1 E2]. apply Nat.leb_le in E1, E2.
    apply sql_lower_above; lia.
  - unfold sql_lower_char. cbv zeta. now rewrite E.
Qed.

Lemma sql_lower_py_lower (c : ascii) :
  sql_lower_char (py_lower_char c) = py_lower_char c.
Proof.
  unfold py_lower_char. cbv zeta.
  destruct ((65 <=? code c) && (code c <=? 90)) eqn:E1.
  - cbn [orb]. apply andb_true_iff in E1 as [E1 E2]. apply Nat.leb_le in E1, E2.
    apply sql_lower_above; lia.
  - cbn [orb].
    destruct ((192 <=? code c) && (code c <=? 222) && negb (code c =? 215)) eqn:E2.
    + apply andb_true_iff in E2 as [E2 _].
      apply andb_true_iff in E2 as [E2 E3]. apply Nat.leb_le in E2, E3.
      apply sql_lower_above; lia.
    + unfold sql_lower_char. cbv zeta. now rewrite E1.
Qed.

Lemma py_lower_char_plain (c : ascii) :
  is_char 37 c = false /\ is_char 95 c = false /\ is_char 0 c = false ->
  is_char 37 (py_lower_char c) = false
  /\ is_char 95 (py_lower_char c) = false
  /\ is_char 0 (py_lower_char c) = false.
Proof.
  unfold is_char, py_lower_char. cbv zeta. rewrite !Nat.eqb_neq.
  intros (H1 & H2 & H3).
  destruct (_ || _) eqn:E; [|auto].
  assert (Hr : 65 <= code c <= 90 \/ 192 <= code c <= 222).
  { apply orb_true_iff in E as [E | E].
    - apply andb_true_iff in E as [E1 E2]. apply Nat.leb_le in E1, E2. lia.
    - apply andb_true_iff in E as [E _].
      apply andb_true_iff in E as [E1 E2]. apply Nat.leb_le in E1, E2. lia. }
  rewrite code_ascii_of_nat by lia. lia.
Qed.

Lemma c_str_plain (s : str) :
  Forall (fun c => is_char 0 c = false) s -> c_str s = s.
Proof.
  induction 1 as [|c s Hc _ IH]; [reflexivity|].
  cbn [c_str]. now rewrite Hc, IH.
Qed.

Lemma c_str_prefix (s : str) : exists rest, s = c_str s ++ rest.
Proof.
  induction s as [|c s [rest IH]]; [now exists []|].
  cbn [c_str]. destruct (is_char 0 c).
  - now exists (c :: s).
  - exists rest. cbn [app]. now rewrite <- IH.
Qed.

Lemma like_from_percent (s : str) : like_from ["%"%char] s = true.
Proof.
  induction s as [|c s IH]; [reflexivity|].
  change (like_from ["%"%char] (c :: s))
    with (like_from [] (c :: s) || like_from ["%"%char] s).
  rewrite IH. apply orb_true_r.
Qed.

Lemma like_from_star (p s : str) :
  like_from ("%"%char :: p) s = true
  <-> exists a b, s = a ++ b /\ like_from p b = true.
Proof.
  induction s as [|c s IH].
  - change (like_from ("%"%char :: p) []) with (like_from p [] || false).
    rewrite orb_false_r. split.
    + intros H. now exists [], [].
    + intros (a & b & E & H). symmetry in E.
      apply app_eq_nil in E as [-> ->]. exact H.
  - change (like_from ("%"%char :: p) (c :: s))
      with (like_from p (c :: s) || like_from ("%"%char :: p) s).
    rewrite orb_true_iff, IH. split.
    + intros [H | (a & b & -> & H)].
      * now exists [], (c :: s).
      * now exists (c :: a), b.
    + intros ([|x a] & b & E & H).
      * left. cbn [app] in E. now subst.
      * right. cbn [app] in E. inversion E; subst. now exists a, b.
Qed.

Lemma like_from_plain (q rest s : str) :
  Forall (fun c => is_char 37 c = false /\ is_char 95 c = false) q ->
  like_from (q ++ rest) s = true
  <-> exists x b, s = x ++ b
                  /\ map sql_lower_char x = map sql_lower_char q
                  /\ like_from rest b = true.
Proof.
  intros Hq. revert s. induction Hq as [|c q [H1 H2] _ IH]; intros s.
  - cbn [app]. split.
    + intros H. now exists [], s.
    + intros (x & b & -> & E & H). destruct x; [exact H | discriminate].
  - cbn [app like_from]. rewrite H1, H2. destruct s as [|d s].
    + split; [discriminate|]. intros ([|x0 x] & b & E & E' & _); discriminate.
    + rewrite andb_true_iff, IH. split.
      * intros (Hc & x & b & -> & E & H). exists (d :: x), b.
        cbn [map app]. apply Ascii.eqb_eq in Hc. rewrite Hc, E. auto.
      * intros ([|x0 x] & b & E & E' & H); [discriminate|].
        cbn [map app] in *. inversion E; subst. inversion E'.
        split; [apply Ascii.eqb_eq; congruence|]. now exists x, b.
Qed.

Lemma like_contains (q s : str) :
  plain_query q ->
  Forall (fun c => sql_lower_char c = c) q ->
  Forall (fun c => sql_lower_char c = c) s ->
  like s (lit "%" ++ q ++ lit "%") = true <-> occurs q (c_str s).
Proof.
  intros Hq Hfq Hfs. unfold like.
  assert (Hp : c_str (lit "%" ++ q ++ lit "%") = "%"%char :: q ++ ["%"%char]).
  { apply c_str_plain. constructor; [reflexivity|].
    apply Forall_app. split; [|now repeat constructor].
    eapply Forall_impl; [|exact Hq]. now intros c (_ & _ & H). }
  rewrite Hp, like_from_star.
  assert (Hfold : forall x, Forall (fun c => sql_lower_char c = c) x ->
                            map sql_lower_char x = x).
  { induction 1 as [|c x Hc _ IH]; [reflexivity|]. cbn [map]. now rewrite Hc, IH. }
  assert (Hfc : Forall (fun c => sql_lower_char c = c) (c_str s)).
  { destruct (c_str_prefix s) as [rest E]. rewrite E in Hfs.
    now apply Forall_app in Hfs as [H _]. }
  split.
  - intros (a & b & E & H).
    apply like_from_plain in H as (x & b' & -> & Ex & _).
    2:{ eapply Forall_impl; [|exact Hq]. now intros c (H1 & H2 & _). }
    rewrite E in Hfc. apply Forall_app in Hfc as [_ Hfc].
    apply Forall_app in Hfc as [Hfx _].
    rewrite (Hfold x Hfx), (Hfold q Hfq) in Ex. subst x.
    exists a, b'. exact E.
  - intros (a & b & E). exists a, (q ++ b). split; [exact E|].
    apply like_from_plain.
    + eapply Forall_impl; [|exact Hq]. now intros c (H1 & H2 & _).
    + exists q, b. repeat split. apply like_from_percent.
Qed.

Lemma sql_lower_folded (s : str) :
  Forall (fun c => sql_lower_char c = c) (sql_lower s).
Proof.
  unfold sql_lower. apply Forall_forall. intros c Hc.
  apply in_map_iff in Hc as (d & <- & _). apply sql_lower_char_idem.
Qed.

Lemma py_lower_folded (s : str) :
  Forall (fun c => sql_lower_char c = c) (py_lower s).
Proof.
  unfold py_lower. apply Forall_forall. intros c Hc.
  apply in_map_iff in Hc as (d & <- & _). apply sql_lower_py_lower.
Qed.

Lemma py_lower_plain (q : str) : plain_query q -> plain_query (py_lower q).
Proof.
  unfold plain_query, py_lower. induction 1 as [|c q Hc _ IH]; cbn [map];
    constructor; [now apply py_lower_char_plain | exact IH].
Qed.

Lemma search_found (db : DB) (query : str) :
  store_ok db ->
  utf8_length (search_pattern query) <= MAX_LIKE_PATTERN_LENGTH ->
  exists ms,
    search db query = Found ms
    /\ NoDup ms
    /\ (forall m, In m ms
                  <-> In (row_of_module m) db
                      /\ search_hit (search_pattern query) (row_of_module m)
                         = true)
    /\ StronglySorted
         (fun a b => (mod_download_count b <= mod_download_count a)%Z) ms.
Proof.
  intros (Hids & _ & Hw) Hlen. unfold search.
  destruct db as [|r0 db0] eqn:Edb.
  - exists []. split; [reflexivity|]. split; [constructor|].
    split; [|constructor]. intros m. cbn [In]. tauto.
  - rewrite <- Edb in *. clear Edb r0 db0.
    replace (MAX_LIKE_PATTERN_LENGTH <? utf8_length (search_pattern query))
      with false by (symmetry; apply Nat.ltb_ge; exact Hlen).
    set (q := search_pattern query).
    set (rows := sort_by by_downloads (filter (search_hit q) db)).
    assert (Hperm : Permutation rows (filter (search_hit q) db))
      by apply sort_by_perm.
    assert (Hrows : Forall (fun r => exists m, r = row_of_module m) rows).
    { apply Forall_forall. intros r Hr.
      apply (Permutation_in _ Hperm), filter_In in Hr as [Hr _].
      rewrite Forall_forall in Hw. now apply Hw. }
    destruct (rows_to_modules_written rows Hrows) as (ms & E & Hms).
    exists ms. rewrite E. split; [reflexivity|]. split; [|split].
    + apply (NoDup_map_inv row_of_module). rewrite Hms.
      apply (Permutation_NoDup (Permutation_sym Hperm)).
      apply NoDup_filter. now apply NoDup_map_inv in Hids.
    + intros m.
      assert (Hin : In m ms <-> In (row_of_module m) rows).
      { rewrite <- Hms. split; [apply in_map|].
        intros H. apply in_map_iff in H as (m' & E' & H').
        apply row_of_module_inj in E'. now subst. }
      rewrite Hin, <- filter_In. split; apply Permutation_in;
        [exact Hperm | now apply Permutation_sym].
    + assert (Hs : StronglySorted (fun a b => by_downloads a b = true) rows)
        by (apply sort_by_sorted;
            [exact by_downloads_total | exact by_downloads_trans]).
      rewrite <- Hms in Hs. clear - Hs.
      induction ms as [|a ms IH]; [constructor|].
      cbn [map] in Hs. apply StronglySorted_inv in Hs as [Hs Ha].
      constructor; [now apply IH|].
      rewrite Forall_forall in *. intros b Hb.
      specialize (Ha _ (in_map row_of_module _ _ Hb)).
      now apply Z.leb_le in Ha.
Qed.

(** X22. For a query without percent sign, underscore and NUL, and of a
    length SQLite accepts, [search] on a well-formed store returns, each
    once and by falling download count, the stored modules one of whose
    five searched columns, lowered by SQLite and read up to its first NUL,
    contains the query as Python lowers it. The column of the tags is
    searched as the JSON text it holds. *)
Theorem search_plain_query (db : DB) (query : str) :
  store_ok db ->
  plain_query query ->
  utf8_length (search_pattern query) <= MAX_LIKE_PATTERN_LENGTH ->
  exists ms,
    search db query = Found ms
    /\ NoDup ms
    /\ (forall m,
          In m ms
          <-> In (row_of_module m) db
              /\ exists column,
                   In column (searched_columns (row_of_module m))
                   /\ occurs (py_lower query) (c_str (sql_lower column)))
    /\ StronglySorted
         (fun a b => (mod_download_count b <= mod_download_count a)%Z) ms.
Proof.
  intros Hok Hq Hlen.
  destruct (search_found db query Hok Hlen) as (ms & E & Hnd & Hin & Hs).
  exists ms. split; [exact E|]. split; [exact Hnd|]. split; [|exact Hs].
  intros m. rewrite Hin. unfold search_hit. rewrite existsb_exists.
  split; intros (H & column & Hc & Hl); (split; [exact H|]);
    exists column; (split; [exact Hc|]);
    apply (like_contains (py_lower query) (sql_lower column)
             (py_lower_plain _ Hq) (py_lower_folded _) (sql_lower_folded _));
    exact Hl.
Qed.

Lemma search_plain_query_witness :
  exists ms,
    search shadow_db (lit "FIRST") = Found ms
    /\ forall m,
         In m ms
         <-> In (row_of_module m) shadow_db
             /\ exists column,
                  In column (searched_columns (row_of_module m))
                  /\ occurs (py_lower (lit "FIRST")) (c_str (sql_lower column)).
Proof.
  assert (Hok : store_ok shadow_db).
  { repeat split.
    - vm_compute. repeat constructor; simpl; intuition discriminate.
    - vm_compute. repeat constructor; simpl; intuition discriminate.
    - repeat constructor; [exists first_module | exists second_module];
        vm_compute; reflexivity. }
  assert (Hq : plain_query (lit "FIRST")) by (repeat constructor).
  assert (Hlen : utf8_length (search_pattern (lit "FIRST"))
                 <= MAX_LIKE_PATTERN_LENGTH).
  { apply Nat.leb_le. vm_compute. reflexivity. }
  destruct (search_plain_query shadow_db (lit "FIRST") Hok Hq Hlen)
    as (ms & E & _ & Hin & _).
  exists ms. split; [exact E | exact Hin].
Defined.

Lemma like_percent (s : str) : like s (lit "%%") = true.
Proof.
  unfold like. change (c_str (lit "%%")) with ["%"%char; "%"%char].
  apply like_from_star. exists [], (c_str s). split; [reflexivity|].
  apply like_from_percent.
Qed.

Lemma like_underscore (s : str) :
  c_str s <> [] -> like s (lit "%_%") = true.
Proof.
  intros H. unfold like.
  change (c_str (lit "%_%")) with ["%"%char; "_"%char; "%"%char].
  apply like_from_star. exists [], (c_str s). split; [reflexivity|].
  destruct (c_str s) as [|c r]; [congruence|].
  change (like_from ["%"%char] r = true).
  apply like_from_percent.
Qed.

(** X23. The wildcards of LIKE are not escaped: on a well-formed store
    the empty query, the query [%] and the query [_] all return every
    stored module, the last because the column of the tags is never
    empty. *)
Theorem search_wildcards_return_all (db : DB) (query : str) :
  store_ok db ->
  query = [] \/ query = lit "%" \/ query = lit "_" ->
  exists ms,
    search db query = Found ms
    /\ NoDup ms
    /\ forall m, In m ms <-> In (row_of_module m) db.
Proof.
  intros Hok Hquery.
  assert (Hlen : utf8_length (search_pattern query) <= MAX_LIKE_PATTERN_LENGTH).
  { apply Nat.leb_le.
    destruct Hquery as [-> | [-> | ->]]; vm_compute; reflexivity. }
  destruct (search_found db query Hok Hlen) as (ms & E & Hnd & Hin & _).
  exists ms. split; [exact E|]. split; [exact Hnd|].
  intros m. rewrite Hin. split; [tauto|]. intros H. split; [exact H|].
  unfold search_hit. apply existsb_exists.
  destruct Hquery as [-> | [-> | ->]].
  - exists (row_name (row_of_module m)). split; [now left|].
    apply like_percent.
  - exists (row_name (row_of_module m)). split; [now left|].
    change (search_pattern (lit "%")) with (lit "%%%").
    unfold like. change (c_str (lit "%%%")) with ["%"%char; "%"%char; "%"%char].
    apply like_from_star. exists [], (c_str (sql_lower (row_name (row_of_module m)))).
    split; [reflexivity|]. apply (like_percent (sql_lower (row_name (row_of_module m)))).
  - exists (row_tags (row_of_module m)).
    split; [cbn [searched_columns In]; tauto|].
    apply like_underscore.
    cbn [row_of_module row_tags]. unfold json_dumps.
    cbn [sql_lower map app c_str]. discriminate.
Qed.

Lemma search_wildcards_return_all_witness :
  exists ms,
    search shadow_db (lit "_") = Found ms
    /\ forall m, In m ms <-> In (row_of_module m) shadow_db.
Proof.
  assert (Hok : store_ok shadow_db).
  { repeat split.
    - vm_compute. repeat constructor; simpl; intuition discriminate.
    - vm_compute. repeat constructor; simpl; intuition discriminate.
    - repeat constructor; [exists first_module | exists second_module];
        vm_compute; reflexivity. }
  destruct (search_wildcards_return_all shadow_db (lit "_") Hok
              (or_intror (or_intror eq_refl)))
    as (ms & E & _ & Hin).
  exists ms. split; [exact E | exact Hin].
Defined.

(** ** The documentation page *)

Lemma occurs_join_segment (sep : str) (a seg b : list str) :
  seg <> [] -> occurs (join sep seg) (join sep (a ++ seg ++ b)).
Proof.
  intros H. apply (occurs_trans _ (join sep (seg ++ b))).
  - now apply occurs_join_prefix.
  - apply (occurs_join sep a (seg ++ b)); [|reflexivity].
    destruct seg; [congruence | discriminate].
Qed.

Lemma docs_lines_head (m : TerraformModule) :
  exists rest, docs_lines m = (lit "# " ++ mod_name m) :: [] :: rest.
Proof.
  unfold docs_lines. cbv zeta.
  destruct (mod_examples m), (mod_tags m); rewrite <- ?app_assoc;
    cbn [app]; eexists; reflexivity.
Qed.

Lemma docs_lines_rows (m : TerraformModule) :
  exists a b c,
    docs_lines m
    = a ++ map docs_variable_row (mod_variables m)
        ++ b ++ map docs_output_row (mod_outputs m)
        ++ [[]; lit "## HCL Template"; []]
        ++ [lit "```hcl"; mod_hcl_template m; lit "```"] ++ c.
Proof.
  unfold docs_lines. cbv zeta.
  destruct (mod_examples m), (mod_tags m); rewrite <- ?app_assoc;
    cbn [app]; eexists (_ :: _ :: _ :: _ :: _ :: _ :: _ :: _ :: _ :: [_]),
                 [_; _; _; _; _], _; cbn [app]; reflexivity.
Qed.

Lemma docs_lines_examples (m : TerraformModule) (ex : TerraformExample) :
  In ex (mod_examples m) ->
  exists a b, docs_lines m = a ++ docs_example ex ++ b.
Proof.
  intros Hin. unfold docs_lines. cbv zeta.
  destruct (mod_examples m) as [|e0 es] eqn:Ee; [destruct Hin|].
  rewrite <- Ee in *. clear Ee e0 es.
  apply in_split in Hin as (l1 & l2 & ->).
  rewrite flat_map_app. cbn [flat_map].
  match goal with
  | |- exists a b, match _ with [] => ?P ++ ?F1 ++ ?D ++ ?F2 | _ :: _ => _ end
                   ++ ?M = _ =>
      remember P as p eqn:Ep; remember F1 as f1 eqn:Ef1;
      remember F2 as f2 eqn:Ef2; remember M as mt eqn:Em;
      clear Ep Ef1 Ef2 Em
  end.
  destruct (mod_tags m) as [|t ts].
  - exists (p ++ f1), (f2 ++ mt). now rewrite <- !app_assoc.
  - match goal with
    | |- exists a b, (_ ++ ?T) ++ _ = _ => remember T as tg eqn:Et; clear Et
    end.
    exists (p ++ f1), (f2 ++ tg ++ mt). now rewrite <- !app_assoc.
Qed.

Lemma docs_lines_tags (m : TerraformModule) :
  mod_tags m <> [] ->
  exists a b,
    docs_lines m
    = a ++ [lit "## Tags"; []; join (lit ", ") (map backticked (mod_tags m))]
        ++ b.
Proof.
  intros Ht. unfold docs_lines. cbv zeta.
  destruct (mod_tags m) as [|t0 ts] eqn:Et; [congruence|].
  rewrite <- Et in *. clear Et t0 ts.
  eexists; eexists.
  rewrite <- (app_assoc _ [_; _; _; _]). cbn [app]. 
  change ([lit "## Tags"; []; join (lit ", ") (map backticked (mod_tags m));
           []; lit "## Metadata"; []; lit "- **ID:** " ++ backticked (mod_id m);
           lit "- **Created:** " ++ mod_created_at m;
           lit "- **Downloads:** " ++ str_of_Z (mod_download_count m)])
    with ([lit "## Tags"; []; join (lit ", ") (map backticked (mod_tags m))]
          ++ [[]; lit "## Metadata"; []; lit "- **ID:** " ++ backticked (mod_id m);
              lit "- **Created:** " ++ mod_created_at m;
              lit "- **Downloads:** " ++ str_of_Z (mod_download_count m)]).
  reflexivity.
Qed.

(** X24. [generate_docs] raises [KeyError] for a reference that matches
    no row; for a module that [get_module] returns it gives a page that
    opens with the module's name as its title and holds the template
    between code fences, one table row for each variable and each output,
    one section for each example, and the tags, in backticks and
    separated by commas, when there are any. *)
Theorem generate_docs_page (db : DB) (ref : str) :
  (select_module db ref = None ->
   generate_docs db ref = Raise (KeyError ref))
  /\ (forall m, get_module db ref = Ok m ->
        exists doc,
          generate_docs db ref = Ok doc
          /\ startswith doc (lit "# " ++ mod_name m ++ newline) = true
          /\ occurs (join newline
                       [lit "```hcl"; mod_hcl_template m; lit "```"]) doc
          /\ (forall v, In v (mod_variables m) ->
                occurs (docs_variable_row v) doc)
          /\ (forall o, In o (mod_outputs m) ->
                occurs (docs_output_row o) doc)
          /\ (forall ex, In ex (mod_examples m) ->
                occurs (join newline (docs_example ex)) doc)
          /\ (mod_tags m <> [] ->
              occurs (join newline
                        [lit "## Tags"; [];
                         join (lit ", ") (map backticked (mod_tags m))])
                doc)).
Proof.
  split.
  - intros H. unfold generate_docs. now rewrite (get_module_not_found db ref H).
  - intros m Hget. unfold generate_docs. rewrite Hget.
    exists (join newline (docs_lines m)). split; [reflexivity|].
    destruct (docs_lines_rows m) as (a & b & c & Hrows).
    split; [|split; [|split; [|split; [|split]]]].
    + destruct (docs_lines_head m) as [rest ->].
      apply startswith_iff. exists (join newline ([] :: rest)).
      rewrite join_cons by discriminate. now rewrite <- !app_assoc.
    + rewrite Hrows, !app_assoc, <- (app_assoc _ [_; _; _] c).
      apply occurs_join_segment. discriminate.
    + intros v Hv. apply in_lines_occurs. rewrite Hrows.
      apply in_or_app. right. apply in_or_app. left. now apply in_map.
    + intros o Ho. apply in_lines_occurs. rewrite Hrows.
      apply in_or_app. right. apply in_or_app. right.
      apply in_or_app. right. apply in_or_app. left. now apply in_map.
    + intros ex Hex. destruct (docs_lines_examples m ex Hex) as (x & y & ->).
      apply occurs_join_segment. discriminate.
    + intros Ht. destruct (docs_lines_tags m Ht) as (x & y & ->).
      apply occurs_join_segment. discriminate.
Qed.

Lemma generate_docs_page_witness :
  exists doc,
    generate_docs sample_db (lit "gen_test") = Ok doc
    /\ startswith doc (lit "# gen_test" ++ newline) = true
    /\ occurs (join newline [lit "```hcl"; SIMPLE_HCL; lit "```"]) doc.
Proof.
  assert (Hget : get_module sample_db (lit "gen_test") = Ok sample_module)
    by (vm_compute; reflexivity).
  destruct (generate_docs_page sample_db (lit "gen_test")) as [_ H].
  destruct (H sample_module Hget) as (doc & E & Hs & Ht & _).
  exists doc. split; [exact E|]. split; [exact Hs | exact Ht].
Defined.

(** ** The variables of the command line *)

Lemma span_app (p : ascii -> bool) (a : str) (c : ascii) (r : str) :
  Forall (fun x => p x = true) a -> p c = false ->
  span p (a ++ c :: r) = (a, c :: r).
Proof.
  intros Ha Hc. induction Ha as [|x a Hx _ IH]; cbn [app span].
  - now rewrite Hc.
  - now rewrite Hx, IH.
Qed.

Lemma differs_iff (sep : ascii) (k : str) :
  Forall (fun c => negb (Ascii.eqb c sep) = true) k <-> ~ In sep k.
Proof.
  rewrite Forall_forall. split.
  - intros H Hin. specialize (H sep Hin).
    now rewrite Ascii.eqb_refl in H.
  - intros H c Hc. apply negb_true_iff, Ascii.eqb_neq. congruence.
Qed.

Lemma split_once_cut (sep : ascii) (k v : str) :
  ~ In sep k -> split_once sep (k ++ sep :: v) = [k; v].
Proof.
  intros H. unfold split_once. rewrite span_app; [reflexivity | |].
  - now apply differs_iff.
  - now rewrite Ascii.eqb_refl.
Qed.

Lemma split_once_cases (sep : ascii) (kv : str) :
  (~ In sep kv /\ split_once sep kv = [kv])
  \/ exists k v, kv = k ++ sep :: v /\ ~ In sep k
                 /\ split_once sep kv = [k; v].
Proof.
  unfold split_once.
  destruct (span (fun c => negb (Ascii.eqb c sep)) kv) as [k r] eqn:E.
  apply span_spec in E as (-> & Hk & Hr). apply differs_iff in Hk.
  destruct r as [|c v].
  - left. rewrite app_nil_r. auto.
  - right. apply negb_false_iff, Ascii.eqb_eq in Hr. subst c.
    exists k, v. auto.
Qed.

Lemma cli_vars_from_none (var : list str) (acc : dict pyval) :
  cli_vars_from acc var = None
  <-> exists kv, In kv var /\ ~ In "="%char kv.
Proof.
  revert acc. induction var as [|kv var IH]; intros acc; cbn [cli_vars_from].
  - split; [discriminate | intros (kv & [] & _)].
  - destruct (split_once_cases "=" kv) as [[Hno ->] | (k & v & Hkv & Hk & ->)].
    + split; [|reflexivity]. intros _. exists kv. split; [now left | exact Hno].
    + rewrite IH. split.
      * intros (x & Hx & Hno). exists x. split; [now right | exact Hno].
      * intros (x & [<- | Hx] & Hno); [|now exists x].
        exfalso. apply Hno. rewrite Hkv. apply in_or_app. right. now left.
Qed.

Lemma cli_vars_from_some (var : list str) (acc d : dict pyval) :
  cli_vars_from acc var = Some d ->
  dict_wf acc ->
  dict_wf d
  /\ forall k v, dict_get d k = Some v ->
       dict_get acc k = Some v
       \/ (~ In "="%char k
           /\ exists s, v = PStr s /\ In (k ++ lit "=" ++ s) var).
Proof.
  revert acc. induction var as [|kv var IH]; intros acc; cbn [cli_vars_from].
  - intros E Hwf. inversion E; subst. auto.
  - destruct (split_once_cases "=" kv) as [[Hno ->] | (k & v & Hkv & Hk & ->)];
      [discriminate|].
    intros E Hwf.
    destruct (IH _ E (dict_wf_set acc k (PStr v) Hwf)) as [Hd Hget].
    split; [exact Hd|]. intros k' v' Hk'.
    destruct (Hget k' v' Hk') as [H | (Hno & s & -> & Hin)].
    + destruct (str_eqb k k') eqn:Ek.
      * apply str_eqb_eq in Ek. subst k'.
        rewrite dict_get_set_same in H. inversion H; subst v'.
        right. split; [exact Hk|]. exists v. split; [reflexivity|].
        left. exact Hkv.
      * apply str_eqb_neq in Ek.
        rewrite dict_get_set_other in H by exact Ek. now left.
    + right. split; [exact Hno|]. exists s. split; [reflexivity | now right].
Qed.

(** X25. The variables given on the command line as [key=value] are cut
    at the first equals sign: the reading fails exactly when an argument
    holds no equals sign, and otherwise gives a dictionary without repeated
    keys in which no key holds an equals sign and every value is a text,
    the part that follows the first equals sign of one of the arguments. *)
Theorem cli_vars_reads (var : list str) :
  (cli_vars var = None <-> exists kv, In kv var /\ ~ In "="%char kv)
  /\ forall d, cli_vars var = Some d ->
       dict_wf d
       /\ forall k v, dict_get d k = Some v ->
            ~ In "="%char k
            /\ exists s, v = PStr s /\ In (k ++ lit "=" ++ s) var.
Proof.
  split; [apply cli_vars_from_none|].
  intros d E. destruct (cli_vars_from_some var [] d E) as [Hwf Hget];
    [constructor|].
  split; [exact Hwf|]. intros k v H.
  destruct (Hget k v H) as [H' | H']; [discriminate | exact H'].
Qed.

Lemma cli_vars_from_pairs (pairs : list (str * str)) (acc : dict pyval) :
  (forall k v, In (k, v) pairs -> ~ In "="%char k) ->
  cli_vars_from acc (map (fun kv => fst kv ++ lit "=" ++ snd kv) pairs)
  = Some (dict_update acc (map (fun kv => (fst kv, PStr (snd kv))) pairs)).
Proof.
  revert acc. induction pairs as [|[k v] pairs IH]; intros acc H;
    [reflexivity|].
  cbn [map cli_vars_from fst snd].
  change (k ++ lit "=" ++ v) with (k ++ "="%char :: v).
  rewrite split_once_cut by (apply (H k v); now left).
  rewrite IH by (intros k' v' H'; apply (H k' v'); now right).
  reflexivity.
Qed.

(** X26. Writing the pairs of a mapping as [key=value] arguments and
    reading them back gives the mapping, every value as a text, provided
    no key holds an equals sign; a value may hold any number of them, and
    of two arguments with the same key the later one wins. *)
Theorem cli_vars_roundtrip (pairs : list (str * str)) :
  (forall k v, In (k, v) pairs -> ~ In "="%char k) ->
  cli_vars (map (fun kv => fst kv ++ lit "=" ++ snd kv) pairs)
  = Some (dict_of_pairs (map (fun kv => (fst kv, PStr (snd kv))) pairs)).
Proof. intros H. unfold cli_vars, dict_of_pairs. now apply cli_vars_from_pairs. Qed.

Lemma cli_vars_roundtrip_witness :
  cli_vars [lit "a=1"; lit "b=x=y"; lit "a=2"]
  = Some [(lit "a", PStr (lit "2")); (lit "b", PStr (lit "x=y"))].
Proof.
  apply (cli_vars_roundtrip
           [(lit "a", lit "1"); (lit "b", lit "x=y"); (lit "a", lit "2")]).
  intros k v [E | [E | [E | []]]]; inversion E; subst;
    intros H; repeat (destruct H as [H | H]; [discriminate H|]); exact H.
Defined.

(** ** Seeding *)

Lemma _save_rows (db db' : DB) (m : TerraformModule) (r : Row) :
  _save db m = Ok db' -> In r db' ->
  In r db
  \/ (row_name r = mod_name m /\ row_provider r = mod_provider m
      /\ row_resource_type r = mod_resource_type m
      /\ row_hcl_template r = mod_hcl_template m
      /\ row_version r = mod_version m).
Proof.
  unfold _save. destruct (existsb _ db); [discriminate|].
  destruct (existsb (fun r => str_eqb (row_id r) (row_id (row_of_module m))) db).
  - intros E Hr. inversion E; subst db'.
    apply in_map_iff in Hr as (r0 & <- & Hr0).
    destruct (str_eqb (row_id r0) _);
      [right; repeat split; reflexivity | now left].
  - intros E Hr. inversion E; subst db'.
    apply in_app_or in Hr as [Hr | [<- | []]]; [now left|].
    right. repeat split; reflexivity.
Qed.

Lemma register_module_cases
  (db : DB) (new_id now name provider resource_type hcl_template : str)
  (variables : list TerraformVariable) (outputs : list TerraformOutput)
  (description : str) (examples : list TerraformExample) (tags : list str)
  (version : str) :
  let out := register_module db new_id now name provider resource_type
               hcl_template variables outputs description examples tags
               version in
  snd out = db
  \/ (In provider PROVIDERS /\ valid (validate_hcl hcl_template) = true
      /\ exists m db', out = (Ok m, db') /\ _save db m = Ok db').
Proof.
  cbv zeta. unfold register_module.
  destruct (existsb (str_eqb provider) PROVIDERS) eqn:Ep; cbn [negb];
    [|now left].
  destruct (valid (validate_hcl hcl_template)) eqn:Ev; cbn [negb];
    [|now left].
  set (m0 := mkModule new_id name provider resource_type version description
               hcl_template variables outputs examples tags now 0%Z).
  destruct (_save db m0) as [db1|e] eqn:Es; [|now left].
  right. split; [now apply provider_known_iff|]. split; [reflexivity|].
  exists m0, db1. auto.
Qed.

Lemma seed_from_invariant (fresh : nat -> str * str)
  (modules_data : list ModuleData) (P : Row -> Prop) :
  (forall r d, In d modules_data -> seeded_from r d ->
     In (data_provider d) PROVIDERS ->
     valid (validate_hcl (data_hcl_template d)) = true -> P r) ->
  forall db n,
    store_ok db -> Forall P db ->
    store_ok (seed_from db fresh n modules_data)
    /\ Forall P (seed_from db fresh n modules_data).
Proof.
  induction modules_data as [|d rest IH]; intros HP db n Hok Hall;
    [now split|].
  cbn [seed_from].
  match goal with
  | |- context [register_module ?a ?b ?c ?e ?f ?g ?h ?i ?j ?k ?l ?o ?p] =>
      destruct (register_module_cases a b c e f g h i j k l o p)
        as [E | (Hp & Hv & m & db' & E & Hs)]
  end.
  - rewrite E. apply IH; auto. intros r d' Hd'. apply HP. now right.
  - assert (Hm := E). apply register_module_ok_inv in Hm as [Hm _].
    rewrite E. cbn [snd]. apply IH.
    + intros r d' Hd'. apply HP. now right.
    + exact (store_ok_save db db' m Hok Hs).
    + apply Forall_forall. intros r Hr.
      destruct (_save_rows db db' m r Hs Hr) as [Hin | Hnew].
      * rewrite Forall_forall in Hall. now apply Hall.
      * apply (HP r d); [now left | | exact Hp | exact Hv].
        subst m. exact Hnew.
Qed.


